(** * N-gram models, POS tagging and Viterbi decoding

    A shallow embedding of the three scripts [bigram.py], [tagging.py] and
    [viterbi.py], and the properties of their counting, smoothing and
    decoding steps.

    Conventions of the embedding:
    - a Python [dict] is an association list in insertion order (iteration
      order is observable through [max] and through the order of prints);
    - an uncaught Python exception is a [Raise e] result;
    - Python [int] counts are [Z]; Python [float] probabilities are exact
      rationals [Q], so rounding is idealised away and [/] raises
      [ZeroDivisionError] on a zero divisor as in Python;
    - text is ASCII: [lower] and whitespace [split] are the ASCII fragments
      of the Python built-ins. *)

From Stdlib Require Import List String Ascii Bool ZArith QArith Lia Arith.
From Stdlib Require Import Qfield Permutation.
Import ListNotations.

Set Implicit Arguments.

(** ** Python runtime fragments *)

Module Py.

Inductive exn : Type :=
| KeyError | IndexError | ValueError | TypeError | ZeroDivisionError | NameError.

Inductive result (A : Type) : Type :=
| Ok (a : A)
| Raise (e : exn).

Arguments Ok {A} a.
Arguments Raise {A} e.

Definition bind {A B : Type} (c : result A) (k : A -> result B) : result B :=
  match c with
  | Ok a => k a
  | Raise e => Raise e
  end.

(** A [for] loop whose body may raise. *)
Fixpoint foldM {S A : Type} (body : S -> A -> result S) (l : list A) (s : S)
  : result S :=
  match l with
  | [] => Ok s
  | x :: r => bind (body s x) (foldM body r)
  end.

Class EqDec (A : Type) : Type := eq_dec : forall x y : A, {x = y} + {x <> y}.

#[export] Instance string_EqDec : EqDec string := string_dec.
#[export] Instance Z_EqDec : EqDec Z := Z.eq_dec.

#[export] Instance option_EqDec {A : Type} `{EqDec A} : EqDec (option A).
Proof. intros x y. unfold EqDec in *. decide equality. Defined.

#[export] Instance prod_EqDec {A B : Type} `{EqDec A} `{EqDec B} : EqDec (A * B).
Proof. intros x y. unfold EqDec in *. decide equality. Defined.

(** *** Dictionaries *)

Definition dict (K V : Type) : Type := list (K * V).

Section Dict.
Context {K V : Type} `{EqDec K}.

(** [d.get(k)] *)
Fixpoint get (k : K) (d : dict K V) : option V :=
  match d with
  | [] => None
  | (k', v) :: r => if eq_dec k k' then Some v else get k r
  end.

(** [k in d] *)
Definition mem (k : K) (d : dict K V) : bool :=
  match get k d with Some _ => true | None => false end.

(** [d[k]] *)
Definition getitem (k : K) (d : dict K V) : result V :=
  match get k d with Some v => Ok v | None => Raise KeyError end.

(** [d[k] = v], also [d.update({k: v})]: an existing key keeps its place,
    a new key goes last. *)
Fixpoint set (k : K) (v : V) (d : dict K V) : dict K V :=
  match d with
  | [] => [(k, v)]
  | (k', v') :: r => if eq_dec k k' then (k', v) :: r else (k', v') :: set k v r
  end.

Definition keys (d : dict K V) : list K := map fst d.
Definition values (d : dict K V) : list V := map snd d.

End Dict.

(** [if k in d: d[k] += 1 else: d.update({k: 1})] *)
Definition incr {K : Type} `{EqDec K} (k : K) (d : dict K Z) : dict K Z :=
  match get k d with
  | Some c => set k (c + 1)%Z d
  | None => set k 1%Z d
  end.

(** [sum(l)] on integers *)
Definition Zsum (l : list Z) : Z := fold_right Z.add 0%Z l.

(** Sum of the counts whose key satisfies [f]. *)
Definition count_where {K : Type} (f : K -> bool) (d : dict K Z) : Z :=
  Zsum (map snd (filter (fun kv => f (fst kv)) d)).

Definition positive {K : Type} (d : dict K Z) : Prop :=
  forall k c, In (k, c) d -> (0 < c)%Z.

(** [sum(l)] on floats *)
Definition Qsum (l : list Q) : Q := fold_right Qplus 0%Q l.

(** [a / b] *)
Definition truediv (a b : Q) : result Q :=
  if Qeq_bool b 0 then Raise ZeroDivisionError else Ok (a / b)%Q.

(** *** Strings *)

Definition is_space (c : ascii) : bool :=
  let n := nat_of_ascii c in
  ((9 <=? n) && (n <=? 13)) || ((28 <=? n) && (n <=? 32)).

Definition lower_ascii (c : ascii) : ascii :=
  let n := nat_of_ascii c in
  if (65 <=? n) && (n <=? 90) then ascii_of_nat (n + 32) else c.

(** [s.lower()] *)
Fixpoint lower (s : string) : string :=
  match s with
  | EmptyString => EmptyString
  | String c r => String (lower_ascii c) (lower r)
  end.

Fixpoint split_from (cur : string) (s : string) : list string :=
  match s with
  | EmptyString => match cur with EmptyString => [] | _ => [cur] end
  | String c r =>
      if is_space c
      then match cur with
           | EmptyString => split_from EmptyString r
           | _ => cur :: split_from EmptyString r
           end
      else split_from (cur ++ String c EmptyString) r
  end.

(** [s.split()] *)
Definition split (s : string) : list string := split_from EmptyString s.

(** [s.split(sep)] for a one-character separator: never empty. *)
Fixpoint split_on (sep : ascii) (s : string) : list string :=
  match s with
  | EmptyString => [EmptyString]
  | String c r =>
      if ascii_dec c sep then EmptyString :: split_on sep r
      else match split_on sep r with
           | h :: t => String c h :: t
           | [] => [String c EmptyString]
           end
  end.

(** [l[i]] *)
Definition index {A : Type} (l : list A) (i : nat) : result A :=
  match nth_error l i with Some a => Ok a | None => Raise IndexError end.

(** [max(l, key=f)]: the first element with the largest key. *)
Fixpoint max_from {A : Type} (key : A -> Q) (best : A) (l : list A) : A :=
  match l with
  | [] => best
  | x :: r => if Qlt_le_dec (key best) (key x) then max_from key x r
              else max_from key best r
  end.

Definition max_by {A : Type} (key : A -> Q) (l : list A) : result A :=
  match l with
  | [] => Raise ValueError
  | x :: r => Ok (max_from key x r)
  end.

End Py.

Import Py.

Notation "x <- c ;; k" := (bind c (fun x => k))
  (at level 61, c at next level, right associativity).


(** ** bigram.py: word bigram model with four smoothing types *)

Module Bigram.

(** The values the loop variable [token] takes: the two sentence markers
    (the ints [0] and [1] of the script) or a word. A word never equals a
    marker, as a [str] never equals an [int]. *)
Inductive symbol : Type :=
| START_OF_SENTENCE
| END_OF_SENTENCE
| Str (s : string).

#[export] Instance symbol_EqDec : EqDec symbol.
Proof. intros x y. decide equality. apply string_dec. Defined.

Inductive smoothing : Type := none | add_one | good_turing | add_one_fast.

(** [token = t; if token != START_OF_SENTENCE and token != END_OF_SENTENCE:
    token = t.split("_")[0]] *)
Definition word_of (t : string) : string := hd EmptyString (split_on "_" t).

Definition word_portion (t : symbol) : symbol :=
  match t with
  | Str s => Str (word_of s)
  | marker => marker
  end.

Record counts : Type := Counts {
  unigramCount : dict symbol Z;
  bigramCount : dict (symbol * symbol) Z
}.

(** [[START_OF_SENTENCE] + tokens + [END_OF_SENTENCE]] *)
Definition with_markers (tokens : list string) : list symbol :=
  [START_OF_SENTENCE] ++ map Str tokens ++ [END_OF_SENTENCE].

(** Body of the training loop over one sentence; the state carries
    [prevToken], which is [None] at the start of a sentence. *)
Definition count_token (st : counts * option symbol) (t : symbol)
  : counts * option symbol :=
  let (c, prevToken) := st in
  let token := word_portion t in
  let u := incr token (unigramCount c) in
  let b := match prevToken with
           | Some p => incr (token, p) (bigramCount c)
           | None => bigramCount c
           end in
  (Counts u b, Some token).

Definition count_sentence (c : counts) (tokens : list string) : counts :=
  fst (fold_left count_token (with_markers tokens) (c, None)).

Definition count_corpus (corpus : list (list string)) : counts :=
  fold_left count_sentence corpus (Counts [] []).

(** [sentence.lower().split()] *)
Definition tokenize (sentence : string) : list string := split (lower sentence).

Definition train (lines : list string) : counts :=
  count_corpus (map tokenize lines).

(** Keys of [bigramProb]: a pair of symbols, or the blank [(None, None)]. *)
Definition pkey : Type := (option symbol * option symbol)%type.
Definition seen (token prevToken : symbol) : pkey := (Some token, Some prevToken).
Definition unseen : pkey := (None, None).

(** [len(unigramCount.keys())] *)
Definition vocabulary_size (c : counts) : Z :=
  Z.of_nat (List.length (keys (unigramCount c))).

(** No smoothing. *)
Definition none_entry (c : counts) (bigramProb : dict pkey Q) (k : symbol * symbol)
  : result (dict pkey Q) :=
  let (token, prevToken) := k in
  bCount <- getitem k (bigramCount c) ;;
  uCount <- getitem prevToken (unigramCount c) ;;
  p <- truediv (inject_Z bCount) (inject_Z uCount) ;;
  Ok (set (seen token prevToken) p bigramProb).

Definition prob_none (c : counts) : result (dict pkey Q) :=
  bigramProb <- foldM (none_entry c) (keys (bigramCount c)) [] ;;
  Ok (set unseen 0%Q bigramProb).

(** Add-one smoothing. *)
Definition add_one_entry (c : counts) (bigramProb : dict pkey Q)
  (k : symbol * symbol) : result (dict pkey Q) :=
  let (token, prevToken) := k in
  bCount <- getitem k (bigramCount c) ;;
  uCount <- getitem prevToken (unigramCount c) ;;
  p <- truediv (inject_Z (bCount + 1)) (inject_Z (uCount + vocabulary_size c)) ;;
  Ok (set (seen token prevToken) p bigramProb).

Definition add_one_unseen (c : counts) (prevToken : symbol)
  (bigramProb : dict pkey Q) (token : symbol) : result (dict pkey Q) :=
  if negb (mem (seen token prevToken) bigramProb)
     && (if eq_dec token START_OF_SENTENCE then false else true)
  then
    uCount <- getitem prevToken (unigramCount c) ;;
    p <- truediv 1%Q (inject_Z (uCount + vocabulary_size c)) ;;
    Ok (set (seen token prevToken) p bigramProb)
  else Ok bigramProb.

Definition add_one_row (c : counts) (bigramProb : dict pkey Q)
  (prevToken : symbol) : result (dict pkey Q) :=
  if eq_dec prevToken END_OF_SENTENCE then Ok bigramProb
  else foldM (add_one_unseen c prevToken) (keys (unigramCount c)) bigramProb.

Definition prob_add_one (fast : bool) (c : counts) : result (dict pkey Q) :=
  bigramProb <- foldM (add_one_entry c) (keys (bigramCount c)) [] ;;
  if fast then Ok bigramProb
  else foldM (add_one_row c) (keys (unigramCount c)) bigramProb.

(** Good-Turing discounting. *)

(** [sum(c == n for c in bigramCount.values())] *)
Definition count_eq (c : counts) (n : Z) : Z :=
  Zsum (map (fun x => if Z.eq_dec x n then 1%Z else 0%Z) (values (bigramCount c))).

(** [if n not in Nc.keys(): Nc.update({n: sum(...)})] *)
Definition memo (c : counts) (n : Z) (Nc : dict Z Z) : dict Z Z :=
  if mem n Nc then Nc else set n (count_eq c n) Nc.

Definition good_turing_entry (c : counts) (N : Z)
  (st : dict Z Z * dict pkey Q) (k : symbol * symbol)
  : result (dict Z Z * dict pkey Q) :=
  let (Nc0, bigramProb) := st in
  let (token, prevToken) := k in
  bCount <- getitem k (bigramCount c) ;;
  let Nc := memo c (bCount + 1) (memo c bCount Nc0) in
  n <- getitem bCount Nc ;;
  newCount <- (if Z.eq_dec n 0 then Ok 0%Q
               else n1 <- getitem (bCount + 1)%Z Nc ;;
                    truediv (inject_Z ((bCount + 1) * n1)) (inject_Z n)) ;;
  p <- truediv newCount (inject_Z N) ;;
  Ok (Nc, set (seen token prevToken) p bigramProb).

Definition prob_good_turing (c : counts) : result (dict pkey Q) :=
  let N := Zsum (values (bigramCount c)) in
  let Nc := set 1%Z (count_eq c 1) [] in
  st <- foldM (good_turing_entry c N) (keys (bigramCount c)) (Nc, []) ;;
  n1 <- getitem 1%Z (fst st) ;;
  p <- truediv (inject_Z n1) (inject_Z N) ;;
  Ok (set unseen p (snd st)).

Definition build (smoothing_type : smoothing) (c : counts) : result (dict pkey Q) :=
  match smoothing_type with
  | none => prob_none c
  | add_one => prob_add_one false c
  | add_one_fast => prob_add_one true c
  | good_turing => prob_good_turing c
  end.

(** The factor the test loop multiplies into [prob] for [token] after
    [prevToken]. *)
Definition factor (smoothing_type : smoothing) (c : counts)
  (bigramProb : dict pkey Q) (token prevToken : symbol) : result Q :=
  match get (seen token prevToken) bigramProb with
  | Some p => Ok p
  | None =>
      match smoothing_type with
      | add_one_fast =>
          uCount <- getitem prevToken (unigramCount c) ;;
          truediv 1%Q (inject_Z (uCount + vocabulary_size c))
      | _ => getitem unseen bigramProb
      end
  end.

Definition test_token (smoothing_type : smoothing) (c : counts)
  (bigramProb : dict pkey Q) (st : option symbol * Q) (t : symbol)
  : result (option symbol * Q) :=
  let (prevToken, prob) := st in
  let token := word_portion t in
  prob' <- match prevToken with
           | Some p =>
               f <- factor smoothing_type c bigramProb token p ;;
               Ok (prob * f)%Q
           | None => Ok prob
           end ;;
  Ok (Some token, prob').

Definition sentence_prob (smoothing_type : smoothing) (c : counts)
  (bigramProb : dict pkey Q) (tokens : list string) : result Q :=
  st <- foldM (test_token smoothing_type c bigramProb) (with_markers tokens)
          (None, 1%Q) ;;
  Ok (snd st).

(** The script run with a test file: the probability it prints. The
    unigram probabilities, which the script computes between training and
    smoothing, are read by the printing branch only. *)
Definition main (smoothing_type : smoothing) (training_lines test_lines : list string)
  : result Q :=
  let c := train training_lines in
  bigramProb <- build smoothing_type c ;;
  sentence <- index test_lines 0 ;;
  sentence_prob smoothing_type c bigramProb (tokenize sentence).

(** Sum of [bigramCount[(s, p)]] over the symbols [s] seen after [p]. *)
Definition followers_count (c : counts) (p : symbol) : Z :=
  count_where (fun k : symbol * symbol => if eq_dec (snd k) p then true else false)
    (bigramCount c).

(** The symbols [s] with an observed bigram [(s, p)]. *)
Definition followers (c : counts) (p : symbol) : list symbol :=
  map fst (filter (fun k => if eq_dec (snd k) p then true else false)
             (keys (bigramCount c))).

(** [unigramCount[p]], taken as [0] for a symbol that is not a key. *)
Definition unigram_count (c : counts) (p : symbol) : Z :=
  match get p (unigramCount c) with Some n => n | None => 0%Z end.

(** The stored probability of a pair, [0] when the table has no entry. *)
Definition stored (bigramProb : dict pkey Q) (s p : symbol) : Q :=
  match get (seen s p) bigramProb with Some q => q | None => 0%Q end.

End Bigram.

(** ** tagging.py: POS model and the table-growing decoder *)

Module Tagging.

Definition START_OF_SENTENCE : string := "<s>".
Definition END_OF_SENTENCE : string := "</s>".

(** A Python [set] of strings, kept as a duplicate-free list. Python fixes
    no iteration order for a set; the list keeps insertion order. *)
Definition str_set : Type := list string.

(** [s.add(x)] *)
Definition set_add (x : string) (s : str_set) : str_set :=
  if in_dec string_dec x s then s else s ++ [x].

Fixpoint chars (s : string) : list string :=
  match s with
  | EmptyString => []
  | String c r => String c EmptyString :: chars r
  end.

(** [set(s)] for a string [s]: the set of its characters. *)
Definition set_of_str (s : string) : str_set :=
  fold_left (fun acc x => set_add x acc) (chars s) [].

(** Keys of [bigramCount]: [(word, tag, 'W')] or [(tag, prevTag, 'T')]. *)
Definition ckey : Type := (string * string * string)%type.

(** Keys of [bigramProb]: the same, or the blank [(None, None, None)]. *)
Definition bkey : Type := (option string * option string * option string)%type.
Definition key3 (a b wt : string) : bkey := (Some a, Some b, Some wt).
Definition blank : bkey := (None, None, None).

Record model : Type := Model {
  tags : dict string str_set;
  unigramTagCount : dict string Z;
  bigramCount : dict ckey Z;
  last_word : option string  (* the script-level variable [word] *)
}.

Definition empty_model : model := Model [] [] [] None.

(** Body of the loop over the [word_pos] tokens of a training sentence. *)
Definition train_token (st : model * string) (token : string)
  : result (model * string) :=
  let (m, prevTag) := st in
  let word_pos := split_on "_" token in
  word <- index word_pos 0 ;;
  tag <- index word_pos 1 ;;
  let tags' := match get word (tags m) with
               | Some s => set word (set_add tag s) (tags m)
               | None => set word (set_of_str tag) (tags m)
               end in
  let u := incr tag (unigramTagCount m) in
  let b := incr (word, tag, "W"%string) (bigramCount m) in
  let b := incr (tag, prevTag, "T"%string) b in
  Ok (Model tags' u b (Some word), tag).

Definition train_sentence (m : model) (sentence : string) : result model :=
  st <- foldM train_token (split sentence) (m, START_OF_SENTENCE) ;;
  let (m', prevTag) := st in
  let u := incr START_OF_SENTENCE (unigramTagCount m') in
  let b := incr (END_OF_SENTENCE, prevTag, "T"%string) (bigramCount m') in
  Ok (Model (tags m') u b (last_word m')).

Definition train (lines : list string) : result model :=
  foldM train_sentence lines empty_model.

Definition prob_entry (m : model) (bigramProb : dict bkey Q) (k : ckey)
  : result (dict bkey Q) :=
  let '(token, tag, WT) := k in
  bCount <- getitem k (bigramCount m) ;;
  uCount <- getitem tag (unigramTagCount m) ;;
  p <- truediv (inject_Z bCount) (inject_Z uCount) ;;
  Ok (set (key3 token tag WT) p bigramProb).

Definition probabilities (m : model) : result (dict bkey Q) :=
  bigramProb <- foldM (prob_entry m) (keys (bigramCount m)) [] ;;
  Ok (set blank 0%Q bigramProb).

(** One table of the decoder: key [(tag, prevTag)], where [prevTag] is
    [None] only in the initial table. *)
Definition table : Type := dict (string * option string) Q.

(** [prob[-1]] *)
Definition last_table (prob : list table) : table := last prob [].

(** [prob[(prevTag, prevPrevTag)]] where [prob] is a list: indexing a list
    with a tuple raises [TypeError]. *)
Definition index_by_tuple {A : Type} (prob : list A) (k : string * option string)
  : result Q := Raise TypeError.

(** [d.get] as the key function of [max]. *)
Definition value_of {K : Type} `{EqDec K} (d : dict K Q) (k : K) : Q :=
  match get k d with Some v => v | None => 0%Q end.

Definition count_of (d : dict string Z) (k : string) : Q :=
  match get k d with Some v => inject_Z v | None => 0%Q end.

(** The unseen-word branch of the loop over the test words. *)
Definition unseen_word_step (most_common_tag : string) (prob : list table)
  (cur_prob : table) (k : string * option string) : result table :=
  let (prevTag, prevPrevTag) := k in
  v <- index_by_tuple prob (prevTag, prevPrevTag) ;;
  Ok (set (most_common_tag, Some prevTag) v cur_prob).

(** Body of the loop over the tags of a seen word. *)
Definition tag_step (bigramProb : dict bkey Q) (last : bool) (word : string)
  (prevTag : string) (prev_prob : Q) (cur_prob : table) (tag : string) : table :=
  match get (key3 word tag "W") bigramProb with
  | None => cur_prob
  | Some e =>
      let cur_prob_val := (prev_prob * e)%Q in
      match get (key3 tag prevTag "T") bigramProb with
      | None => cur_prob
      | Some t =>
          let cur_prob_val := (cur_prob_val * t)%Q in
          if last then
            match get (key3 END_OF_SENTENCE tag "T") bigramProb with
            | None => cur_prob
            | Some f => set (tag, Some prevTag) (cur_prob_val * f)%Q cur_prob
            end
          else set (tag, Some prevTag) cur_prob_val cur_prob
      end
  end.

Definition seen_word_step (bigramProb : dict bkey Q) (last : bool) (word : string)
  (word_tags : list string) (prob : list table) (cur_prob : table)
  (k : string * option string) : result table :=
  let (prevTag, prevPrevTag) := k in
  prev_prob <- getitem (prevTag, prevPrevTag) (last_table prob) ;;
  Ok (fold_left (tag_step bigramProb last word prevTag prev_prob) word_tags cur_prob).

(** Body of the loop [for i in range(len(words))]; the state is the list
    [prob] and the variable [word]. *)
Definition word_step (m : model) (bigramProb : dict bkey Q) (n : nat)
  (most_common_tag : string) (st : list table * option string)
  (iw : nat * string) : result (list table * option string) :=
  let (prob, _) := st in
  let (i, word) := iw in
  cur_prob <-
    match get word (tags m) with
    | Some word_tags =>
        foldM (seen_word_step bigramProb (Nat.eqb i (n - 1)) word word_tags prob)
          (keys (last_table prob)) []
    | None =>
        foldM (unseen_word_step most_common_tag prob) (keys (last_table prob)) []
    end ;;
  Ok (prob ++ [cur_prob], Some word).

(** Body of the loop [for i in reversed(range(len(words) - 1))]; the state
    is [prevTag] and [out]. *)
Definition back_step (words : list string) (prob : list table)
  (most_common_tag : string) (st : option string * string) (i : nat)
  : result (option string * string) :=
  let (prevTag, out) := st in
  word <- index words i ;;
  word_prob <- index prob (i + 1) ;;
  let word_prob_list :=
    filter (fun k => if eq_dec (Some (fst k)) prevTag then true else false)
      (keys word_prob) in
  match word_prob_list with
  | _ :: _ =>
      k <- max_by (value_of word_prob) word_prob_list ;;
      let (best_tag, prevTag') := k in
      Ok (prevTag', (word ++ "_" ++ best_tag ++ " " ++ out)%string)
  | [] =>
      match prevTag with
      | Some best_tag =>
          Ok (Some most_common_tag, (word ++ "_" ++ best_tag ++ " " ++ out)%string)
      | None => Raise TypeError
      end
  end.

Definition decode (m : model) (bigramProb : dict bkey Q) (words : list string)
  : result string :=
  let n := List.length words in
  let prob : list table := [[((START_OF_SENTENCE, None), 1%Q)]] in
  most_common_tag <-
    max_by (count_of (unigramTagCount m)) (keys (unigramTagCount m)) ;;
  st <- foldM (word_step m bigramProb n most_common_tag)
          (combine (seq 0 n) words) (prob, last_word m) ;;
  let (prob, word_var) := st in
  k <- max_by (value_of (last_table prob)) (keys (last_table prob)) ;;
  let (best_tag, prevTag) := k in
  word <- match word_var with Some w => Ok w | None => Raise NameError end ;;
  st' <- foldM (back_step words prob most_common_tag) (rev (seq 0 (n - 1)))
           (prevTag, (word ++ "_" ++ best_tag)%string) ;;
  Ok (snd st').

(** The script run with a test file: the text printed after [RESULT:]. *)
Definition main (training_lines test_lines : list string) : result string :=
  m <- train training_lines ;;
  bigramProb <- probabilities m ;;
  sentence <- index test_lines 0 ;;
  decode m bigramProb (split sentence).

(** The tags paired with [word] in the tokens of a training corpus. *)
Definition observed_tags (word : string) (lines : list string) : list string :=
  flat_map (fun token =>
              match split_on "_" token with
              | w :: t :: _ => if string_dec w word then [t] else []
              | _ => []
              end)
    (flat_map split lines).

End Tagging.

(** ** viterbi.py: Viterbi decoding over a given HMM *)

Module Viterbi.

(** A two-dimensional array as the list of its rows. The arrays [A] and
    [B] are read at the shapes [(N+1, N)] and [(N, M)]; what numpy does at
    other shapes (broadcasting or an error) is outside the model. *)
Definition matrix : Type := list (list Q).

(** [m[i][j]] *)
Definition at2 (m : matrix) (i j : nat) : Q := nth j (nth i m []) 0%Q.

(** [observations.index(obs)] *)
Fixpoint list_index (obs : string) (observations : list string) : result nat :=
  match observations with
  | [] => Raise ValueError
  | x :: r => if string_dec x obs then Ok 0%nat
              else i <- list_index obs r ;; Ok (S i)
  end.

(** A comprehension [[f(x) for x in l]] whose body may raise. *)
Fixpoint mapM {X Y : Type} (f : X -> result Y) (l : list X) : result (list Y) :=
  match l with
  | [] => Ok []
  | x :: r => y <- f x ;; ys <- mapM f r ;; Ok (y :: ys)
  end.

Fixpoint max_from (best : Q) (l : list Q) : Q :=
  match l with
  | [] => best
  | y :: r => if Qlt_le_dec best y then max_from y r else max_from best r
  end.

(** [np.max(l)] of a vector *)
Definition np_max (l : list Q) : result Q :=
  match l with
  | [] => Raise ValueError
  | x :: r => Ok (max_from x r)
  end.

Fixpoint argmax_from (best : nat) (bestv : Q) (i : nat) (l : list Q) : nat :=
  match l with
  | [] => best
  | y :: r => if Qlt_le_dec bestv y then argmax_from i y (S i) r
              else argmax_from best bestv (S i) r
  end.

(** [np.argmax(l)] of a vector: the first index of the largest entry. *)
Definition np_argmax (l : list Q) : result nat :=
  match l with
  | [] => Raise ValueError
  | x :: r => Ok (argmax_from 0 x 1 r)
  end.

(** [np.max(m, axis=1)] and [np.argmax(m, axis=1)] of an [N x N] array:
    an empty axis cannot be reduced. *)
Definition max_rows (m : matrix) : result (list Q) :=
  match m with
  | [] => Raise ValueError
  | _ => mapM np_max m
  end.

Definition argmax_rows (m : matrix) : result (list nat) :=
  match m with
  | [] => Raise ValueError
  | _ => mapM np_argmax m
  end.

(** [A[0] * B[:, o[0], 0]] *)
Definition init_column (A B : matrix) (N o0 : nat) : list Q :=
  map (fun s => (at2 A 0 s * at2 B s o0)%Q) (seq 0 N).

(** [v[:, t - 1] * A[1:].T * B[:, o[t]]]: entry [[s][s']] is
    [v[s'][t-1] * A[s'+1][s] * B[s][o[t]]]. *)
Definition vAB (A B : matrix) (N : nat) (vprev : list Q) (ot : nat) : matrix :=
  map (fun s =>
         map (fun s' => (nth s' vprev 0 * at2 A (S s') s * at2 B s ot)%Q)
           (seq 0 N))
    (seq 0 N).

(** The lattice [v] and the back trace [bt] as the lists of their columns
    computed so far. *)
Definition lattice : Type := (list (list Q) * list (list nat))%type.

(** Body of the loop [for t in range(1, T)]. *)
Definition step (A B : matrix) (N : nat) (st : lattice) (ot : nat)
  : result lattice :=
  let (v, bt) := st in
  let m := vAB A B N (last v []) ot in
  vt <- max_rows m ;;
  btt <- argmax_rows m ;;
  Ok (v ++ [vt], bt ++ [btt]).

Definition fill (A B : matrix) (N : nat) (o : list nat) : result lattice :=
  o0 <- index o 0 ;;
  foldM (step A B N) (tl o) ([init_column A B N o0], [repeat 0%nat N]).

(** Body of the loop [for t in reversed(range(1, T))]; the state is [tag]
    and [out]. *)
Definition back_step (words tags : list string) (bt : list (list nat))
  (st : nat * string) (t : nat) : result (nat * string) :=
  let (tag, out) := st in
  tag' <- index (nth t bt []) tag ;;
  word <- index words (t - 1) ;;
  name <- index tags tag' ;;
  Ok (tag', (word ++ "_" ++ name ++ " " ++ out)%string).

(** The script: the probability and the tagged sentence it prints. *)
Definition main (A B : matrix) (tags observations : list string)
  (test_lines : list string) : result (Q * string) :=
  sentence <- index test_lines 0 ;;
  let words := split sentence in
  o <- mapM (fun obs => list_index obs observations) words ;;
  let N := List.length tags in
  let T := List.length o in
  lat <- fill A B N o ;;
  let (v, bt) := lat in
  best_score <- np_max (nth (T - 1) v []) ;;
  tag <- np_argmax (nth (T - 1) v []) ;;
  word <- index words (List.length words - 1) ;;
  name <- index tags tag ;;
  st <- foldM (back_step words tags bt) (rev (seq 1 (T - 1)))
          (tag, (word ++ "_" ++ name)%string) ;;
  Ok (best_score, snd st).

(** [A] has [r] rows of [c] entries. *)
Definition shape (m : matrix) (r c : nat) : Prop :=
  List.length m = r /\ Forall (fun row => List.length row = c) m.

(** The states before time [t] on the back trace that reaches state [s]
    at time [t]. *)
Fixpoint path_before (bt : list (list nat)) (t s : nat) : list nat :=
  match t with
  | O => []
  | S t' => let s' := nth s (nth t bt []) 0%nat in
            path_before bt t' s' ++ [s']
  end.

(** A word with the name of its state. *)
Definition item (tags : list string) (ws : string * nat) : string :=
  (fst ws ++ "_" ++ nth (snd ws) tags "")%string.

(** The printed line: the words, each with the name of its state on the
    path, separated by one space. *)
Definition render (tags : list string) (words : list string) (path : list nat)
  : string :=
  String.concat " " (map (item tags) (combine words path)).

(** The largest entry of a non-empty vector and its first index. *)
Definition vmax (l : list Q) : Q := max_from (hd 0%Q l) (tl l).
Definition vargmax (l : list Q) : nat := argmax_from 0 (hd 0%Q l) 1 (tl l).

(** The loop body without its error cases. *)
Definition pure_step (A B : matrix) (N : nat) (st : lattice) (ot : nat) : lattice :=
  let m := vAB A B N (last (fst st) []) ot in
  (fst st ++ [map vmax m], snd st ++ [map vargmax m]).

(** [v[s][t]] and [bt[s][t]] of a lattice. *)
Definition v_at (lat : lattice) (s t : nat) : Q := nth s (nth t (fst lat) []) 0%Q.
Definition bt_at (lat : lattice) (s t : nat) : nat := nth s (nth t (snd lat) []) 0%nat.

(** [v[s'][t-1] * A[s'+1][s] * B[s][o[t]]] *)
Definition candidate (A B : matrix) (lat : lattice) (o : list nat) (s t s' : nat)
  : Q :=
  (v_at lat s' (t - 1) * at2 A (S s') s * at2 B s (nth t o 0%nat))%Q.

End Viterbi.

(** ** Invariants and reference values used in the proofs *)

Import Bigram.

(** Both dictionaries have distinct keys and positive counts; the first
    symbol of an observed bigram is a counted symbol and not the start
    marker. *)
Definition well_formed (c : counts) : Prop :=
  NoDup (keys (unigramCount c)) /\ NoDup (keys (bigramCount c)) /\
  Py.positive (unigramCount c) /\ Py.positive (bigramCount c) /\
  (forall s p, In (s, p) (keys (bigramCount c)) ->
     In s (keys (unigramCount c)) /\ s <> START_OF_SENTENCE).

(** The state in the middle of a sentence: every occurrence of a symbol
    has been counted as a predecessor once, but the last one. *)
Definition open_sentence (st : counts * option symbol) : Prop :=
  let (c, prevToken) := st in
  well_formed c /\
  prevToken <> Some END_OF_SENTENCE /\
  followers_count c END_OF_SENTENCE = 0%Z /\
  (prevToken <> None -> In START_OF_SENTENCE (keys (unigramCount c))) /\
  (forall p, p <> END_OF_SENTENCE ->
     (followers_count c p + (if eq_dec prevToken (Some p) then 1 else 0)
      = unigram_count c p)%Z).

(** The state between two sentences. *)
Definition closed_sentence (c : counts) : Prop :=
  well_formed c /\
  followers_count c END_OF_SENTENCE = 0%Z /\
  (forall p, In p (keys (unigramCount c)) ->
             In START_OF_SENTENCE (keys (unigramCount c))) /\
  (forall p, p <> END_OF_SENTENCE -> followers_count c p = unigram_count c p).

(** The entry of an observed bigram without smoothing. *)
Definition none_value (c : counts) (k : symbol * symbol) : Q :=
  (inject_Z (match get k (bigramCount c) with Some n => n | None => 0%Z end)
   / inject_Z (unigram_count c (snd k)))%Q.

(** [bigramCount[(s, p)]], taken as [0] for a pair that is not a key. *)
Definition bigram_count (c : counts) (s p : symbol) : Z :=
  match get (s, p) (bigramCount c) with Some n => n | None => 0%Z end.

(** The entry of an observed bigram under add-one smoothing. *)
Definition add_one_value (c : counts) (k : symbol * symbol) : Q :=
  (inject_Z (match get k (bigramCount c) with Some n => n | None => 0%Z end + 1)
   / inject_Z (unigram_count c (snd k) + vocabulary_size c))%Q.

(** The probability of an unseen bigram after [p] under add-one smoothing. *)
Definition unseen_value (c : counts) (p : symbol) : Q :=
  (1 / inject_Z (unigram_count c p + vocabulary_size c))%Q.

(** A loop step that stores [val x] under [key x] unless the key is taken
    or [cond x] fails. *)
Definition fill {X K V : Type} `{EqDec K} (key : X -> K) (cond : X -> bool)
  (val : X -> V) (acc : dict K V) (x : X) : dict K V :=
  if negb (mem (key x) acc) && cond x then set (key x) (val x) acc else acc.

(** The pairs [(prevToken, token)] in the order the eager add-one loops
    visit them. *)
Definition visited_pairs (c : counts) : list (symbol * symbol) :=
  flat_map (fun p => if eq_dec p END_OF_SENTENCE then []
                     else map (pair p) (keys (unigramCount c)))
    (keys (unigramCount c)).

Definition pair_key (x : symbol * symbol) : pkey := seen (snd x) (fst x).

Definition not_start (x : symbol * symbol) : bool :=
  if eq_dec (snd x) START_OF_SENTENCE then false else true.

(** Add-one normalisation at a corpus and a predecessor [p]: the table is
    built, and its entries [(s, p)] over the vocabulary, an absent entry
    counting as [0], add up to [total]. *)
Definition add_one_sums_to (lines : list string) (p : symbol) (total : Q) : Prop :=
  exists bigramProb,
    build add_one (train lines) = Ok bigramProb /\
    Qsum (map (fun s => stored bigramProb s p) (keys (unigramCount (train lines))))
    == total.

(** Eager/lazy equivalence at a corpus and a pair: both variants answer, with the same probability, which is
    [(count + 1) / (unigramCount[p] + V)] for an observed pair and
    [1 / (unigramCount[p] + V)] otherwise. *)
Definition eager_lazy_agree (lines : list string) (s p : symbol) : Prop :=
  let c := train lines in
  exists eager lazy v,
    build add_one c = Ok eager /\
    build add_one_fast c = Ok lazy /\
    factor add_one c eager s p = Ok v /\
    factor add_one_fast c lazy s p = Ok v /\
    match get (s, p) (bigramCount c) with
    | Some n => v == inject_Z (n + 1) / inject_Z (unigram_count c p + vocabulary_size c)
    | None => v == 1 / inject_Z (unigram_count c p + vocabulary_size c)
    end.

(** [N], the number of bigram occurrences. *)
Definition total_bigrams (c : counts) : Z := Zsum (values (bigramCount c)).

(** The Good-Turing adjusted count [c*] of a count [n]. *)
Definition adjusted_count (c : counts) (n : Z) : Q :=
  if Z.eq_dec (count_eq c n) 0 then 0
  else inject_Z ((n + 1) * count_eq c (n + 1)) / inject_Z (count_eq c n).

Definition good_turing_value (c : counts) (k : symbol * symbol) : Q :=
  adjusted_count c (bigram_count c (fst k) (snd k)) / inject_Z (total_bigrams c).

(** The memo table [Nc] holds true frequencies of frequencies, and the
    one of [1]. *)
Definition memo_ok (c : counts) (Nc : dict Z Z) : Prop :=
  (forall n v, get n Nc = Some v -> v = count_eq c n) /\
  get 1%Z Nc = Some (count_eq c 1).

(** [a in s] for a character [a]. *)
Fixpoint has_char (a : ascii) (s : string) : bool :=
  match s with
  | EmptyString => false
  | String c r => if ascii_dec c a then true else has_char a r
  end.

(** A two-state HMM over the observations [x] and [y]. *)
Definition toy_A : Viterbi.matrix :=
  [[6 # 10; 4 # 10]; [7 # 10; 3 # 10]; [4 # 10; 6 # 10]].
Definition toy_B : Viterbi.matrix := [[9 # 10; 1 # 10]; [2 # 10; 8 # 10]].
Definition toy_tags : list string := ["A"; "B"]%string.
Definition toy_observations : list string := ["x"; "y"]%string.

(** ** Further parts of the scripts and reference values *)

(** bigram.py, the unigram probabilities:
    [totalWordCount = sum(unigramCount.values())] and, for every token,
    [unigramProb[token] = unigramCount[token] / totalWordCount]. *)
Definition unigram_entry (c : counts) (totalWordCount : Z)
  (unigramProb : dict symbol Q) (token : symbol) : result (dict symbol Q) :=
  n <- getitem token (unigramCount c) ;;
  p <- truediv (inject_Z n) (inject_Z totalWordCount) ;;
  Ok (set token p unigramProb).

Definition unigram_probabilities (c : counts) : result (dict symbol Q) :=
  let totalWordCount := Zsum (values (unigramCount c)) in
  foldM (unigram_entry c totalWordCount) (keys (unigramCount c)) [].

(** The number of tokens of a corpus. *)
Definition token_count (lines : list string) : nat :=
  List.length (flat_map tokenize lines).

(** The joint probability, under the HMM [(A, B)], of the states
    [path[0..t]] and the observations [o[0..t]]: row [0] of [A] is the
    initial distribution and row [s + 1] the transitions out of state [s]. *)
Fixpoint joint (A B : Viterbi.matrix) (o path : list nat) (t : nat) : Q :=
  match t with
  | O => Viterbi.at2 A 0 (nth 0%nat path 0%nat)
         * Viterbi.at2 B (nth 0%nat path 0%nat) (nth 0%nat o 0%nat)
  | S t' => joint A B o path t'
            * Viterbi.at2 A (S (nth t' path 0%nat)) (nth t path 0%nat)
            * Viterbi.at2 B (nth t path 0%nat) (nth t o 0%nat)
  end.

(** Every entry of a matrix is non-negative. *)
Definition nonneg (m : Viterbi.matrix) : Prop :=
  Forall (Forall (fun x => 0 <= x)) m.

(** The value of [prevToken] after the test loop has read the symbols [l]. *)
Definition prev_after (l : list symbol) (prevToken : option symbol) : option symbol :=
  fold_left (fun _ t => Some (word_portion t)) l prevToken.

(** Counts of the POS model, [0] for a missing key: the unigram count of a
    tag, the transition counts [(x, t, 'T')] out of a tag [t] and the
    emission counts [(w, t, 'W')] of a tag [t], each summed over the
    entries of [bigramCount]. *)
Definition tag_count (m : Tagging.model) (t : string) : Z :=
  match get t (Tagging.unigramTagCount m) with Some n => n | None => 0%Z end.

Definition transition_key (t : string) (k : Tagging.ckey) : bool :=
  (if string_dec (snd (fst k)) t then true else false)
  && (if string_dec (snd k) "T" then true else false).

Definition emission_key (t : string) (k : Tagging.ckey) : bool :=
  (if string_dec (snd (fst k)) t then true else false)
  && (if string_dec (snd k) "W" then true else false).

Definition transitions_out (m : Tagging.model) (t : string) : Z :=
  count_where (transition_key t) (Tagging.bigramCount m).

Definition emissions_of (m : Tagging.model) (t : string) : Z :=
  count_where (emission_key t) (Tagging.bigramCount m).

(** The tags seen after [t], and the words seen with [t]. *)
Definition successors (m : Tagging.model) (t : string) : list string :=
  map (fun k : Tagging.ckey => fst (fst k))
    (filter (transition_key t) (keys (Tagging.bigramCount m))).

Definition words_of (m : Tagging.model) (t : string) : list string :=
  map (fun k : Tagging.ckey => fst (fst k))
    (filter (emission_key t) (keys (Tagging.bigramCount m))).

(** The stored probability of a key of the POS model, [0] without entry. *)
Definition tag_stored (bigramProb : dict Tagging.bkey Q) (x t wt : string) : Q :=
  match get (Tagging.key3 x t wt) bigramProb with Some q => q | None => 0 end.

Definition tag_wf (m : Tagging.model) : Prop :=
  NoDup (keys (Tagging.unigramTagCount m)) /\
  NoDup (keys (Tagging.bigramCount m)) /\
  Py.positive (Tagging.unigramTagCount m) /\
  Py.positive (Tagging.bigramCount m) /\
  (forall k, In k (keys (Tagging.bigramCount m)) ->
             snd k = "W"%string \/ snd k = "T"%string).

(** The POS model inside a sentence, after [n] whole sentences, with
    [prevTag] waiting for its successor. *)
Definition tag_open (n : Z) (st : Tagging.model * string) : Prop :=
  let (m, prevTag) := st in
  tag_wf m /\
  (forall t,
     (transitions_out m t + (if string_dec prevTag t then 1 else 0)
      = tag_count m t
        + (if string_dec t Tagging.START_OF_SENTENCE then 1 else 0))%Z) /\
  (forall t,
     (emissions_of m t + (if string_dec t Tagging.START_OF_SENTENCE then n else 0)
      = tag_count m t)%Z).

(** The POS model after [n] whole sentences. *)
Definition tag_closed (n : Z) (m : Tagging.model) : Prop :=
  tag_wf m /\
  (forall t, transitions_out m t = tag_count m t) /\
  (forall t,
     (emissions_of m t + (if string_dec t Tagging.START_OF_SENTENCE then n else 0)
      = tag_count m t)%Z).

(** The entry of a key of the POS model. *)
Definition tag_value (m : Tagging.model) (k : Tagging.ckey) : Q :=
  inject_Z (match get k (Tagging.bigramCount m) with Some n => n | None => 0%Z end)
  / inject_Z (tag_count m (snd (fst k))).

Definition ckey_to_bkey (k : Tagging.ckey) : Tagging.bkey :=
  Tagging.key3 (fst (fst k)) (snd (fst k)) (snd k).

(** Every probability of a table of the decoder is larger than zero. *)
Definition positive_table (t : Tagging.table) : Prop :=
  forall k v, In (k, v) t -> 0 < v.

(** A word and its tag as the decoder prints them. *)
Definition tagged (wt : string * string) : string :=
  (fst wt ++ "_" ++ snd wt)%string.

(** The tag set of a word, empty for a word without entry. *)
Definition tags_of (m : Tagging.model) (w : string) : list string :=
  match get w (Tagging.tags m) with Some s => s | None => [] end.

(** Every tag of the corpus is one character long. *)
Definition one_letter_tags (tokens : list string) : Prop :=
  forall token, In token tokens ->
    match split_on "_" token with
    | _ :: t :: _ => String.length t = 1%nat
    | _ => True
    end.

(** The tags paired with [word] in a list of tokens. *)
Definition tags_in (word : string) (tokens : list string) : list string :=
  flat_map (fun token =>
              match split_on "_" token with
              | w :: t :: _ => if string_dec w word then [t] else []
              | _ => []
              end) tokens.

(** [token.split("_")[0]] *)
Definition word_part (token : string) : string :=
  hd ""%string (split_on "_" token).

(** ** What the bigram model counts and looks up *)

(** The symbols a sentence is read as: the start marker, every token cut
    at its first underscore, the end marker. *)
Definition symbols_read (tokens : list string) : list symbol :=
  START_OF_SENTENCE :: map (fun t => Str (word_of t)) tokens ++ [END_OF_SENTENCE].

(** The pairs [(token, prevToken)] of neighbours in a sequence of symbols. *)
Fixpoint neighbours (l : list symbol) : list (symbol * symbol) :=
  match l with
  | [] => []
  | a :: r => match r with
              | [] => []
              | b :: _ => (b, a) :: neighbours r
              end
  end.

(** The number of occurrences of [x] in [l]. *)
Definition occurrences {A : Type} `{EqDec A} (x : A) (l : list A) : Z :=
  Z.of_nat (count_occ eq_dec l x).

(** The probability of a pair without entry: computed from the count of
    [prevToken] under add-one-fast, the blank entry otherwise. *)
Definition default_probability (smoothing_type : smoothing) (c : counts)
  (bigramProb : dict pkey Q) (prevToken : symbol) : result Q :=
  match smoothing_type with
  | add_one_fast =>
      uCount <- getitem prevToken (unigramCount c) ;;
      truediv 1%Q (inject_Z (uCount + vocabulary_size c))
  | _ => getitem unseen bigramProb
  end.

(** The probability of a pair [(token, prevToken)]: the entry stored under
    that pair, or the default. *)
Definition pair_probability (smoothing_type : smoothing) (c : counts)
  (bigramProb : dict pkey Q) (k : symbol * symbol) : result Q :=
  match get (seen (fst k) (snd k)) bigramProb with
  | Some p => Ok p
  | None => default_probability smoothing_type c bigramProb (snd k)
  end.

(** The product of the probabilities of a list of pairs, from left to
    right. *)
Definition product_of_factors (smoothing_type : smoothing) (c : counts)
  (bigramProb : dict pkey Q) (pairs : list (symbol * symbol)) : result Q :=
  foldM (fun prob k =>
           f <- pair_probability smoothing_type c bigramProb k ;;
           Ok (prob * f)%Q)
    pairs 1%Q.

(** ** Facts about dictionaries *)

Unset Implicit Arguments.

Section DictFacts.
Context {K : Type} `{EqDec K}.

Lemma get_set (V : Type) (k k' : K) (v : V) (d : dict K V) :
  get k' (set k v d) = if eq_dec k' k then Some v else get k' d.
Proof.
  induction d as [|[k0 v0] r IH]; simpl.
  - reflexivity.
  - destruct (eq_dec k k0) as [->|Hk]; simpl.
    + destruct (eq_dec k' k0); reflexivity.
    + rewrite IH. destruct (eq_dec k' k0) as [->|]; [|reflexivity].
      destruct (eq_dec k0 k); congruence.
Qed.

Lemma get_In (V : Type) (k : K) (v : V) (d : dict K V) :
  get k d = Some v -> In (k, v) d.
Proof.
  induction d as [|[k0 v0] r IH]; simpl; [discriminate|].
  destruct (eq_dec k k0) as [->|]; intros E.
  - left. congruence.
  - right. auto.
Qed.

Lemma get_None_keys (V : Type) (k : K) (d : dict K V) :
  get k d = None <-> ~ In k (keys d).
Proof.
  induction d as [|[k0 v0] r IH]; simpl.
  - tauto.
  - destruct (eq_dec k k0) as [->|Hk]; split; intros E.
    + discriminate.
    + exfalso. apply E. now left.
    + intros [E'|E']; [congruence|]. now apply IH.
    + apply IH. intros E'. apply E. now right.
Qed.

Lemma get_Some_keys (V : Type) (k : K) (v : V) (d : dict K V) :
  get k d = Some v -> In k (keys d).
Proof.
  intros E. apply get_In in E. apply (in_map fst) in E. exact E.
Qed.

Lemma In_get (V : Type) (k : K) (v : V) (d : dict K V) :
  NoDup (keys d) -> In (k, v) d -> get k d = Some v.
Proof.
  induction d as [|[k0 v0] r IH]; simpl; [tauto|].
  intros ND [E|E].
  - inversion E; subst. destruct (eq_dec k k); congruence.
  - inversion ND as [|? ? Hn ND']; subst.
    destruct (eq_dec k k0) as [->|].
    + exfalso. apply Hn. apply (in_map fst) in E. exact E.
    + auto.
Qed.

Lemma keys_set (V : Type) (k : K) (v : V) (d : dict K V) :
  keys (set k v d) = if mem k d then keys d else keys d ++ [k].
Proof.
  unfold mem. induction d as [|[k0 v0] r IH]; simpl.
  - reflexivity.
  - destruct (eq_dec k k0) as [->|Hk]; simpl.
    + reflexivity.
    + rewrite IH. destruct (get k r); reflexivity.
Qed.

Lemma NoDup_keys_set (V : Type) (k : K) (v : V) (d : dict K V) :
  NoDup (keys d) -> NoDup (keys (set k v d)).
Proof.
  intros ND. rewrite keys_set. unfold mem.
  destruct (get k d) eqn:E; [exact ND|].
  apply get_None_keys in E.
  apply NoDup_rev in ND. rewrite <- (rev_involutive (keys d ++ [k])).
  apply NoDup_rev. rewrite rev_app_distr. simpl. constructor.
  - now rewrite <- in_rev.
  - exact ND.
Qed.

Lemma In_set_value (V : Type) (k k' : K) (v v' : V) (d : dict K V) :
  In (k', v') (set k v d) -> v' = v \/ In (k', v') d.
Proof.
  induction d as [|[k0 v0] r IH]; simpl.
  - intros [E|[]]. left. congruence.
  - destruct (eq_dec k k0) as [->|Hk]; simpl.
    + intros [E|E]; [left; congruence | right; now right].
    + intros [E|E]; [right; now left|].
      destruct (IH E); [now left | right; now right].
Qed.

Lemma count_where_set (f : K -> bool) (k : K) (v : Z) (d : dict K Z) :
  count_where f (set k v d)
  = (count_where f d
     + if f k then v - match get k d with Some c => c | None => 0 end else 0)%Z.
Proof.
  unfold count_where. induction d as [|[k0 v0] r IH]; simpl.
  - destruct (f k); simpl; lia.
  - destruct (eq_dec k k0) as [->|Hk]; simpl.
    + destruct (f k0); simpl; lia.
    + destruct (f k0); simpl; rewrite IH; lia.
Qed.

Lemma count_where_incr (f : K -> bool) (k : K) (d : dict K Z) :
  count_where f (incr k d) = (count_where f d + if f k then 1 else 0)%Z.
Proof.
  unfold incr. destruct (get k d) eqn:E; rewrite count_where_set, E;
    destruct (f k); lia.
Qed.

Lemma positive_incr (k : K) (d : dict K Z) : positive d -> positive (incr k d).
Proof.
  intros P k' c'. unfold incr. destruct (get k d) eqn:E; intros I.
  - apply In_set_value in I. destruct I as [->|I]; [|eauto].
    apply get_In in E. apply P in E. lia.
  - apply In_set_value in I. destruct I as [->|I]; [lia|eauto].
Qed.

Lemma NoDup_keys_incr (k : K) (d : dict K Z) :
  NoDup (keys d) -> NoDup (keys (incr k d)).
Proof.
  unfold incr. destruct (get k d); apply NoDup_keys_set.
Qed.

Lemma get_incr (k k' : K) (d : dict K Z) :
  get k' (incr k d)
  = if eq_dec k' k
    then Some (match get k d with Some c => c + 1 | None => 1 end)%Z
    else get k' d.
Proof.
  unfold incr. destruct (get k d); apply get_set.
Qed.

Lemma count_where_nonneg (f : K -> bool) (d : dict K Z) :
  positive d -> (0 <= count_where f d)%Z.
Proof.
  unfold count_where. induction d as [|[k0 v0] r IH]; simpl; intros P; [lia|].
  assert (0 < v0)%Z by (apply (P k0); now left).
  assert (0 <= Zsum (map snd (filter (fun kv => f (fst kv)) r)))%Z.
  { apply IH. intros k c I. apply (P k). now right. }
  destruct (f k0); simpl; lia.
Qed.

Lemma count_where_ge (f : K -> bool) (k : K) (c : Z) (d : dict K Z) :
  positive d -> In (k, c) d -> f k = true -> (c <= count_where f d)%Z.
Proof.
  unfold count_where. induction d as [|[k0 v0] r IH]; simpl; intros P I F; [tauto|].
  assert (P' : positive r) by (intros k1 c1 I1; apply (P k1); now right).
  pose proof (count_where_nonneg f r P') as Hr. unfold count_where in Hr.
  destruct I as [E|I].
  - inversion E; subst. simpl. rewrite F. simpl. lia.
  - specialize (IH P' I F).
    assert (0 < v0)%Z by (apply (P k0); now left).
    destruct (f k0); simpl; lia.
Qed.

End DictFacts.

(** ** The counts of the bigram model *)


Lemma unigram_count_incr (t p : symbol) (u : dict symbol Z) (b b' : dict (symbol * symbol) Z) :
  unigram_count (Counts (incr t u) b) p
  = (unigram_count (Counts u b') p + if eq_dec p t then 1 else 0)%Z.
Proof.
  unfold unigram_count. simpl. rewrite get_incr.
  destruct (eq_dec p t) as [->|]; [|lia].
  destruct (get t u); lia.
Qed.

Lemma followers_count_incr (t q p : symbol) (u u' : dict symbol Z)
  (b : dict (symbol * symbol) Z) :
  followers_count (Counts u (incr (t, q) b)) p
  = (followers_count (Counts u' b) p + if eq_dec q p then 1 else 0)%Z.
Proof.
  unfold followers_count. simpl. rewrite count_where_incr. simpl.
  destruct (eq_dec q p); reflexivity.
Qed.

Lemma word_portion_not_start (t : symbol) :
  t <> START_OF_SENTENCE -> word_portion t <> START_OF_SENTENCE.
Proof. destruct t; simpl; congruence. Qed.

Lemma word_portion_not_end (t : symbol) :
  t <> END_OF_SENTENCE -> word_portion t <> END_OF_SENTENCE.
Proof. destruct t; simpl; congruence. Qed.

Lemma In_keys_incr (K : Type) `{EqDec K} (k k' : K) (d : dict K Z) :
  In k' (keys (incr k d)) <-> k' = k \/ In k' (keys d).
Proof.
  unfold incr. destruct (get k d) eqn:E; rewrite keys_set; unfold mem; rewrite E.
  - apply get_Some_keys in E. split; [tauto | intros [->|]; auto].
  - rewrite in_app_iff. simpl. split; intros; intuition congruence.
Qed.

Lemma well_formed_step (c : counts) (prevToken : option symbol) (t : symbol) :
  well_formed c ->
  (prevToken = None \/ t <> START_OF_SENTENCE) ->
  well_formed (fst (count_token (c, prevToken) t)).
Proof.
  intros (Hu & Hb & Pu & Pb & Hk) Hs. simpl.
  unfold well_formed; simpl. repeat split.
  - now apply NoDup_keys_incr.
  - destruct prevToken; [now apply NoDup_keys_incr | exact Hb].
  - now apply positive_incr.
  - destruct prevToken; [now apply positive_incr | exact Pb].
  - destruct prevToken as [q|].
    + apply In_keys_incr in H. apply In_keys_incr.
      destruct H as [E|I]; [left; congruence | right; now apply (Hk s p)].
    + apply In_keys_incr. right. now apply (Hk s p).
  - destruct prevToken as [q|].
    + apply In_keys_incr in H. destruct H as [E|I]; [|now apply (Hk s p)].
      inversion E; subst. apply word_portion_not_start.
      destruct Hs; congruence.
    + now apply (Hk s p).
Qed.

Lemma open_sentence_step (st : counts * option symbol) (t : symbol) :
  open_sentence st ->
  t <> END_OF_SENTENCE ->
  (snd st = None /\ t = START_OF_SENTENCE
   \/ snd st <> None /\ t <> START_OF_SENTENCE) ->
  open_sentence (count_token st t).
Proof.
  destruct st as [c prevToken]. intros (W & Hp & He & Hst0 & Hs) Ht Hst.
  simpl in Hst.
  assert (Hst' : prevToken = None \/ t <> START_OF_SENTENCE) by tauto.
  pose proof (well_formed_step c prevToken t W Hst') as W'.
  pose proof (word_portion_not_end t Ht) as Ht'.
  simpl in *. refine (conj W' (conj _ (conj _ (conj _ _)))).
  - congruence.
  - destruct prevToken as [q|]; [|exact He].
    rewrite followers_count_incr with (u' := unigramCount c).
    destruct c; simpl in *.
    destruct (eq_dec q END_OF_SENTENCE); [congruence|lia].
  - intros _. apply In_keys_incr.
    destruct Hst as [[_ ->]|[Hn _]]; [now left | right; auto].
  - intros p Hne. specialize (Hs p Hne).
    rewrite unigram_count_incr with (b' := bigramCount c).
    destruct c as [u b]; simpl in *.
    assert (E : (if eq_dec (Some (word_portion t)) (Some p) then 1 else 0)%Z
                = (if eq_dec p (word_portion t) then 1 else 0)%Z).
    { destruct (eq_dec (Some (word_portion t)) (Some p)) as [E|E];
        destruct (eq_dec p (word_portion t)); congruence. }
    rewrite E. clear E.
    destruct prevToken as [q|].
    + rewrite followers_count_incr with (u' := u).
      assert (E : (if eq_dec (Some q) (Some p) then 1 else 0)%Z
                  = (if eq_dec q p then 1 else 0)%Z).
      { destruct (eq_dec (Some q) (Some p)); destruct (eq_dec q p); congruence. }
      rewrite E in Hs. lia.
    + destruct (eq_dec None (Some p)); [discriminate|].
      unfold followers_count in *. simpl in *. lia.
Qed.

Lemma open_sentence_words (tokens : list string) (st : counts * option symbol) :
  open_sentence st -> snd st <> None ->
  open_sentence (fold_left count_token (map Str tokens) st)
  /\ snd (fold_left count_token (map Str tokens) st) <> None.
Proof.
  revert st. induction tokens as [|w r IH]; intros st O Hn; simpl.
  - auto.
  - apply IH.
    + apply open_sentence_step;
        [exact O | discriminate | right; split; [exact Hn | discriminate]].
    + destruct st; simpl. discriminate.
Qed.

Lemma closed_sentence_step (c : counts) (tokens : list string) :
  closed_sentence c -> closed_sentence (count_sentence c tokens).
Proof.
  intros (W & He & Hst & Hs). unfold count_sentence, with_markers.
  change ([START_OF_SENTENCE] ++ map Str tokens ++ [END_OF_SENTENCE])
    with (START_OF_SENTENCE :: (map Str tokens ++ [END_OF_SENTENCE])).
  cbn [fold_left]. rewrite fold_left_app. cbn [fold_left].
  assert (O0 : open_sentence (c, None)).
  { simpl. refine (conj W (conj _ (conj He (conj _ _))));
      [discriminate | congruence |].
    intros p Hp. rewrite (Hs p Hp).
    destruct (eq_dec None (Some p)); [discriminate|lia]. }
  assert (O1 : open_sentence (count_token (c, None) START_OF_SENTENCE)).
  { apply open_sentence_step; [exact O0 | discriminate | left; now split]. }
  destruct (@open_sentence_words tokens _ O1) as [O2 Hn]; [simpl; discriminate|].
  destruct (fold_left count_token (map Str tokens) _) as [c2 [q|]];
    [|simpl in Hn; congruence].
  destruct O2 as (W2 & Hq & He2 & Hst2 & Hs2).
  assert (W3 : well_formed (fst (count_token (c2, Some q) END_OF_SENTENCE))).
  { apply well_formed_step; [exact W2 | right; discriminate]. }
  simpl in *. refine (conj W3 (conj _ (conj _ _))).
  - rewrite followers_count_incr with (u' := unigramCount c2).
    destruct c2; simpl in *.
    destruct (eq_dec q END_OF_SENTENCE); [congruence|lia].
  - intros _ _. apply In_keys_incr. right. apply Hst2. discriminate.
  - intros p Hp. specialize (Hs2 p Hp).
    rewrite followers_count_incr with (u' := unigramCount c2).
    rewrite unigram_count_incr with (b' := bigramCount c2).
    destruct c2; simpl in *.
    destruct (eq_dec p END_OF_SENTENCE); [congruence|].
    destruct (eq_dec (Some q) (Some p)); destruct (eq_dec q p); try congruence; lia.
Qed.

Lemma closed_sentence_corpus (corpus : list (list string)) :
  closed_sentence (count_corpus corpus).
Proof.
  unfold count_corpus.
  assert (G : forall c, closed_sentence c ->
                        closed_sentence (fold_left count_sentence corpus c)).
  { induction corpus as [|s r IH]; intros c C; simpl; [exact C|].
    apply IH. now apply closed_sentence_step. }
  apply G. unfold closed_sentence, well_formed, positive; simpl.
  repeat split; try constructor; try tauto.
Qed.

Lemma no_follower_of_end (c : counts) (s : symbol) :
  closed_sentence c -> get (s, END_OF_SENTENCE) (bigramCount c) = None.
Proof.
  intros (W & He & _ & _). destruct W as (_ & _ & _ & Pb & _).
  destruct (get (s, END_OF_SENTENCE) (bigramCount c)) as [n|] eqn:E; [|reflexivity].
  apply get_In in E. pose proof (Pb _ _ E) as Hn.
  assert (G : (n <= followers_count c END_OF_SENTENCE)%Z).
  { apply count_where_ge with (k := (s, END_OF_SENTENCE)); auto. }
  lia.
Qed.

(** ** The probability tables of the bigram model *)

(** A loop that stores one computed value per key. *)
Lemma foldM_store (K K' V : Type) `{EqDec K'} (inj : K -> K')
  (val : K -> result V) (f : K -> V)
  (body : dict K' V -> K -> result (dict K' V)) (l : list K) :
  (forall acc k, body acc k = (v <- val k ;; Ok (set (inj k) v acc))) ->
  (forall k, In k l -> val k = Ok (f k)) ->
  forall acc,
    foldM body l acc = Ok (fold_left (fun a k => set (inj k) (f k) a) l acc).
Proof.
  intros Hb Hv. induction l as [|k r IH]; intros acc; simpl.
  - reflexivity.
  - rewrite Hb, (Hv k) by now left. simpl. apply IH.
    intros k' I. apply Hv. now right.
Qed.

Lemma get_fold_set_other (K K' V : Type) `{EqDec K'} (inj : K -> K') (f : K -> V)
  (k' : K') (l : list K) :
  (forall k, In k l -> inj k <> k') ->
  forall acc,
    get k' (fold_left (fun a k => set (inj k) (f k) a) l acc) = get k' acc.
Proof.
  induction l as [|k r IH]; intros Hn acc; simpl.
  - reflexivity.
  - rewrite IH by (intros k0 I; apply Hn; now right).
    rewrite get_set. destruct (eq_dec k' (inj k)) as [E|]; [|reflexivity].
    exfalso. apply (Hn k); [now left | congruence].
Qed.

Lemma get_fold_set_in (K K' V : Type) `{EqDec K'} (inj : K -> K') (f : K -> V)
  (k0 : K) (l : list K) :
  (forall k, In k l -> inj k = inj k0 -> k = k0) ->
  In k0 l ->
  forall acc,
    get (inj k0) (fold_left (fun a k => set (inj k) (f k) a) l acc) = Some (f k0).
Proof.
  induction l as [|k r IH]; intros Hi I acc; simpl; [destruct I|].
  assert (Hr : forall k1, In k1 r -> inj k1 = inj k0 -> k1 = k0)
    by (intros k1 I1; apply Hi; now right).
  destruct (in_dec eq_dec (inj k0) (map inj r)) as [Ir|Ir].
  - apply IH; [exact Hr|].
    apply in_map_iff in Ir. destruct Ir as (k1 & E & I1).
    now rewrite <- (Hr k1 I1 E).
  - rewrite get_fold_set_other.
    + rewrite get_set. destruct I as [->|I].
      * destruct (eq_dec (inj k0) (inj k0)); congruence.
      * exfalso. apply Ir. now apply in_map.
    + intros k1 I1 E. apply Ir. rewrite <- E. now apply in_map.
Qed.

Lemma seen_inj (a b : symbol * symbol) :
  seen (fst a) (snd a) = seen (fst b) (snd b) -> a = b.
Proof. destruct a, b. unfold seen. simpl. congruence. Qed.

(** What training guarantees about one observed bigram. *)
Lemma observed_bigram (c : counts) (s q : symbol) :
  closed_sentence c -> In (s, q) (keys (bigramCount c)) ->
  exists n u,
    get (s, q) (bigramCount c) = Some n /\ get q (unigramCount c) = Some u /\
    (0 < n)%Z /\ (n <= u)%Z /\ q <> END_OF_SENTENCE /\ s <> START_OF_SENTENCE /\
    In s (keys (unigramCount c)).
Proof.
  intros C I. pose proof (@no_follower_of_end c s C) as NE.
  destruct C as (W & He & Hst & Hs). destruct W as (Nu & Nb & Pu & Pb & Hk).
  destruct (get (s, q) (bigramCount c)) as [n|] eqn:E.
  2:{ apply get_None_keys in E. contradiction. }
  assert (Hq : q <> END_OF_SENTENCE) by (intros ->; congruence).
  pose proof E as I'. apply get_In in I'.
  assert (G : (n <= followers_count c q)%Z).
  { apply count_where_ge with (k := (s, q)); auto.
    simpl. destruct (eq_dec q q); congruence. }
  rewrite (Hs q Hq) in G. unfold unigram_count in G.
  pose proof (Pb _ _ I') as Hn.
  destruct (get q (unigramCount c)) as [u|] eqn:Eu; [|lia].
  exists n, u. destruct (Hk s q I). repeat split; auto.
Qed.

Lemma truediv_ok (a : Q) (u : Z) :
  (0 < u)%Z -> truediv a (inject_Z u) = Ok (a / inject_Z u)%Q.
Proof.
  intros Hu. unfold truediv.
  destruct (Qeq_bool (inject_Z u) 0) eqn:E; [|reflexivity].
  apply Qeq_bool_eq in E. unfold Qeq in E. simpl in E. lia.
Qed.

(** *** No smoothing *)

Lemma prob_none_table (c : counts) :
  closed_sentence c ->
  exists bigramProb,
    prob_none c = Ok bigramProb /\
    get unseen bigramProb = Some 0%Q /\
    forall s q, In (s, q) (keys (bigramCount c)) ->
                get (seen s q) bigramProb = Some (none_value c (s, q)).
Proof.
  intros C. unfold prob_none.
  rewrite (@foldM_store _ _ _ _ (fun k => seen (fst k) (snd k))
             (fun k => bCount <- getitem k (bigramCount c) ;;
                       uCount <- getitem (snd k) (unigramCount c) ;;
                       truediv (inject_Z bCount) (inject_Z uCount))
             (none_value c)).
  - eexists. split; [reflexivity|]. split.
    + rewrite get_set. destruct (eq_dec unseen unseen); congruence.
    + intros s q I. rewrite get_set.
      destruct (eq_dec (seen s q) unseen); [discriminate|].
      apply (@get_fold_set_in _ _ _ _ (fun k => seen (fst k) (snd k))
               (none_value c) (s, q)); [|exact I].
      intros k _ E. now apply seen_inj.
  - intros acc [s q]. unfold none_entry, getitem. simpl.
    destruct (get (s, q) (bigramCount c)); simpl; [|reflexivity].
    destruct (get q (unigramCount c)); simpl; [|reflexivity].
    destruct (truediv _ _); reflexivity.
  - intros [s q] I. destruct (@observed_bigram c s q C I) as (n & u & E & Eu & Hn & Hu & _).
    unfold getitem, none_value, unigram_count. simpl. rewrite E, Eu. simpl.
    apply truediv_ok. lia.
Qed.

Lemma Qsum_scaled (X : Type) (g : X -> Z) (u : Q) (l : list X) :
  Qsum (map (fun x => inject_Z (g x) / u) l) == inject_Z (Zsum (map g l)) / u.
Proof.
  induction l as [|x r IH]; simpl.
  - unfold Qdiv. now rewrite Qmult_0_l.
  - rewrite IH, inject_Z_plus. unfold Qdiv. ring.
Qed.

Lemma Qsum_ext (X : Type) (f g : X -> Q) (l : list X) :
  (forall x, In x l -> f x == g x) -> Qsum (map f l) == Qsum (map g l).
Proof.
  induction l as [|x r IH]; intros E; simpl.
  - reflexivity.
  - rewrite (E x) by now left. rewrite IH; [reflexivity|].
    intros y I. apply E. now right.
Qed.

(** The counts of the followers of [p], read off the dictionary one key at
    a time, add up to [followers_count]. *)
Lemma followers_count_by_key (c : counts) (p : symbol) :
  NoDup (keys (bigramCount c)) ->
  Zsum (map (fun s => match get (s, p) (bigramCount c) with
                      | Some n => n | None => 0%Z end) (followers c p))
  = followers_count c p.
Proof.
  intros ND. unfold followers, followers_count, count_where.
  assert (G : forall d : dict (symbol * symbol) Z,
             (forall k n, In (k, n) d -> get k (bigramCount c) = Some n) ->
             Zsum (map (fun s => match get (s, p) (bigramCount c) with
                                 | Some n => n | None => 0%Z end)
                     (map fst (filter (fun k : symbol * symbol =>
                                         if eq_dec (snd k) p then true else false)
                                 (keys d))))
             = Zsum (map snd (filter (fun kv : symbol * symbol * Z =>
                                        if eq_dec (snd (fst kv)) p then true else false)
                                d))).
  { induction d as [|[[s q] n] r IH]; intros Hd; simpl; [reflexivity|].
    assert (Hr : forall k n, In (k, n) r -> get k (bigramCount c) = Some n)
      by (intros k0 n0 I; apply Hd; now right).
    destruct (eq_dec q p) as [->|]; simpl.
    - rewrite (Hd (s, p) n) by now left. f_equal. now apply IH.
    - now apply IH. }
  apply G. intros k n I. now apply In_get.
Qed.

Lemma In_followers (c : counts) (p s : symbol) :
  In s (followers c p) <-> In (s, p) (keys (bigramCount c)).
Proof.
  unfold followers. rewrite in_map_iff. split.
  - intros ([s' q] & E & I). apply filter_In in I. simpl in *.
    destruct I as [I F]. destruct (eq_dec q p); [|discriminate]. congruence.
  - intros I. exists (s, p). split; [reflexivity|]. apply filter_In.
    split; [exact I|]. simpl. destruct (eq_dec p p); congruence.
Qed.

(** C8. Without smoothing, for a symbol [p] of the training corpus other
    than the end marker, the stored probabilities of the symbols seen
    after [p] add up to one. *)
Theorem none_probabilities_sum_to_one (lines : list string) (p : symbol) :
  In p (keys (unigramCount (train lines))) ->
  p <> END_OF_SENTENCE ->
  exists bigramProb,
    build none (train lines) = Ok bigramProb /\
    (forall s, In s (followers (train lines) p) ->
               get (seen s p) bigramProb <> None) /\
    Qsum (map (fun s => stored bigramProb s p) (followers (train lines) p)) == 1.
Proof.
  intros Ip Hp. set (c := train lines).
  pose proof (closed_sentence_corpus (map tokenize lines)) as C.
  fold (train lines) in C. fold c in C.
  destruct (prob_none_table c C) as (bp & E & _ & Hbp).
  exists bp. split; [exact E|]. split.
  { intros s I. apply In_followers in I. rewrite (Hbp s p I). discriminate. }
  destruct C as (W & He & Hst & Hs). pose proof W as (Nu & Nb & Pu & Pb & Hk).
  rewrite Qsum_ext with
    (g := fun s => inject_Z (match get (s, p) (bigramCount c) with
                             | Some n => n | None => 0%Z end)
                   / inject_Z (unigram_count c p)).
  2:{ intros s I. apply In_followers in I. unfold stored.
      rewrite (Hbp s p I). reflexivity. }
  rewrite Qsum_scaled, followers_count_by_key by exact Nb.
  rewrite (Hs p Hp).
  assert (Hu : (0 < unigram_count c p)%Z).
  { unfold unigram_count. destruct (get p (unigramCount c)) as [u|] eqn:Eu.
    - apply (Pu p). now apply get_In.
    - apply get_None_keys in Eu. contradiction. }
  unfold Qdiv. apply Qmult_inv_r. unfold Qeq. simpl. lia.
Qed.

Lemma none_probabilities_sum_to_one_witness :
  exists bigramProb,
    build none (train ["a b"%string; "a"%string]) = Ok bigramProb /\
    (forall s, In s (followers (train ["a b"%string; "a"%string]) (Str "a")) ->
               get (seen s (Str "a")) bigramProb <> None) /\
    Qsum (map (fun s => stored bigramProb s (Str "a"))
            (followers (train ["a b"%string; "a"%string]) (Str "a"))) == 1.
Proof.
  apply (@none_probabilities_sum_to_one ["a b"%string; "a"%string] (Str "a")).
  - vm_compute. tauto.
  - discriminate.
Defined.

(** *** Add-one smoothing *)

Lemma foldM_pure (S A : Type) (body : S -> A -> result S) (g : S -> A -> S)
  (l : list A) :
  (forall acc x, In x l -> body acc x = Ok (g acc x)) ->
  forall acc, foldM body l acc = Ok (fold_left g l acc).
Proof.
  induction l as [|x r IH]; intros Hb acc; simpl.
  - reflexivity.
  - rewrite Hb by now left. simpl. apply IH.
    intros a y I. apply Hb. now right.
Qed.

Lemma fold_left_flat_map (S A B : Type) (g : S -> B -> S) (h : A -> list B)
  (l : list A) (acc : S) :
  fold_left g (flat_map h l) acc
  = fold_left (fun a x => fold_left g (h x) a) l acc.
Proof.
  revert acc. induction l as [|x r IH]; intros acc; simpl.
  - reflexivity.
  - rewrite fold_left_app. apply IH.
Qed.

Lemma fold_left_mapped (S A B : Type) (g : S -> B -> S) (h : A -> B)
  (l : list A) (acc : S) :
  fold_left g (map h l) acc = fold_left (fun a x => g a (h x)) l acc.
Proof.
  revert acc. induction l as [|x r IH]; intros acc; simpl; auto.
Qed.

Section Fill.
Context {X K V : Type} `{EqDec K}.
Variables (key : X -> K) (cond : X -> bool) (val : X -> V).

Lemma fill_keeps (k : K) (v : V) (l : list X) (acc : dict K V) :
  get k acc = Some v -> get k (fold_left (fill key cond val) l acc) = Some v.
Proof.
  revert acc. induction l as [|x r IH]; intros acc G; simpl; [exact G|].
  apply IH. unfold fill, mem.
  destruct (get (key x) acc) eqn:E; simpl; [exact G|].
  destruct (cond x); [|exact G].
  rewrite get_set. destruct (eq_dec k (key x)); congruence.
Qed.

Lemma fill_leaves (k : K) (l : list X) (acc : dict K V) :
  get k acc = None ->
  (forall x, In x l -> cond x = true -> key x <> k) ->
  get k (fold_left (fill key cond val) l acc) = None.
Proof.
  revert acc. induction l as [|x r IH]; intros acc G Hn; simpl; [exact G|].
  apply IH; [|intros y I; apply Hn; now right].
  unfold fill, mem.
  destruct (get (key x) acc) eqn:E; simpl; [exact G|].
  destruct (cond x) eqn:Cx; [|exact G].
  rewrite get_set. destruct (eq_dec k (key x)) as [->|]; [|exact G].
  exfalso. apply (Hn x); [now left | exact Cx | reflexivity].
Qed.

Lemma fill_stores (x0 : X) (l : list X) (acc : dict K V) :
  get (key x0) acc = None -> In x0 l -> cond x0 = true ->
  (forall y, In y l -> key y = key x0 -> val y = val x0 /\ cond y = true) ->
  get (key x0) (fold_left (fill key cond val) l acc) = Some (val x0).
Proof.
  revert acc. induction l as [|x r IH]; intros acc G I C0 Hv; simpl; [destruct I|].
  assert (Hr : forall y, In y r -> key y = key x0 -> val y = val x0 /\ cond y = true)
    by (intros y Iy; apply Hv; now right).
  destruct (eq_dec (key x) (key x0)) as [E|E].
  - destruct (Hv x (or_introl eq_refl) E) as [Ev Cx].
    apply fill_keeps. unfold fill, mem. rewrite E, G. simpl. rewrite Cx.
    rewrite get_set. destruct (eq_dec (key x0) (key x0)); congruence.
  - destruct I as [->|I]; [congruence|].
    apply IH; auto. unfold fill, mem.
    destruct (get (key x) acc) eqn:Ex; simpl; [exact G|].
    destruct (cond x); [|exact G].
    rewrite get_set. destruct (eq_dec (key x0) (key x)); congruence.
Qed.

End Fill.

Lemma vocabulary_size_nonneg (c : counts) : (0 <= vocabulary_size c)%Z.
Proof. unfold vocabulary_size. lia. Qed.

Lemma unigram_count_pos (c : counts) (p : symbol) :
  well_formed c -> In p (keys (unigramCount c)) ->
  exists u, get p (unigramCount c) = Some u /\ (0 < u)%Z /\ unigram_count c p = u.
Proof.
  intros (_ & _ & Pu & _) I. unfold unigram_count.
  destruct (get p (unigramCount c)) as [u|] eqn:E.
  - exists u. repeat split; auto. apply (Pu p). now apply get_In.
  - apply get_None_keys in E. contradiction.
Qed.

Lemma add_one_unseen_fill (c : counts) (p s : symbol) (bp : dict pkey Q) :
  well_formed c -> In p (keys (unigramCount c)) ->
  add_one_unseen c p bp s
  = Ok (fill pair_key not_start (fun x => unseen_value c (fst x)) bp (p, s)).
Proof.
  intros W I. destruct (unigram_count_pos c p W I) as (u & E & Hu & Eu).
  unfold add_one_unseen, fill, pair_key, not_start, unseen_value, getitem. simpl.
  destruct (negb (mem (seen s p) bp) && _); [|reflexivity].
  rewrite E, Eu. simpl.
  pose proof (vocabulary_size_nonneg c).
  rewrite truediv_ok by lia. reflexivity.
Qed.

Lemma add_one_rows_fill (c : counts) (bp : dict pkey Q) :
  well_formed c ->
  foldM (add_one_row c) (keys (unigramCount c)) bp
  = Ok (fold_left (fill pair_key not_start (fun x => unseen_value c (fst x)))
          (visited_pairs c) bp).
Proof.
  intros W. unfold visited_pairs. rewrite fold_left_flat_map.
  apply foldM_pure. intros acc p I. unfold add_one_row.
  destruct (eq_dec p END_OF_SENTENCE); [reflexivity|].
  rewrite fold_left_mapped.
  apply foldM_pure. intros acc' s _. now apply add_one_unseen_fill.
Qed.

Lemma In_visited_pairs (c : counts) (p s : symbol) :
  In (p, s) (visited_pairs c) <->
  In p (keys (unigramCount c)) /\ p <> END_OF_SENTENCE /\ In s (keys (unigramCount c)).
Proof.
  unfold visited_pairs. rewrite in_flat_map. split.
  - intros (q & Iq & I). destruct (eq_dec q END_OF_SENTENCE); [destruct I|].
    apply in_map_iff in I. destruct I as (s' & E & Is). inversion E; subst. auto.
  - intros (Ip & Hp & Is). exists p. split; [exact Ip|].
    destruct (eq_dec p END_OF_SENTENCE); [contradiction|].
    now apply in_map.
Qed.

Lemma add_one_first_pass (c : counts) :
  closed_sentence c ->
  foldM (add_one_entry c) (keys (bigramCount c)) []
  = Ok (fold_left (fun a k => set (seen (fst k) (snd k)) (add_one_value c k) a)
          (keys (bigramCount c)) []).
Proof.
  intros C.
  apply (@foldM_store _ _ _ _ (fun k => seen (fst k) (snd k))
           (fun k => bCount <- getitem k (bigramCount c) ;;
                     uCount <- getitem (snd k) (unigramCount c) ;;
                     truediv (inject_Z (bCount + 1))
                       (inject_Z (uCount + vocabulary_size c)))
           (add_one_value c)).
  - intros acc [s q]. unfold add_one_entry, getitem. simpl.
    destruct (get (s, q) (bigramCount c)); simpl; [|reflexivity].
    destruct (get q (unigramCount c)); simpl; [|reflexivity].
    destruct (truediv _ _); reflexivity.
  - intros [s q] I.
    destruct (@observed_bigram c s q C I) as (n & u & E & Eu & Hn & Hu & _).
    unfold getitem, add_one_value, unigram_count. simpl. rewrite E, Eu. simpl.
    pose proof (vocabulary_size_nonneg c).
    apply truediv_ok. lia.
Qed.

Lemma first_pass_get (c : counts) (f : symbol * symbol -> Q) (s p : symbol) :
  get (seen s p)
    (fold_left (fun a k => set (seen (fst k) (snd k)) (f k) a)
       (keys (bigramCount c)) [])
  = if in_dec eq_dec (s, p) (keys (bigramCount c)) then Some (f (s, p)) else None.
Proof.
  destruct (in_dec eq_dec (s, p) (keys (bigramCount c))) as [I|I].
  - apply (@get_fold_set_in _ _ _ _ (fun k => seen (fst k) (snd k)) f (s, p));
      [|exact I].
    intros k _ E. now apply seen_inj.
  - rewrite get_fold_set_other; [reflexivity|].
    intros k Ik E. apply I. apply (seen_inj k (s, p)) in E. now subst.
Qed.

(** The eager add-one table, entry by entry. *)
Lemma add_one_table (c : counts) :
  closed_sentence c ->
  exists bigramProb,
    prob_add_one false c = Ok bigramProb /\
    forall s p,
      get (seen s p) bigramProb
      = if in_dec eq_dec (s, p) (keys (bigramCount c))
        then Some (add_one_value c (s, p))
        else if in_dec eq_dec (p, s) (visited_pairs c)
             then if eq_dec s START_OF_SENTENCE then None
                  else Some (unseen_value c p)
             else None.
Proof.
  intros C. pose proof C as (W & _). unfold prob_add_one.
  rewrite (add_one_first_pass c C). simpl.
  rewrite (add_one_rows_fill c _ W).
  eexists. split; [reflexivity|]. intros s p.
  pose proof (first_pass_get c (add_one_value c) s p) as G.
  destruct (in_dec eq_dec (s, p) (keys (bigramCount c))) as [I|I].
  - now apply fill_keeps.
  - destruct (in_dec eq_dec (p, s) (visited_pairs c)) as [Iv|Iv].
    + destruct (eq_dec s START_OF_SENTENCE) as [->|Hs].
      * apply fill_leaves; [exact G|].
        intros [p' s'] _ Cx E. unfold pair_key, not_start, seen in *. simpl in *.
        inversion E; subst. destruct (eq_dec START_OF_SENTENCE START_OF_SENTENCE);
          congruence.
      * change (seen s p) with (pair_key (p, s)).
        apply (@fill_stores _ _ _ _ pair_key not_start
                 (fun x => unseen_value c (fst x)) (p, s)); auto.
        -- unfold not_start. simpl. destruct (eq_dec s START_OF_SENTENCE); congruence.
        -- intros [p' s'] _ E. unfold pair_key, seen in E. simpl in E.
           inversion E; subst. split; [reflexivity|].
           unfold not_start. simpl.
           destruct (eq_dec s START_OF_SENTENCE); congruence.
    + apply fill_leaves; [exact G|].
      intros [p' s'] Ix _ E. unfold pair_key, seen in E. simpl in E.
      inversion E; subst. contradiction.
Qed.

(** The lazy add-one table holds the observed bigrams only. *)
Lemma add_one_fast_table (c : counts) :
  closed_sentence c ->
  exists bigramProb,
    prob_add_one true c = Ok bigramProb /\
    forall s p,
      get (seen s p) bigramProb
      = if in_dec eq_dec (s, p) (keys (bigramCount c))
        then Some (add_one_value c (s, p)) else None.
Proof.
  intros C. unfold prob_add_one. rewrite (add_one_first_pass c C). simpl.
  eexists. split; [reflexivity|]. intros s p. apply first_pass_get.
Qed.

(** *** Sums over the vocabulary *)

Lemma Zsum_perm (l l' : list Z) : Permutation l l' -> Zsum l = Zsum l'.
Proof.
  induction 1; simpl; lia.
Qed.

Lemma Zsum_map_add (X : Type) (f g : X -> Z) (l : list X) :
  Zsum (map (fun x => (f x + g x)%Z) l) = (Zsum (map f l) + Zsum (map g l))%Z.
Proof.
  induction l as [|x r IH]; simpl; lia.
Qed.

Lemma Zsum_filter_support (X : Type) (g : X -> Z) (keep : X -> bool) (l : list X) :
  (forall x, In x l -> keep x = false -> g x = 0%Z) ->
  Zsum (map g l) = Zsum (map g (filter keep l)).
Proof.
  induction l as [|x r IH]; intros Hz; simpl; [reflexivity|].
  rewrite IH by (intros y I; apply Hz; now right).
  destruct (keep x) eqn:E; simpl; [reflexivity|].
  rewrite (Hz x) by (auto; now left). lia.
Qed.

Lemma Zsum_on_support (X : Type) `{EqDec X} (g : X -> Z) (l f : list X) :
  NoDup l -> NoDup f -> incl f l ->
  (forall x, In x l -> ~ In x f -> g x = 0%Z) ->
  Zsum (map g l) = Zsum (map g f).
Proof.
  intros Nl Nf Hi Hz.
  rewrite (Zsum_filter_support X g (fun x => if in_dec eq_dec x f then true else false)).
  - apply Zsum_perm, Permutation_map, NoDup_Permutation.
    + now apply NoDup_filter.
    + exact Nf.
    + intros x. rewrite filter_In. destruct (in_dec eq_dec x f); split.
      * tauto.
      * intros I. split; [now apply Hi | reflexivity].
      * intros [_ E]. discriminate.
      * tauto.
  - intros x I E. apply Hz; [exact I|]. destruct (in_dec eq_dec x f); congruence.
Qed.

Lemma Zsum_all (X : Type) `{EqDec X} (a : X) (l : list X) :
  ~ In a l ->
  Zsum (map (fun x => if eq_dec x a then 0%Z else 1%Z) l)
  = Z.of_nat (List.length l).
Proof.
  induction l as [|x r IH]; intros Hn; [reflexivity|].
  cbn [map Zsum fold_right List.length].
  fold (Zsum (map (fun x => if eq_dec x a then 0%Z else 1%Z) r)).
  rewrite IH by (intros I; apply Hn; now right).
  destruct (eq_dec x a) as [->|]; [exfalso; apply Hn; now left | lia].
Qed.

Lemma Zsum_all_but_one (X : Type) `{EqDec X} (a : X) (l : list X) :
  NoDup l -> In a l ->
  Zsum (map (fun x => if eq_dec x a then 0%Z else 1%Z) l)
  = (Z.of_nat (List.length l) - 1)%Z.
Proof.
  induction 1 as [|x r Hx Nr IH]; intros I; [destruct I|].
  cbn [map Zsum fold_right List.length].
  fold (Zsum (map (fun x => if eq_dec x a then 0%Z else 1%Z) r)).
  destruct (eq_dec x a) as [->|Hn].
  - rewrite Zsum_all by exact Hx. lia.
  - destruct I as [E|I]; [congruence|]. rewrite IH by exact I. lia.
Qed.

Lemma NoDup_followers (c : counts) (p : symbol) :
  NoDup (keys (bigramCount c)) -> NoDup (followers c p).
Proof.
  unfold followers. induction 1 as [|[s q] r Hx Nr IH]; simpl; [constructor|].
  destruct (eq_dec q p) as [->|]; [|exact IH].
  simpl. constructor; [|exact IH].
  intros I. apply in_map_iff in I. destruct I as ([s' q'] & E & I).
  apply filter_In in I. destruct I as [I F]. simpl in *.
  destruct (eq_dec q' p); [|discriminate]. subst. contradiction.
Qed.

(** The bigram counts after [p], summed over the whole vocabulary. *)
Lemma followers_count_over_vocabulary (c : counts) (p : symbol) :
  well_formed c ->
  Zsum (map (fun s => bigram_count c s p) (keys (unigramCount c)))
  = followers_count c p.
Proof.
  intros (Nu & Nb & _ & _ & Hk).
  rewrite <- (followers_count_by_key c p Nb).
  apply (@Zsum_on_support symbol symbol_EqDec).
  - exact Nu.
  - now apply NoDup_followers.
  - intros s I. apply In_followers in I. now apply (Hk s p).
  - intros s _ Hn. unfold bigram_count.
    destruct (get (s, p) (bigramCount c)) eqn:E; [|reflexivity].
    exfalso. apply Hn, In_followers. now apply get_Some_keys in E.
Qed.

(** C7. After training on any corpus, for a symbol [p] other than the end
    marker the bigram counts [bigramCount[(s, p)]] add up to
    [unigramCount[p]], whether they are summed over the entries of the
    dictionary or over all symbols [s] of the vocabulary; no bigram has the
    end marker as its predecessor, and the counts after the end marker add
    up to zero. *)
Theorem bigram_counts_sum_to_unigram_count (lines : list string) :
  (forall p, p <> END_OF_SENTENCE ->
     followers_count (train lines) p = unigram_count (train lines) p /\
     Zsum (map (fun s => bigram_count (train lines) s p)
             (keys (unigramCount (train lines))))
     = unigram_count (train lines) p) /\
  (forall s, get (s, END_OF_SENTENCE) (bigramCount (train lines)) = None) /\
  followers_count (train lines) END_OF_SENTENCE = 0%Z.
Proof.
  pose proof (closed_sentence_corpus (map tokenize lines)) as C.
  fold (train lines) in C. split; [|split].
  - intros p Hp. destruct C as (W & _ & _ & Hs).
    rewrite followers_count_over_vocabulary by exact W.
    split; now apply Hs.
  - intros s. now apply no_follower_of_end.
  - apply C.
Qed.

Lemma bigram_counts_sum_to_unigram_count_witness :
  followers_count (train ["a b"%string; "a"%string]) (Str "a") = 2%Z
  /\ get (Str "a") (unigramCount (train ["a b"%string; "a"%string])) = Some 2%Z.
Proof.
  split.
  - rewrite (proj1 (proj1 (bigram_counts_sum_to_unigram_count
                             ["a b"%string; "a"%string])
                      (Str "a") ltac:(discriminate))).
    reflexivity.
  - reflexivity.
Defined.

(** C4 (amended). Under add-one smoothing, for a symbol [p] of the
    vocabulary other than the end marker, the stored probabilities of
    [(s, p)] over all symbols [s] of the vocabulary, an absent entry
    counting as zero, add up to [1 - 1 / (unigramCount[p] + V)]: the start
    marker is counted in [V] and gets no entry. *)
Theorem add_one_probabilities_sum (lines : list string) (p : symbol) :
  In p (keys (unigramCount (train lines))) ->
  p <> END_OF_SENTENCE ->
  add_one_sums_to lines p
    (1 - 1 / inject_Z (unigram_count (train lines) p + vocabulary_size (train lines))).
Proof.
  intros Ip Hp. unfold add_one_sums_to. set (c := train lines) in *.
  pose proof (closed_sentence_corpus (map tokenize lines)) as C.
  fold (train lines) in C. fold c in C.
  destruct (add_one_table c C) as (bp & E & Hbp).
  exists bp. split; [exact E|].
  pose proof C as (W & He & Hst & Hs). pose proof W as (Nu & Nb & Pu & Pb & Hk).
  destruct (unigram_count_pos c p W Ip) as (u & Eu & Hu & Eu').
  pose proof (vocabulary_size_nonneg c) as HV.
  set (D := (unigram_count c p + vocabulary_size c)%Z) in *.
  rewrite Qsum_ext with
    (g := fun s => inject_Z (bigram_count c s p
                             + (if eq_dec s START_OF_SENTENCE then 0 else 1))
                   / inject_Z D).
  2:{ intros s Is. unfold stored. rewrite (Hbp s p).
      destruct (in_dec eq_dec (s, p) (keys (bigramCount c))) as [I|I].
      - destruct (Hk s p I) as [_ Hs']. unfold add_one_value, bigram_count. simpl.
        destruct (eq_dec s START_OF_SENTENCE); [contradiction|]. reflexivity.
      - assert (G : bigram_count c s p = 0%Z).
        { unfold bigram_count.
          destruct (get (s, p) (bigramCount c)) eqn:G; [|reflexivity].
          exfalso. apply I. now apply get_Some_keys in G. }
        rewrite G.
        destruct (in_dec eq_dec (p, s) (visited_pairs c)) as [Iv|Iv].
        + destruct (eq_dec s START_OF_SENTENCE).
          * simpl. unfold Qdiv. now rewrite Qmult_0_l.
          * reflexivity.
        + exfalso. apply Iv. apply In_visited_pairs. auto. }
  rewrite Qsum_scaled, Zsum_map_add, followers_count_over_vocabulary by exact W.
  rewrite Zsum_all_but_one by (auto; now apply (Hst p)).
  rewrite (Hs p Hp). fold (vocabulary_size c). fold D.
  assert (E1 : (unigram_count c p + (vocabulary_size c - 1) = D - 1)%Z)
    by (unfold D; lia).
  rewrite E1. unfold Zminus. rewrite inject_Z_plus. simpl (inject_Z (-1)).
  assert (HD : ~ inject_Z D == 0).
  { unfold Qeq. simpl. unfold D. lia. }
  change (inject_Z (- (1))) with (- (1))%Q.
  set (d := inject_Z D) in *. clearbody d. field. exact HD.
Qed.

Lemma add_one_probabilities_sum_witness :
  add_one_sums_to ["a"%string] START_OF_SENTENCE
    (1 - 1 / inject_Z (unigram_count (train ["a"%string]) START_OF_SENTENCE
                       + vocabulary_size (train ["a"%string]))).
Proof.
  apply (add_one_probabilities_sum ["a"%string] START_OF_SENTENCE).
  - vm_compute. tauto.
  - discriminate.
Defined.

(** C4, as stated, fails: after training on the one sentence [a] the
    entries after the start marker are [2/4] and [1/4], which add up to
    [3/4] exactly. *)
Lemma add_one_probabilities_sum_counterexample :
  In START_OF_SENTENCE (keys (unigramCount (train ["a"%string]))) /\
  START_OF_SENTENCE <> END_OF_SENTENCE /\
  add_one_sums_to ["a"%string] START_OF_SENTENCE (3 # 4) /\
  ~ add_one_sums_to ["a"%string] START_OF_SENTENCE 1.
Proof.
  split; [vm_compute; tauto|]. split; [discriminate|]. split.
  - eexists. split; [vm_compute; reflexivity|]. vm_compute. reflexivity.
  - intros (bp & E & S). vm_compute in E. inversion E; subst. clear E.
    vm_compute in S. discriminate.
Qed.

(** C5 (amended). Eager and lazy add-one smoothing answer alike on every
    pair [(s, p)] of vocabulary symbols with [s] not the start marker and
    [p] not the end marker: [(count + 1) / (unigramCount[p] + V)] for an
    observed pair, [1 / (unigramCount[p] + V)] for an unobserved one. *)
Theorem add_one_eager_lazy_agree (lines : list string) (s p : symbol) :
  In s (keys (unigramCount (train lines))) ->
  In p (keys (unigramCount (train lines))) ->
  s <> START_OF_SENTENCE ->
  p <> END_OF_SENTENCE ->
  eager_lazy_agree lines s p.
Proof.
  intros Is Ip Hs Hp. unfold eager_lazy_agree. set (c := train lines) in *.
  pose proof (closed_sentence_corpus (map tokenize lines)) as C.
  fold (train lines) in C. fold c in C. cbv zeta.
  destruct (add_one_table c C) as (eager & Ee & He).
  destruct (add_one_fast_table c C) as (lazy & El & Hl).
  pose proof C as (W & _).
  destruct (unigram_count_pos c p W Ip) as (u & Eu & Hu & Eu').
  pose proof (vocabulary_size_nonneg c) as HV.
  exists eager, lazy. unfold build. unfold factor. rewrite (He s p), (Hl s p).
  destruct (in_dec eq_dec (s, p) (keys (bigramCount c))) as [I|I].
  - exists (add_one_value c (s, p)). repeat split; auto.
    unfold add_one_value. simpl.
    destruct (get (s, p) (bigramCount c)) eqn:G; [reflexivity|].
    apply get_None_keys in G. contradiction.
  - exists (unseen_value c p).
    destruct (in_dec eq_dec (p, s) (visited_pairs c)) as [Iv|Iv].
    2:{ exfalso. apply Iv, In_visited_pairs. auto. }
    destruct (eq_dec s START_OF_SENTENCE); [contradiction|].
    repeat split; auto.
    + unfold getitem, unseen_value. rewrite Eu, Eu'. simpl.
      apply truediv_ok. lia.
    + destruct (get (s, p) (bigramCount c)) eqn:G; [|reflexivity].
      exfalso. apply I. now apply get_Some_keys in G.
Qed.

Lemma add_one_eager_lazy_agree_witness :
  eager_lazy_agree ["a b"%string; "b"%string] (Str "a") (Str "b").
Proof.
  apply (add_one_eager_lazy_agree ["a b"%string; "b"%string] (Str "a") (Str "b")).
  - vm_compute. tauto.
  - vm_compute. tauto.
  - discriminate.
  - discriminate.
Defined.

(** C5, as stated, fails outside these pairs. After training on the one
    sentence [a]: the pair [(b, <s>)], whose first symbol is not in the
    vocabulary, is unobserved, the lazy variant answers [1/4] and the eager
    one raises [KeyError] on the blank entry it never stores; the same
    happens on the pair [(<s>, a)], which the eager loop skips. *)
Lemma add_one_eager_lazy_counterexample :
  get (Str "b", START_OF_SENTENCE) (bigramCount (train ["a"%string])) = None /\
  (exists eager lazy,
     build add_one (train ["a"%string]) = Ok eager /\
     build add_one_fast (train ["a"%string]) = Ok lazy /\
     factor add_one (train ["a"%string]) eager (Str "b") START_OF_SENTENCE
     = Raise KeyError /\
     factor add_one_fast (train ["a"%string]) lazy (Str "b") START_OF_SENTENCE
     = Ok (1 # 4) /\
     factor add_one (train ["a"%string]) eager START_OF_SENTENCE (Str "a")
     = Raise KeyError /\
     factor add_one_fast (train ["a"%string]) lazy START_OF_SENTENCE (Str "a")
     = Ok (1 # 4)) /\
  ~ eager_lazy_agree ["a"%string] (Str "b") START_OF_SENTENCE /\
  ~ eager_lazy_agree ["a"%string] START_OF_SENTENCE (Str "a").
Proof.
  split; [reflexivity|]. split; [|split].
  - eexists. eexists. split; [vm_compute; reflexivity|].
    split; [vm_compute; reflexivity|]. repeat split; vm_compute; reflexivity.
  - intros (eager & lazy & v & Ee & _ & F & _).
    vm_compute in Ee. inversion Ee; subst. clear Ee.
    vm_compute in F. discriminate.
  - intros (eager & lazy & v & Ee & _ & F & _).
    vm_compute in Ee. inversion Ee; subst. clear Ee.
    vm_compute in F. discriminate.
Qed.

(** *** Good-Turing discounting *)

Lemma truediv_nonzero (a : Q) (u : Z) :
  u <> 0%Z -> truediv a (inject_Z u) = Ok (a / inject_Z u)%Q.
Proof.
  intros Hu. unfold truediv.
  destruct (Qeq_bool (inject_Z u) 0) eqn:E; [|reflexivity].
  apply Qeq_bool_eq in E. unfold Qeq in E. simpl in E. lia.
Qed.

(** A loop that stores one value per key while threading a second state
    that keeps an invariant. *)
Lemma foldM_store_with (K K' V A : Type) `{EqDec K'} (inj : K -> K') (f : K -> V)
  (Inv : A -> Prop) (body : A * dict K' V -> K -> result (A * dict K' V))
  (l : list K) :
  (forall aux acc k, In k l -> Inv aux ->
     exists aux', body (aux, acc) k = Ok (aux', set (inj k) (f k) acc) /\ Inv aux') ->
  forall aux acc, Inv aux ->
    exists aux',
      foldM body l (aux, acc)
      = Ok (aux', fold_left (fun a k => set (inj k) (f k) a) l acc) /\ Inv aux'.
Proof.
  induction l as [|k r IH]; intros Hb aux acc I; simpl.
  - exists aux. auto.
  - destruct (Hb aux acc k (or_introl eq_refl) I) as (aux1 & E & I1).
    rewrite E. simpl. apply IH; [|exact I1].
    intros a b k' Ik. apply Hb. now right.
Qed.

Lemma memo_ok_memo (c : counts) (n : Z) (Nc : dict Z Z) :
  memo_ok c Nc -> memo_ok c (memo c n Nc) /\ get n (memo c n Nc) = Some (count_eq c n).
Proof.
  intros [Ha H1]. unfold memo, mem.
  destruct (get n Nc) as [v|] eqn:E.
  - split; [split; assumption|]. rewrite E. f_equal. now apply Ha.
  - split; [split|].
    + intros m v. rewrite get_set. destruct (eq_dec m n) as [->|]; [congruence|].
      apply Ha.
    + rewrite get_set. destruct (eq_dec 1%Z n) as [<-|]; [reflexivity | exact H1].
    + rewrite get_set. destruct (eq_dec n n); congruence.
Qed.

Lemma total_bigrams_pos (c : counts) :
  positive (bigramCount c) -> bigramCount c <> [] -> (0 < total_bigrams c)%Z.
Proof.
  unfold total_bigrams, values. intros P Hn.
  destruct (bigramCount c) as [|[k n] r]; [congruence|].
  assert (0 < n)%Z by (apply (P k); now left).
  assert (G : forall d : dict (symbol * symbol) Z, positive d -> (0 <= Zsum (map snd d))%Z).
  { induction d as [|[k' n'] d IH]; intros Pd; simpl; [lia|].
    assert (0 < n')%Z by (apply (Pd k'); now left).
    assert (0 <= Zsum (map snd d))%Z
      by (apply IH; intros a b I; apply (Pd a); now right).
    lia. }
  assert (0 <= Zsum (map snd r))%Z
    by (apply G; intros a b I; apply (P a); now right).
  simpl. lia.
Qed.

Lemma good_turing_step (c : counts) (Nc : dict Z Z) (acc : dict pkey Q)
  (k : symbol * symbol) :
  NoDup (keys (bigramCount c)) -> (0 < total_bigrams c)%Z ->
  In k (keys (bigramCount c)) -> memo_ok c Nc ->
  exists Nc',
    good_turing_entry c (total_bigrams c) (Nc, acc) k
    = Ok (Nc', set (seen (fst k) (snd k)) (good_turing_value c k) acc)
    /\ memo_ok c Nc'.
Proof.
  intros ND HN I M. destruct k as [s p]. unfold good_turing_entry, getitem.
  destruct (get (s, p) (bigramCount c)) as [n|] eqn:E.
  2:{ apply get_None_keys in E. contradiction. }
  cbn [bind].
  destruct (memo_ok_memo c n Nc M) as [M1 G1].
  destruct (memo_ok_memo c (n + 1) (memo c n Nc) M1) as [M2 G2].
  assert (G1' : get n (memo c (n + 1) (memo c n Nc)) = Some (count_eq c n)).
  { generalize dependent (memo c n Nc). intros Nc1 _ G1 _ _.
    unfold memo, mem. destruct (get (n + 1)%Z Nc1); [exact G1|].
    rewrite get_set. destruct (eq_dec n (n + 1)%Z); [lia | exact G1]. }
  exists (memo c (n + 1) (memo c n Nc)). split; [|exact M2].
  rewrite G1'. cbn [bind].
  unfold good_turing_value, adjusted_count, bigram_count. simpl fst. simpl snd.
  rewrite E.
  destruct (Z.eq_dec (count_eq c n) 0) as [Z0|Z0]; cbn [bind].
  - rewrite truediv_ok by exact HN. reflexivity.
  - rewrite G2. cbn [bind]. rewrite truediv_nonzero by exact Z0. cbn [bind].
    rewrite truediv_ok by exact HN. reflexivity.
Qed.

(** The Good-Turing table of a corpus with at least one bigram. *)
Lemma good_turing_table (c : counts) :
  well_formed c -> bigramCount c <> [] ->
  exists bigramProb,
    prob_good_turing c = Ok bigramProb /\
    get unseen bigramProb
    = Some (inject_Z (count_eq c 1) / inject_Z (total_bigrams c)) /\
    forall s p, In (s, p) (keys (bigramCount c)) ->
                get (seen s p) bigramProb = Some (good_turing_value c (s, p)).
Proof.
  intros (Nu & Nb & Pu & Pb & Hk) Hn.
  pose proof (total_bigrams_pos c Pb Hn) as HN.
  unfold prob_good_turing. cbv zeta.
  change (Zsum (values (bigramCount c))) with (total_bigrams c).
  assert (M0 : memo_ok c (set 1%Z (count_eq c 1) [])).
  { split.
    - intros n v. rewrite get_set. simpl.
      destruct (eq_dec n 1%Z) as [->|]; congruence.
    - reflexivity. }
  destruct (foldM_store_with (symbol * symbol) pkey Q (dict Z Z)
              (fun k => seen (fst k) (snd k)) (good_turing_value c) (memo_ok c)
              (good_turing_entry c (total_bigrams c)) (keys (bigramCount c))
              (fun aux acc k I M => good_turing_step c aux acc k Nb HN I M)
              (set 1%Z (count_eq c 1) []) (@nil (pkey * Q)) M0)
    as (Nc & E & M).
  - eexists.
    change (@pair (dict Z Z) (list (pkey * Q))) with (@pair (dict Z Z) (dict pkey Q)).
    rewrite E. cbn [bind fst snd]. unfold getitem.
    rewrite (proj2 M). cbn [bind].
    rewrite truediv_ok by exact HN. cbn [bind].
    split; [reflexivity|]. split.
    + rewrite get_set. destruct (eq_dec unseen unseen); congruence.
    + intros s p I. rewrite get_set.
      destruct (eq_dec (seen s p) unseen); [discriminate|].
      apply (@get_fold_set_in _ _ _ _ (fun k => seen (fst k) (snd k))
               (good_turing_value c) (s, p)); [|exact I].
      intros k _ Ek. now apply seen_inj.
Qed.

Lemma keys_grow_fold (l : list symbol) (st : counts * option symbol) (k : symbol) :
  In k (keys (unigramCount (fst st))) ->
  In k (keys (unigramCount (fst (fold_left count_token l st)))).
Proof.
  revert st. induction l as [|t r IH]; intros [c q] I; simpl; [exact I|].
  apply IH. simpl. apply In_keys_incr. now right.
Qed.

Lemma start_counted (c : counts) (tokens : list string) :
  In START_OF_SENTENCE (keys (unigramCount (count_sentence c tokens))).
Proof.
  unfold count_sentence, with_markers.
  change ([START_OF_SENTENCE] ++ map Str tokens ++ [END_OF_SENTENCE])
    with (START_OF_SENTENCE :: (map Str tokens ++ [END_OF_SENTENCE])).
  cbn [fold_left]. apply keys_grow_fold. simpl. apply In_keys_incr. now left.
Qed.

Lemma trained_bigrams_nonempty (lines : list string) :
  lines <> [] -> bigramCount (train lines) <> [].
Proof.
  intros Hn. pose proof (closed_sentence_corpus (map tokenize lines)) as C.
  fold (train lines) in C.
  assert (I : In START_OF_SENTENCE (keys (unigramCount (train lines)))).
  { unfold train, count_corpus.
    destruct (exists_last Hn) as (l & s & ->).
    rewrite map_app, fold_left_app. simpl. apply start_counted. }
  destruct C as (W & _ & _ & Hs).
  destruct (unigram_count_pos _ _ W I) as (u & _ & Hu & Eu).
  specialize (Hs START_OF_SENTENCE). rewrite Eu in Hs.
  intros E. unfold followers_count in Hs. rewrite E in Hs.
  unfold count_where in Hs. simpl in Hs.
  assert (0 = u)%Z by (apply Hs; discriminate). lia.
Qed.


(** Without any training line there is no bigram: [N = 0], the blank entry
    [Nc[1] / N] is not defined and the script raises. *)
Lemma good_turing_empty_corpus_divides_by_zero :
  total_bigrams (train []) = 0%Z /\
  build good_turing (train []) = Raise ZeroDivisionError.
Proof.
  split; reflexivity.
Qed.





(** *** The word portion of a token *)

Lemma split_on_nonempty (sep : ascii) (s : string) : split_on sep s <> [].
Proof.
  destruct s as [|c r]; simpl; [discriminate|].
  destruct (ascii_dec c sep); [discriminate|].
  destruct (split_on sep r); discriminate.
Qed.

Lemma word_of_empty : word_of EmptyString = EmptyString.
Proof. reflexivity. Qed.

Lemma word_of_cons (c : ascii) (r : string) :
  word_of (String c r)
  = if ascii_dec c "_" then EmptyString else String c (word_of r).
Proof.
  unfold word_of. simpl. destruct (ascii_dec c "_"); [reflexivity|].
  pose proof (split_on_nonempty "_" r).
  destruct (split_on "_" r); [congruence | reflexivity].
Qed.

Lemma word_of_idempotent (t : string) : word_of (word_of t) = word_of t.
Proof.
  induction t as [|c r IH]; [reflexivity|].
  rewrite word_of_cons. destruct (ascii_dec c "_") as [E|E]; [reflexivity|].
  rewrite word_of_cons. destruct (ascii_dec c "_"); [contradiction|].
  now rewrite IH.
Qed.

Lemma word_of_no_underscore (t : string) : has_char "_" (word_of t) = false.
Proof.
  induction t as [|c r IH]; [reflexivity|].
  rewrite word_of_cons. destruct (ascii_dec c "_") as [E|E]; [reflexivity|].
  simpl. destruct (ascii_dec c "_"); [contradiction | exact IH].
Qed.

Lemma word_of_prefix (t : string) :
  if has_char "_" t
  then exists rest, t = (word_of t ++ String "_" rest)%string
  else word_of t = t.
Proof.
  induction t as [|c r IH]; [reflexivity|].
  rewrite word_of_cons. simpl. destruct (ascii_dec c "_") as [->|E].
  - exists r. reflexivity.
  - destruct (has_char "_" r).
    + destruct IH as (rest & E'). exists rest. simpl. now rewrite <- E'.
    + now rewrite IH.
Qed.

Lemma word_portion_word_of (t : string) :
  word_portion (Str (word_of t)) = word_portion (Str t).
Proof. simpl. now rewrite word_of_idempotent. Qed.

Lemma fold_left_same_on_map (S A : Type) (g : S -> A -> S) (h : A -> A)
  (l : list A) (acc : S) :
  (forall a x, g a (h x) = g a x) ->
  fold_left g (map h l) acc = fold_left g l acc.
Proof.
  intros E. revert acc. induction l as [|x r IH]; intros acc; simpl; [reflexivity|].
  now rewrite E, IH.
Qed.

Lemma foldM_same_on_map (S A : Type) (g : S -> A -> result S) (h : A -> A)
  (l : list A) (acc : S) :
  (forall a x, g a (h x) = g a x) ->
  foldM g (map h l) acc = foldM g l acc.
Proof.
  intros E. revert acc. induction l as [|x r IH]; intros acc; simpl; [reflexivity|].
  rewrite E. destruct (g acc x); simpl; [apply IH | reflexivity].
Qed.

Lemma with_markers_word_of (tokens : list string) :
  with_markers (map word_of tokens)
  = START_OF_SENTENCE
    :: map (fun t => match t with Str s => Str (word_of s) | m => m end)
         (map Str tokens ++ [END_OF_SENTENCE]).
Proof.
  unfold with_markers. simpl. f_equal.
  rewrite map_app, !map_map. reflexivity.
Qed.

Lemma count_sentence_word_of (c : counts) (tokens : list string) :
  count_sentence c (map word_of tokens) = count_sentence c tokens.
Proof.
  unfold count_sentence. rewrite with_markers_word_of.
  unfold with_markers. cbn [app fold_left]. f_equal.
  apply fold_left_same_on_map.
  intros [a q] [| |s]; try reflexivity.
  unfold count_token. now rewrite word_portion_word_of.
Qed.

Lemma count_corpus_word_of (corpus : list (list string)) :
  count_corpus (map (map word_of) corpus) = count_corpus corpus.
Proof.
  unfold count_corpus. generalize (Counts [] []).
  induction corpus as [|s r IH]; intros c; simpl; [reflexivity|].
  now rewrite count_sentence_word_of, IH.
Qed.

Lemma sentence_prob_word_of (smoothing_type : smoothing) (c : counts)
  (bigramProb : dict pkey Q) (tokens : list string) :
  sentence_prob smoothing_type c bigramProb (map word_of tokens)
  = sentence_prob smoothing_type c bigramProb tokens.
Proof.
  unfold sentence_prob. rewrite with_markers_word_of.
  unfold with_markers. cbn [app foldM].
  destruct (test_token smoothing_type c bigramProb (None, 1) START_OF_SENTENCE);
    [|reflexivity].
  cbn [bind]. rewrite foldM_same_on_map; [reflexivity|].
  intros [q pr] [| |s]; try reflexivity.
  unfold test_token. now rewrite word_portion_word_of.
Qed.

(** *** The keys of the counts and of the lookups *)

Lemma occurrences_cons (A : Type) `{EqDec A} (x a : A) (l : list A) :
  occurrences x (a :: l)
  = ((if eq_dec x a then 1 else 0) + occurrences x l)%Z.
Proof.
  unfold occurrences. cbn [count_occ].
  destruct (eq_dec a x) as [E|E], (eq_dec x a) as [E'|E']; try congruence; lia.
Qed.

Lemma occurrences_app (A : Type) `{EqDec A} (x : A) (l1 l2 : list A) :
  occurrences x (l1 ++ l2) = (occurrences x l1 + occurrences x l2)%Z.
Proof. unfold occurrences. rewrite count_occ_app. lia. Qed.

Lemma bigram_count_incr (k : symbol * symbol) (s p : symbol) (u u' : dict symbol Z)
  (b : dict (symbol * symbol) Z) :
  bigram_count (Counts u (incr k b)) s p
  = (bigram_count (Counts u' b) s p + if eq_dec (s, p) k then 1 else 0)%Z.
Proof.
  unfold bigram_count. simpl. rewrite get_incr.
  destruct (eq_dec (s, p) k) as [<-|]; [|lia].
  destruct (get (s, p) b); lia.
Qed.

(** The counting loop over the symbols [l], from any state: every symbol
    is counted once under its word portion, and every pair of neighbours
    once under the pair of their word portions. *)
Lemma count_tokens_keys (l : list symbol) :
  forall c prevToken,
    (forall x,
       unigram_count (fst (fold_left count_token l (c, prevToken))) x
       = (unigram_count c x + occurrences x (map word_portion l))%Z) /\
    (forall s p,
       bigram_count (fst (fold_left count_token l (c, prevToken))) s p
       = (bigram_count c s p
          + occurrences (s, p)
              (neighbours (match prevToken with
                           | Some q => q :: map word_portion l
                           | None => map word_portion l
                           end)))%Z).
Proof.
  induction l as [|t r IH]; intros c prevToken.
  - split; [intros x | intros s p]; cbn [fold_left fst map].
    + unfold occurrences. simpl. lia.
    + destruct prevToken; unfold occurrences; simpl; lia.
  - cbn [fold_left count_token map].
    destruct (IH (Counts (incr (word_portion t) (unigramCount c))
                    (match prevToken with
                     | Some p => incr (word_portion t, p) (bigramCount c)
                     | None => bigramCount c
                     end))
                 (Some (word_portion t))) as [Hu Hb].
    split.
    + intros x. rewrite Hu, occurrences_cons.
      rewrite (unigram_count_incr (word_portion t) x (unigramCount c) _ (bigramCount c)).
      destruct c as [u b]. cbn [unigramCount bigramCount]. lia.
    + intros s p. rewrite Hb. destruct prevToken as [q|].
      * cbn [neighbours]. rewrite occurrences_cons.
        rewrite (bigram_count_incr (word_portion t, q) s p _ (unigramCount c)
                   (bigramCount c)).
        destruct c as [u b]. cbn [unigramCount bigramCount].
        destruct (map word_portion r); lia.
      * destruct c as [u b]. cbn [unigramCount bigramCount]. unfold bigram_count.
        cbn [bigramCount]. reflexivity.
Qed.

Lemma word_portions_read (tokens : list string) :
  map word_portion (with_markers tokens) = symbols_read tokens.
Proof.
  unfold with_markers, symbols_read. cbn [app map word_portion]. f_equal.
  rewrite map_app, map_map. reflexivity.
Qed.

Lemma count_sentence_keys (c : counts) (tokens : list string) :
  (forall x,
     unigram_count (count_sentence c tokens) x
     = (unigram_count c x + occurrences x (symbols_read tokens))%Z) /\
  (forall s p,
     bigram_count (count_sentence c tokens) s p
     = (bigram_count c s p
        + occurrences (s, p) (neighbours (symbols_read tokens)))%Z).
Proof.
  unfold count_sentence.
  destruct (count_tokens_keys (with_markers tokens) c None) as [Hu Hb].
  rewrite word_portions_read in Hu, Hb. split; assumption.
Qed.

Lemma count_corpus_keys (corpus : list (list string)) :
  forall c,
    (forall x,
       unigram_count (fold_left count_sentence corpus c) x
       = (unigram_count c x + occurrences x (flat_map symbols_read corpus))%Z) /\
    (forall s p,
       bigram_count (fold_left count_sentence corpus c) s p
       = (bigram_count c s p
          + occurrences (s, p)
              (flat_map (fun tokens => neighbours (symbols_read tokens)) corpus))%Z).
Proof.
  induction corpus as [|tokens r IH]; intros c.
  - split; [intros x | intros s p]; unfold occurrences; simpl; lia.
  - cbn [fold_left flat_map].
    destruct (IH (count_sentence c tokens)) as [Hu Hb].
    destruct (count_sentence_keys c tokens) as [Su Sb].
    split.
    + intros x. rewrite Hu, Su, occurrences_app. lia.
    + intros s p. rewrite Hb, Sb, occurrences_app. lia.
Qed.

(** The query loop from inside a sentence: one factor per pair of
    neighbours, looked up under the pair of their word portions. *)
Lemma query_keys (smoothing_type : smoothing) (c : counts)
  (bigramProb : dict pkey Q) (l : list symbol) :
  forall p pr,
    (st <- foldM (test_token smoothing_type c bigramProb) l (Some p, pr) ;;
     Ok (snd st))
    = foldM (fun prob k =>
               f <- pair_probability smoothing_type c bigramProb k ;;
               Ok (prob * f)%Q)
        (neighbours (p :: map word_portion l)) pr.
Proof.
  induction l as [|t r IH]; intros p pr.
  - reflexivity.
  - cbn [map neighbours foldM test_token fst snd].
    change (pair_probability smoothing_type c bigramProb (word_portion t, p))
      with (factor smoothing_type c bigramProb (word_portion t) p).
    destruct (factor smoothing_type c bigramProb (word_portion t) p) as [f|e];
      cbn [bind]; [|reflexivity].
    apply IH.
Qed.

(** C10. Training and the sentence query read a word token only up to its
    first underscore, and never split a sentence marker. The word portion
    of a token is its longest prefix without underscore. After training,
    the unigram count of a symbol is the number of its occurrences among
    the markers and the word portions of the tokens, and the bigram count
    of a pair the number of times the two are neighbours there; the query
    multiplies one factor per pair of neighbours of the sentence read the
    same way, looked up under that pair. So two corpora whose tokens have
    the same word portions give the same counts, and two test sentences
    whose tokens have the same word portions get the same result, as [dog]
    and [dog_NOUN] do. *)
Theorem tokens_cut_at_first_underscore :
  (forall t, word_portion (Str t) = Str (word_of t)
             /\ has_char "_" (word_of t) = false
             /\ (if has_char "_" t
                 then exists rest, t = (word_of t ++ String "_" rest)%string
                 else word_of t = t)) /\
  word_portion START_OF_SENTENCE = START_OF_SENTENCE /\
  word_portion END_OF_SENTENCE = END_OF_SENTENCE /\
  (forall corpus corpus',
     map (map word_of) corpus = map (map word_of) corpus' ->
     count_corpus corpus = count_corpus corpus') /\
  (forall smoothing_type c bigramProb tokens tokens',
     map word_of tokens = map word_of tokens' ->
     sentence_prob smoothing_type c bigramProb tokens
     = sentence_prob smoothing_type c bigramProb tokens') /\
  (word_of "dog_NOUN" = "dog"%string /\ word_of "dog" = "dog"%string) /\
  (forall corpus x,
     unigram_count (count_corpus corpus) x
     = occurrences x (flat_map symbols_read corpus)) /\
  (forall corpus s p,
     bigram_count (count_corpus corpus) s p
     = occurrences (s, p)
         (flat_map (fun tokens => neighbours (symbols_read tokens)) corpus)) /\
  (forall smoothing_type c bigramProb tokens,
     sentence_prob smoothing_type c bigramProb tokens
     = product_of_factors smoothing_type c bigramProb
         (neighbours (symbols_read tokens))).
Proof.
  split; [|split; [|split; [|split; [|split; [|split; [|split; [|split]]]]]]];
    try reflexivity.
  - intros t. split; [reflexivity|]. split.
    + apply word_of_no_underscore.
    + apply word_of_prefix.
  - intros corpus corpus' E.
    rewrite <- (count_corpus_word_of corpus), <- (count_corpus_word_of corpus').
    now rewrite E.
  - intros sm c bp tokens tokens' E.
    rewrite <- (sentence_prob_word_of sm c bp tokens),
      <- (sentence_prob_word_of sm c bp tokens').
    now rewrite E.
  - split; reflexivity.
  - intros corpus x. unfold count_corpus.
    rewrite (proj1 (count_corpus_keys corpus (Counts [] [])) x). reflexivity.
  - intros corpus s p. unfold count_corpus.
    rewrite (proj2 (count_corpus_keys corpus (Counts [] [])) s p). reflexivity.
  - intros sm c bp tokens. unfold sentence_prob, product_of_factors.
    rewrite <- word_portions_read. unfold with_markers.
    cbn [app foldM test_token bind word_portion map].
    apply (query_keys sm c bp (map Str tokens ++ [END_OF_SENTENCE])
             START_OF_SENTENCE 1).
Qed.

Lemma tokens_cut_at_first_underscore_witness :
  train ["the dog_NOUN runs"%string] = train ["the dog runs"%string] /\
  unigram_count (train ["the dog_NOUN runs"%string]) (Str "dog") = 1%Z /\
  unigram_count (train ["the dog_NOUN runs"%string]) (Str "dog_noun") = 0%Z /\
  unigram_count (train ["the dog_NOUN runs"%string]) START_OF_SENTENCE = 1%Z /\
  bigram_count (train ["the dog_NOUN runs"%string]) (Str "dog") (Str "the") = 1%Z /\
  bigram_count (train ["the dog_NOUN runs"%string]) (Str "dog_noun") (Str "the")
  = 0%Z /\
  (forall smoothing_type c bigramProb,
     sentence_prob smoothing_type c bigramProb ["the"; "dog_verb"]%string
     = product_of_factors smoothing_type c bigramProb
         [(Str "the", START_OF_SENTENCE); (Str "dog", Str "the");
          (END_OF_SENTENCE, Str "dog")]) /\
  exists q,
    main none ["the dog_NOUN"; "the cat"]%string ["the dog_VERB"%string] = Ok q /\
    q == 1 # 2.
Proof.
  destruct tokens_cut_at_first_underscore
    as (_ & _ & _ & Hsame & _ & _ & Hu & Hb & Hq).
  split; [|split; [|split; [|split; [|split; [|split; [|split]]]]]].
  - apply (Hsame [["the"; "dog_noun"; "runs"]%string] [["the"; "dog"; "runs"]%string]).
    reflexivity.
  - exact (Hu [["the"; "dog_noun"; "runs"]%string] (Str "dog")).
  - exact (Hu [["the"; "dog_noun"; "runs"]%string] (Str "dog_noun")).
  - exact (Hu [["the"; "dog_noun"; "runs"]%string] START_OF_SENTENCE).
  - exact (Hb [["the"; "dog_noun"; "runs"]%string] (Str "dog") (Str "the")).
  - exact (Hb [["the"; "dog_noun"; "runs"]%string] (Str "dog_noun") (Str "the")).
  - intros sm c bp. exact (Hq sm c bp ["the"; "dog_verb"]%string).
  - unfold main. cbn [bind build index nth_error].
    destruct (prob_none (train ["the dog_NOUN"; "the cat"]%string)) as [bp|e] eqn:E;
      [|vm_compute in E; discriminate E].
    cbn [bind]. rewrite (Hq none _ bp). vm_compute in E. inversion E; subst bp.
    eexists. split; [vm_compute; reflexivity | vm_compute; reflexivity].
Defined.

(** ** The POS model and its decoder *)

(** Training only ever adds to the tag set of a word. *)
Lemma tags_never_shrink (m m' : Tagging.model) (prevTag tag token : string) :
  Tagging.train_token (m, prevTag) token = Ok (m', tag) ->
  forall w s, get w (Tagging.tags m) = Some s ->
              exists s', get w (Tagging.tags m') = Some s' /\ incl s s'.
Proof.
  unfold Tagging.train_token. intros E w s G.
  destruct (index (split_on "_" token) 0) as [word|]; [|discriminate].
  destruct (index (split_on "_" token) 1) as [t|]; [|discriminate].
  simpl in E. inversion E; subst; clear E. simpl.
  destruct (get word (Tagging.tags m)) as [s0|] eqn:G0; rewrite get_set;
    destruct (eq_dec w word) as [->|].
  - exists (Tagging.set_add tag s0). split; [reflexivity|].
    assert (s0 = s) by congruence. subst.
    unfold Tagging.set_add. destruct (in_dec string_dec tag s).
    + apply incl_refl.
    + apply incl_appl, incl_refl.
  - exists s. split; [exact G | apply incl_refl].
  - congruence.
  - exists s. split; [exact G | apply incl_refl].
Qed.

(** A step of the decoder from an empty table gives an empty table. *)
Lemma word_step_empty (m : Tagging.model) (bigramProb : dict Tagging.bkey Q)
  (n : nat) (most_common_tag : string) (prob : list Tagging.table)
  (v : option string) (iw : nat * string) :
  Tagging.last_table prob = [] ->
  exists prob' v',
    Tagging.word_step m bigramProb n most_common_tag (prob, v) iw = Ok (prob', v')
    /\ Tagging.last_table prob' = [].
Proof.
  intros E. destruct iw as [i w]. unfold Tagging.word_step. rewrite E.
  destruct (get w (Tagging.tags m)); simpl;
    eexists; eexists; (split; [reflexivity|]);
    unfold Tagging.last_table; apply last_last.
Qed.

Lemma word_steps_empty (m : Tagging.model) (bigramProb : dict Tagging.bkey Q)
  (n : nat) (most_common_tag : string) (l : list (nat * string)) :
  forall prob v,
    Tagging.last_table prob = [] ->
    exists prob' v',
      foldM (Tagging.word_step m bigramProb n most_common_tag) l (prob, v)
      = Ok (prob', v')
      /\ Tagging.last_table prob' = [].
Proof.
  induction l as [|iw r IH]; intros prob v E; cbn [foldM].
  - exists prob, v. auto.
  - destruct (word_step_empty m bigramProb n most_common_tag prob v iw E)
      as (p1 & v1 & E1 & L1).
    rewrite E1. cbn [bind]. now apply IH.
Qed.

(** At a word without tag set the decoder raises [TypeError], unless the
    table is empty already. *)
Lemma word_step_unseen (m : Tagging.model) (bigramProb : dict Tagging.bkey Q)
  (n : nat) (most_common_tag : string) (prob : list Tagging.table)
  (v : option string) (i : nat) (w : string) :
  get w (Tagging.tags m) = None ->
  Tagging.last_table prob <> [] ->
  Tagging.word_step m bigramProb n most_common_tag (prob, v) (i, w)
  = Raise TypeError.
Proof.
  intros G Hn. unfold Tagging.word_step. rewrite G.
  destruct (Tagging.last_table prob) as [|[[t pt] q] r]; [congruence|].
  reflexivity.
Qed.

Lemma word_steps_unseen (m : Tagging.model) (bigramProb : dict Tagging.bkey Q)
  (n : nat) (most_common_tag : string) (l : list (nat * string)) :
  (exists i w, In (i, w) l /\ get w (Tagging.tags m) = None) ->
  forall prob v,
    (exists e, foldM (Tagging.word_step m bigramProb n most_common_tag) l (prob, v)
               = Raise e)
    \/ (exists prob' v',
          foldM (Tagging.word_step m bigramProb n most_common_tag) l (prob, v)
          = Ok (prob', v')
          /\ Tagging.last_table prob' = []).
Proof.
  induction l as [|[i w] r IH]; intros (i0 & w0 & I & G) prob v.
  - destruct I.
  - cbn [foldM]. destruct I as [E|I].
    + inversion E; subst; clear E.
      destruct (Tagging.last_table prob) as [|x xs] eqn:L.
      * right. destruct (word_step_empty m bigramProb n most_common_tag prob v
                           (i0, w0) L) as (p1 & v1 & E1 & L1).
        rewrite E1. cbn [bind]. now apply word_steps_empty.
      * left. exists TypeError. rewrite word_step_unseen; [reflexivity|exact G|].
        rewrite L. discriminate.
    + destruct (Tagging.word_step m bigramProb n most_common_tag (prob, v) (i, w))
        as [[p1 v1]|e].
      * cbn [bind]. apply IH. eauto.
      * left. exists e. reflexivity.
Qed.

Lemma In_combine_seq (w : string) (words : list string) (a : nat) :
  In w words -> exists i, In (i, w) (combine (seq a (List.length words)) words).
Proof.
  revert a. induction words as [|x r IH]; intros a I; [destruct I|].
  simpl. destruct I as [->|I].
  - exists a. now left.
  - destruct (IH (S a) I) as (i & Ii). exists i. now right.
Qed.

(** Whatever the model, a test sentence with a word that has no tag set
    makes the decoder raise. *)
Lemma unseen_word_always_raises (m : Tagging.model)
  (bigramProb : dict Tagging.bkey Q) (words : list string) (w : string) :
  In w words -> get w (Tagging.tags m) = None ->
  exists e, Tagging.decode m bigramProb words = Raise e.
Proof.
  intros I G. unfold Tagging.decode. cbv zeta.
  destruct (max_by _ (keys (Tagging.unigramTagCount m))) as [mct|e];
    [|exists e; reflexivity].
  cbn [bind].
  destruct (In_combine_seq w words 0 I) as (i & Ii).
  destruct (word_steps_unseen m bigramProb (List.length words) mct
              (combine (seq 0 (List.length words)) words)
              (ex_intro _ i (ex_intro _ w (conj Ii G)))
              [[((Tagging.START_OF_SENTENCE, None), 1)]] (Tagging.last_word m))
    as [(e & E)|(p & v & E & L)].
  - exists e. now rewrite E.
  - exists ValueError. rewrite E. cbn [bind]. rewrite L. reflexivity.
Qed.

(** C1. Trained on the one sentence [The_DET dog_NOUN runs_VERB], the tag
    sets hold the letters of the tags, no emission is found for any of
    them, every table of the decoder stays empty and the final [max] over
    the last table raises [ValueError]: the test sentence [The dog runs]
    gets no output. *)
Theorem minimal_corpus_decode_raises :
  (exists m,
     Tagging.train ["The_DET dog_NOUN runs_VERB"%string] = Ok m /\
     Tagging.tags m
     = [("The", ["D"; "E"; "T"]); ("dog", ["N"; "O"; "U"]);
        ("runs", ["V"; "E"; "R"; "B"])]%string) /\
  Tagging.main ["The_DET dog_NOUN runs_VERB"%string] ["The dog runs"%string]
  = Raise ValueError.
Proof.
  split.
  - eexists. split; vm_compute; reflexivity.
  - vm_compute. reflexivity.
Qed.

(** With one-letter tags the same corpus decodes as expected. *)
Example one_letter_tags_decode :
  Tagging.main ["The_D dog_N runs_V"%string] ["The dog runs"%string]
  = Ok "The_D dog_N runs_V"%string.
Proof. vm_compute. reflexivity. Qed.

(** C2. After training on the one token [The_DET], the tag set of [The]
    is the set of the letters of [DET]: it lacks the observed tag [DET] and
    holds [D], which was not observed. *)
Theorem first_tag_is_split_into_letters :
  Tagging.observed_tags "The" ["The_DET"%string] = ["DET"%string] /\
  exists m,
    Tagging.train ["The_DET"%string] = Ok m /\
    get "The"%string (Tagging.tags m) = Some ["D"; "E"; "T"]%string /\
    ~ In "DET"%string ["D"; "E"; "T"]%string /\
    ~ In "D"%string (Tagging.observed_tags "The" ["The_DET"%string]).
Proof.
  split; [reflexivity|]. eexists. split; [vm_compute; reflexivity|].
  split; [reflexivity|]. split.
  - simpl. intros [E|[E|[E|[]]]]; discriminate.
  - simpl. intros [E|[]]. discriminate.
Qed.

(** C3. Trained on [a_N], the decoder meets the unseen word [b] with the
    initial table at hand and raises [TypeError], as it indexes the list of
    tables with a key of a table. *)
Theorem unseen_word_raises_type_error :
  (exists m,
     Tagging.train ["a_N"%string] = Ok m /\
     get "b"%string (Tagging.tags m) = None) /\
  Tagging.main ["a_N"%string] ["b"%string] = Raise TypeError.
Proof.
  split.
  - eexists. split; vm_compute; reflexivity.
  - vm_compute. reflexivity.
Qed.

(** ** The matrix Viterbi decoder *)

(** The scan of [l] after the prefix [pre] of the same vector. *)
Lemma argmax_from_spec (l pre : list Q) (best : nat) (bestv : Q) :
  (best < List.length pre)%nat ->
  bestv = nth best (pre ++ l) 0 ->
  (forall j, (j < List.length pre)%nat -> nth j (pre ++ l) 0 <= bestv) ->
  (forall j, (j < best)%nat -> nth j (pre ++ l) 0 < bestv) ->
  let r := Viterbi.argmax_from best bestv (List.length pre) l in
  (r < List.length (pre ++ l))%nat /\
  Viterbi.max_from bestv l = nth r (pre ++ l) 0 /\
  (forall j, (j < List.length (pre ++ l))%nat -> nth j (pre ++ l) 0 <= nth r (pre ++ l) 0) /\
  (forall j, (j < r)%nat -> nth j (pre ++ l) 0 < nth r (pre ++ l) 0).
Proof.
  revert pre best bestv. induction l as [|y l IH]; intros pre best bestv Hb Ev Hle Hlt.
  - simpl. rewrite app_nil_r in *. subst bestv. repeat split; auto.
  - cbn [Viterbi.argmax_from Viterbi.max_from].
    assert (Ey : nth (List.length pre) (pre ++ y :: l) 0 = y).
    { rewrite app_nth2 by lia. now rewrite Nat.sub_diag. }
    assert (Eapp : pre ++ y :: l = (pre ++ [y]) ++ l) by (now rewrite <- app_assoc).
    assert (El : List.length (pre ++ [y]) = S (List.length pre))
      by (rewrite length_app; simpl; lia).
    destruct (Qlt_le_dec bestv y) as [Hy|Hy].
    + specialize (IH (pre ++ [y]) (List.length pre) y).
      rewrite El, <- Eapp in IH. apply IH.
      * lia.
      * now rewrite Ey.
      * intros j Hj. destruct (Nat.eq_dec j (List.length pre)) as [->|].
        -- rewrite Ey. apply Qle_refl.
        -- apply Qle_trans with bestv; [apply Hle; lia | now apply Qlt_le_weak].
      * intros j Hj. apply Qle_lt_trans with bestv; [now apply Hle | exact Hy].
    + specialize (IH (pre ++ [y]) best bestv).
      rewrite El, <- Eapp in IH. apply IH.
      * lia.
      * exact Ev.
      * intros j Hj. destruct (Nat.eq_dec j (List.length pre)) as [->|].
        -- now rewrite Ey.
        -- apply Hle. lia.
      * exact Hlt.
Qed.

(** [np.max] and [np.argmax] on a non-empty vector. *)
Lemma vargmax_spec (l : list Q) :
  l <> [] ->
  Viterbi.np_max l = Ok (Viterbi.vmax l) /\
  Viterbi.np_argmax l = Ok (Viterbi.vargmax l) /\
  (Viterbi.vargmax l < List.length l)%nat /\
  Viterbi.vmax l = nth (Viterbi.vargmax l) l 0 /\
  (forall j, (j < List.length l)%nat -> nth j l 0 <= Viterbi.vmax l) /\
  (forall j, (j < Viterbi.vargmax l)%nat -> nth j l 0 < Viterbi.vmax l).
Proof.
  destruct l as [|x r]; [congruence|]. intros _.
  unfold Viterbi.vmax, Viterbi.vargmax. cbn [hd tl Viterbi.np_max Viterbi.np_argmax].
  destruct (argmax_from_spec r [x] 0 x) as (H1 & H2 & H3 & H4).
  - simpl. lia.
  - reflexivity.
  - intros j Hj. simpl in Hj. assert (j = 0)%nat by lia. subst. simpl. apply Qle_refl.
  - intros j Hj. lia.
  - cbn [List.length app] in *. repeat split; auto.
    + intros j Hj. rewrite H2. now apply H3.
    + intros j Hj. rewrite H2. now apply H4.
Qed.

Lemma mapM_pure (X Y : Type) (f : X -> result Y) (g : X -> Y) (l : list X) :
  (forall x, In x l -> f x = Ok (g x)) -> Viterbi.mapM f l = Ok (map g l).
Proof.
  induction l as [|x r IH]; intros E; simpl; [reflexivity|].
  rewrite E by now left. simpl. rewrite IH; [reflexivity|].
  intros y I. apply E. now right.
Qed.

Lemma mapM_length (X Y : Type) (f : X -> result Y) (l : list X) (l' : list Y) :
  Viterbi.mapM f l = Ok l' -> List.length l' = List.length l.
Proof.
  revert l'. induction l as [|x r IH]; intros l' E; simpl in E.
  - inversion E. reflexivity.
  - destruct (f x); [|discriminate]. simpl in E.
    destruct (Viterbi.mapM f r) eqn:E'; [|discriminate]. simpl in E.
    inversion E; subst. simpl. f_equal. now apply IH.
Qed.

Lemma vAB_rows (A B : Viterbi.matrix) (N : nat) (vprev : list Q) (ot : nat)
  (row : list Q) :
  In row (Viterbi.vAB A B N vprev ot) -> List.length row = N.
Proof.
  unfold Viterbi.vAB. intros I. apply in_map_iff in I.
  destruct I as (s & <- & _). now rewrite length_map, length_seq.
Qed.

Lemma vAB_length (A B : Viterbi.matrix) (N : nat) (vprev : list Q) (ot : nat) :
  List.length (Viterbi.vAB A B N vprev ot) = N.
Proof. unfold Viterbi.vAB. now rewrite length_map, length_seq. Qed.

(** With at least one state the loop body raises nothing. *)
Lemma step_pure (A B : Viterbi.matrix) (N : nat) (st : Viterbi.lattice) (ot : nat) :
  (0 < N)%nat -> Viterbi.step A B N st ot = Ok (Viterbi.pure_step A B N st ot).
Proof.
  intros HN. destruct st as [v bt]. unfold Viterbi.step, Viterbi.pure_step.
  cbn [fst snd]. set (m := Viterbi.vAB A B N (last v []) ot).
  assert (Hm : m <> []).
  { intros E. pose proof (vAB_length A B N (last v []) ot) as L.
    fold m in L. rewrite E in L. simpl in L. lia. }
  assert (Hrow : forall row, In row m -> row <> []).
  { intros row I E. apply vAB_rows in I. subst row. simpl in I. lia. }
  unfold Viterbi.max_rows, Viterbi.argmax_rows.
  destruct m as [|r0 rs] eqn:Em; [congruence|].
  rewrite (mapM_pure _ _ Viterbi.np_max Viterbi.vmax)
    by (intros row I; now apply vargmax_spec, Hrow).
  cbn [bind].
  rewrite (mapM_pure _ _ Viterbi.np_argmax Viterbi.vargmax)
    by (intros row I; now apply vargmax_spec, Hrow).
  reflexivity.
Qed.

Lemma fill_pure (A B : Viterbi.matrix) (N : nat) (os : list nat)
  (st : Viterbi.lattice) :
  (0 < N)%nat ->
  foldM (Viterbi.step A B N) os st = Ok (fold_left (Viterbi.pure_step A B N) os st).
Proof.
  intros HN. apply foldM_pure. intros acc x _. now apply step_pure.
Qed.

Lemma nth_last (X : Type) (l : list X) (d : X) :
  nth (List.length l - 1) l d = last l d.
Proof.
  induction l as [|x r IH]; [reflexivity|].
  destruct r as [|y r']; [reflexivity|].
  change (last (x :: y :: r') d) with (last (y :: r') d). rewrite <- IH.
  cbn [List.length]. rewrite !Nat.sub_succ, !Nat.sub_0_r. reflexivity.
Qed.

Lemma nth_map_seq (Y : Type) (f : nat -> Y) (N s : nat) (d : Y) :
  (s < N)%nat -> nth s (map f (seq 0 N)) d = f s.
Proof.
  intros Hs. rewrite nth_indep with (d' := f 0%nat)
    by (now rewrite length_map, length_seq).
  rewrite map_nth. now rewrite seq_nth.
Qed.

(** The columns the loop appends, one per remaining observation. *)
Lemma pure_fill_spec (A B : Viterbi.matrix) (N : nat) (os : list nat) :
  forall st : Viterbi.lattice,
    List.length (fst st) = List.length (snd st) -> fst st <> [] ->
    let st' := fold_left (Viterbi.pure_step A B N) os st in
    List.length (fst st') = (List.length (fst st) + List.length os)%nat /\
    List.length (snd st') = List.length (fst st') /\
    (forall t, (t < List.length (fst st))%nat ->
               nth t (fst st') [] = nth t (fst st) [] /\
               nth t (snd st') [] = nth t (snd st) []) /\
    (forall k, (k < List.length os)%nat ->
               let t := (List.length (fst st) + k)%nat in
               let m := Viterbi.vAB A B N (nth (t - 1) (fst st') []) (nth k os 0%nat) in
               nth t (fst st') [] = map Viterbi.vmax m /\
               nth t (snd st') [] = map Viterbi.vargmax m).
Proof.
  induction os as [|x r IH]; intros [v bt] L Hv; cbn [fst snd] in *.
  - cbn [fold_left fst snd List.length]. repeat split; auto; try lia.
  - cbn [fold_left].
    set (st1 := Viterbi.pure_step A B N (v, bt) x).
    assert (E1 : fst st1 = v ++ [map Viterbi.vmax (Viterbi.vAB A B N (last v []) x)])
      by reflexivity.
    assert (E2 : snd st1 = bt ++ [map Viterbi.vargmax (Viterbi.vAB A B N (last v []) x)])
      by reflexivity.
    assert (L1 : List.length (fst st1) = List.length (snd st1))
      by (rewrite E1, E2, !length_app; simpl; lia).
    assert (Hv1 : fst st1 <> []) by (rewrite E1; destruct v; discriminate).
    destruct (IH st1 L1 Hv1) as (La & Lb & Keep & New).
    assert (Lv1 : List.length (fst st1) = S (List.length v))
      by (rewrite E1, length_app; simpl; lia).
    assert (Hlen : (0 < List.length v)%nat) by (destruct v; [congruence | simpl; lia]).
    cbv zeta. split; [|split; [|split]].
    + rewrite La, Lv1. simpl. lia.
    + exact Lb.
    + intros t Ht. destruct (Keep t) as [K1 K2]; [lia|].
      rewrite K1, K2, E1, E2. rewrite !app_nth1 by lia. auto.
    + intros k Hk. destruct k as [|k'].
      * rewrite Nat.add_0_r. destruct (Keep (List.length v)) as [K1 K2]; [lia|].
        rewrite K1, K2, E1, E2. rewrite !app_nth2 by lia.
        replace (List.length v - List.length bt)%nat with 0%nat by lia.
        rewrite Nat.sub_diag. cbn [nth].
        destruct (Keep (List.length v - 1)%nat) as [K3 _]; [lia|].
        rewrite K3, E1, app_nth1 by lia. rewrite nth_last. auto.
      * specialize (New k'). cbv zeta in New. rewrite Lv1 in New.
        replace (List.length v + S k')%nat with (S (List.length v) + k')%nat by lia.
        cbn [nth]. apply New. simpl in Hk. lia.
Qed.

(** The entries of a column computed from the column before. *)
Lemma column_entries (A B : Viterbi.matrix) (N : nat) (vprev : list Q) (ot s : nat) :
  (0 < N)%nat -> (s < N)%nat ->
  let cand := fun s' => nth s' vprev 0 * Viterbi.at2 A (S s') s * Viterbi.at2 B s ot in
  let m := Viterbi.vAB A B N vprev ot in
  let b := nth s (map Viterbi.vargmax m) 0%nat in
  let x := nth s (map Viterbi.vmax m) 0 in
  (b < N)%nat /\ x = cand b /\
  (forall s', (s' < N)%nat -> cand s' <= x) /\
  (forall s', (s' < b)%nat -> cand s' < x).
Proof.
  intros HN Hs cand m b x.
  set (row := map cand (seq 0 N)).
  assert (Er : nth s m [] = row).
  { unfold m, Viterbi.vAB. now rewrite nth_map_seq. }
  assert (Lm : List.length m = N) by apply vAB_length.
  assert (Eb : b = Viterbi.vargmax row).
  { unfold b. rewrite nth_indep with (d' := Viterbi.vargmax [])
      by (now rewrite length_map, Lm).
    now rewrite map_nth, Er. }
  assert (Ex : x = Viterbi.vmax row).
  { unfold x. rewrite nth_indep with (d' := Viterbi.vmax [])
      by (now rewrite length_map, Lm).
    now rewrite map_nth, Er. }
  assert (Lr : List.length row = N) by (unfold row; now rewrite length_map, length_seq).
  assert (Hr : row <> []) by (intros E; rewrite E in Lr; simpl in Lr; lia).
  destruct (vargmax_spec row Hr) as (_ & _ & H1 & H2 & H3 & H4).
  rewrite Lr in *.
  assert (En : forall j, (j < N)%nat -> nth j row 0 = cand j)
    by (intros j Hj; unfold row; now rewrite nth_map_seq).
  rewrite Eb, Ex. repeat split.
  - exact H1.
  - rewrite H2. now apply En.
  - intros s' Hs'. rewrite <- En by exact Hs'. now apply H3.
  - intros s' Hs'. rewrite <- En by lia. now apply H4.
Qed.

Lemma string_app_assoc (a b c : string) :
  ((a ++ b) ++ c = a ++ b ++ c)%string.
Proof.
  induction a as [|x a IH]; simpl; [reflexivity | now rewrite IH].
Qed.

Lemma firstn_snoc (X : Type) (l : list X) (k : nat) (d : X) :
  (k < List.length l)%nat -> firstn (S k) l = firstn k l ++ [nth k l d].
Proof.
  revert k. induction l as [|x r IH]; intros k Hk; simpl in Hk; [lia|].
  destruct k as [|k']; [reflexivity|].
  cbn [firstn nth app]. f_equal. change (firstn (S k') r = firstn k' r ++ [nth k' r d]).
  apply IH. lia.
Qed.

Lemma combine_snoc (X Y : Type) (a : list X) (b : list Y) (x : X) (y : Y) :
  List.length a = List.length b ->
  combine (a ++ [x]) (b ++ [y]) = combine a b ++ [(x, y)].
Proof.
  revert b. induction a as [|p a IH]; intros [|q b] L; simpl in L; try lia.
  - reflexivity.
  - simpl. f_equal. apply IH. lia.
Qed.

Lemma index_nth (X : Type) (l : list X) (i : nat) (d : X) :
  (i < List.length l)%nat -> index l i = Ok (nth i l d).
Proof.
  intros Hi. unfold index. destruct (nth_error l i) as [x|] eqn:E.
  - now rewrite (nth_error_nth _ _ d E).
  - apply nth_error_None in E. lia.
Qed.

Lemma length_path_before (bt : list (list nat)) (t s : nat) :
  List.length (Viterbi.path_before bt t s) = t.
Proof.
  revert s. induction t as [|t IH]; intros s; [reflexivity|].
  cbn [Viterbi.path_before]. rewrite length_app, IH. simpl. lia.
Qed.

(** The path read off the back trace: the state at time [k - 1] is the
    back pointer of the state at time [k]. *)
Lemma path_before_chain (bt : list (list nat)) (t s : nat) :
  let path := Viterbi.path_before bt t s ++ [s] in
  List.length path = S t /\ nth t path 0%nat = s /\
  forall k, (1 <= k <= t)%nat ->
            nth (k - 1) path 0%nat = nth (nth k path 0%nat) (nth k bt []) 0%nat.
Proof.
  revert s. induction t as [|t IH]; intros s; cbv zeta.
  - simpl. repeat split; auto. intros k Hk. lia.
  - cbn [Viterbi.path_before].
    set (s' := nth s (nth (S t) bt []) 0%nat).
    destruct (IH s') as (L & E & C). cbv zeta in *.
    set (p' := Viterbi.path_before bt t s' ++ [s']) in *.
    split; [rewrite length_app, L; simpl; lia|]. split.
    + rewrite app_nth2 by lia. rewrite L, Nat.sub_diag. reflexivity.
    + intros k Hk. destruct (Nat.eq_dec k (S t)) as [->|Hn].
      * rewrite app_nth2 with (n := S t) by lia. rewrite L, Nat.sub_diag.
        cbn [nth]. rewrite app_nth1 by lia.
        replace (S t - 1)%nat with t by lia. exact E.
      * rewrite !app_nth1 by lia. apply C. lia.
Qed.

(** The loop that follows the back trace prepends to the line the words
    before time [k], each with the name of its state. *)
Lemma back_steps (words tags : list string) (bt : list (list nat)) (N K : nat) :
  List.length tags = N ->
  (forall t s, (1 <= t <= K)%nat -> (s < N)%nat ->
               List.length (nth t bt []) = N /\ (nth s (nth t bt []) 0 < N)%nat) ->
  forall k tag L,
    (k <= K)%nat -> (k < List.length words)%nat -> (tag < N)%nat -> L <> [] ->
    exists s0,
      foldM (Viterbi.back_step words tags bt) (rev (seq 1 k))
        (tag, String.concat " " L)
      = Ok (s0, String.concat " "
                  (map (Viterbi.item tags)
                     (combine (firstn k words) (Viterbi.path_before bt k tag)) ++ L)).
Proof.
  intros Lt Hbt. induction k as [|k IH]; intros tag L HK Hw Htag HL.
  - exists tag. reflexivity.
  - rewrite seq_S, rev_app_distr. cbn [rev app foldM Nat.add].
    destruct (Hbt (S k) tag) as [Lc Hs']; [lia | exact Htag |].
    set (s' := nth tag (nth (S k) bt []) 0%nat) in *.
    assert (Eo : ((nth k words "" ++ "_" ++ nth s' tags "" ++ " " ++ String.concat " " L)
                  = String.concat " " (Viterbi.item tags (nth k words "", s') :: L))%string).
    { destruct L as [|y l]; [congruence|]. unfold Viterbi.item. cbn [String.concat fst snd].
      now rewrite !string_app_assoc. }
    assert (Es : Viterbi.back_step words tags bt (tag, String.concat " " L) (S k)
                 = Ok (s', String.concat " "
                             (Viterbi.item tags (nth k words ""%string, s') :: L))).
    { unfold Viterbi.back_step.
      rewrite (index_nth _ (nth (S k) bt []) tag 0%nat) by lia. cbn [bind]. fold s'.
      replace (S k - 1)%nat with k by lia.
      rewrite (index_nth _ words k ""%string) by lia. cbn [bind].
      rewrite (index_nth _ tags s' ""%string) by lia. cbn [bind].
      now rewrite Eo. }
    destruct (IH s' (Viterbi.item tags (nth k words ""%string, s') :: L))
      as (s0 & E); [lia | lia | exact Hs' | discriminate |].
    exists s0. rewrite Es. cbn [bind]. rewrite E. f_equal. f_equal. f_equal.
    cbn [Viterbi.path_before]. fold s'.
    rewrite (firstn_snoc _ words k ""%string) by lia.
    rewrite combine_snoc
      by (rewrite length_path_before, length_firstn; lia).
    rewrite map_app, <- app_assoc. reflexivity.
Qed.

Lemma list_index_in (w : string) (observations : list string) :
  In w observations -> exists i, Viterbi.list_index w observations = Ok i.
Proof.
  induction observations as [|x r IH]; intros I; [destruct I|].
  simpl. destruct (string_dec x w); [eauto|].
  destruct I as [E|I]; [congruence|]. destruct (IH I) as (i & ->). simpl. eauto.
Qed.

Lemma mapM_exists (X Y : Type) (f : X -> result Y) (l : list X) :
  (forall x, In x l -> exists y, f x = Ok y) -> exists l', Viterbi.mapM f l = Ok l'.
Proof.
  induction l as [|x r IH]; intros E; [simpl; eauto|].
  destruct (E x (or_introl eq_refl)) as (y & Ey).
  destruct IH as (l' & El); [intros z I; apply E; now right|].
  exists (y :: l'). simpl. now rewrite Ey, El.
Qed.

Lemma mapM_nth (X Y : Type) (f : X -> result Y) (l : list X) (l' : list Y)
  (dx : X) (dy : Y) :
  Viterbi.mapM f l = Ok l' ->
  forall t, (t < List.length l)%nat -> f (nth t l dx) = Ok (nth t l' dy).
Proof.
  revert l'. induction l as [|x r IH]; intros l' E t Ht; simpl in Ht; [lia|].
  simpl in E. destruct (f x) as [y|] eqn:Ey; [|discriminate]. simpl in E.
  destruct (Viterbi.mapM f r) as [ys|] eqn:Er; [|discriminate]. simpl in E.
  inversion E; subst. destruct t as [|t']; [exact Ey|].
  cbn [nth]. apply IH; [reflexivity | lia].
Qed.

(** The lattice the decoder fills for an observation sequence. *)
Lemma lattice_spec (A B : Viterbi.matrix) (N : nat) (o : list nat) :
  (0 < N)%nat -> (0 < List.length o)%nat ->
  exists lat,
    Viterbi.fill A B N o = Ok lat /\
    List.length (fst lat) = List.length o /\
    (forall t, (t < List.length o)%nat -> List.length (nth t (fst lat) []) = N) /\
    (forall s, (s < N)%nat ->
               Viterbi.v_at lat s 0
               = Viterbi.at2 A 0 s * Viterbi.at2 B s (nth 0%nat o 0%nat)) /\
    (forall t s, (1 <= t < List.length o)%nat -> (s < N)%nat ->
       List.length (nth t (snd lat) []) = N /\
       (Viterbi.bt_at lat s t < N)%nat /\
       Viterbi.v_at lat s t = Viterbi.candidate A B lat o s t (Viterbi.bt_at lat s t) /\
       (forall s', (s' < N)%nat ->
                   Viterbi.candidate A B lat o s t s' <= Viterbi.v_at lat s t) /\
       (forall s', (s' < Viterbi.bt_at lat s t)%nat ->
                   Viterbi.candidate A B lat o s t s' < Viterbi.v_at lat s t)).
Proof.
  intros HN HT.
  set (init := ([Viterbi.init_column A B N (nth 0%nat o 0%nat)], [repeat 0%nat N])
               : Viterbi.lattice).
  exists (fold_left (Viterbi.pure_step A B N) (tl o) init).
  destruct (pure_fill_spec A B N (tl o) init) as (La & Lb & Keep & New);
    [reflexivity | discriminate |].
  cbv zeta in *. set (lat := fold_left (Viterbi.pure_step A B N) (tl o) init) in *.
  assert (Ltl : List.length (tl o) = (List.length o - 1)%nat)
    by (destruct o; simpl in *; lia).
  assert (E0 : nth 0%nat (fst lat) [] = Viterbi.init_column A B N (nth 0%nat o 0%nat)).
  { destruct (Keep 0%nat) as [K _]; [simpl; lia | exact K]. }
  assert (Ecol : forall t, (1 <= t < List.length o)%nat ->
            let m := Viterbi.vAB A B N (nth (t - 1) (fst lat) []) (nth t o 0%nat) in
            nth t (fst lat) [] = map Viterbi.vmax m /\
            nth t (snd lat) [] = map Viterbi.vargmax m).
  { intros t Ht. specialize (New (t - 1)%nat). cbv zeta in New.
    replace (List.length (fst init) + (t - 1))%nat with t in New by (simpl; lia).
    replace (nth (t - 1) (tl o) 0%nat) with (nth t o 0%nat) in New.
    - apply New. lia.
    - destruct o as [|x r]; [simpl in HT; lia|]. destruct t; [lia|].
      simpl. now rewrite Nat.sub_0_r. }
  split; [|split; [|split; [|split]]].
  - unfold Viterbi.fill. rewrite (index_nth _ o 0%nat 0%nat) by lia. cbn [bind].
    now apply fill_pure.
  - rewrite La. simpl. lia.
  - intros t Ht. destruct t as [|t].
    + rewrite E0. unfold Viterbi.init_column. now rewrite length_map, length_seq.
    + destruct (Ecol (S t)) as [E _]; [lia|]. rewrite E.
      now rewrite length_map, vAB_length.
  - intros s Hs. unfold Viterbi.v_at. rewrite E0. unfold Viterbi.init_column.
    now rewrite nth_map_seq.
  - intros t s Ht Hs. destruct (Ecol t Ht) as [Ev Eb]. cbv zeta in Ev, Eb.
    destruct (column_entries A B N (nth (t - 1) (fst lat) []) (nth t o 0%nat) s HN Hs)
      as (H1 & H2 & H3 & H4).
    cbv zeta in *. unfold Viterbi.bt_at, Viterbi.v_at, Viterbi.candidate.
    rewrite Ev, Eb. unfold Viterbi.v_at. split; [|split; [|split; [|split]]].
    + now rewrite length_map, vAB_length.
    + exact H1.
    + exact H2.
    + exact H3.
    + exact H4.
Qed.

(** C9. For a transition matrix of shape [(N+1, N)], an emission matrix
    of shape [(N, M)], [N >= 1] states and a test sentence of [T >= 1] words
    of the observation vocabulary, the decoder maps every word to its index
    [o[t]], fills [v[s][0] = A[0][s] * B[s][o[0]]] and, for [1 <= t < T],
    [v[s][t]] as the largest [v[s'][t-1] * A[s'+1][s] * B[s][o[t]]] over the
    states [s'], with [bt[s][t]] the first state [s'] that attains it;
    it prints as probability the largest [v[s][T-1]] and as tags the [T]
    states of the back trace from its first argmax, each next to its word. *)
Theorem viterbi_decoder_follows_recurrence (A B : Viterbi.matrix)
  (tags observations : list string) (sentence : string) (more : list string) :
  let words := split sentence in
  let N := List.length tags in
  let T := List.length words in
  Viterbi.shape A (S N) N ->
  Viterbi.shape B N (List.length observations) ->
  (0 < N)%nat -> (0 < T)%nat ->
  (forall w, In w words -> In w observations) ->
  exists o lat best score out,
    List.length o = T /\
    (forall t, (t < T)%nat ->
               Viterbi.list_index (nth t words ""%string) observations
               = Ok (nth t o 0%nat)) /\
    Viterbi.fill A B N o = Ok lat /\
    Viterbi.main A B tags observations (sentence :: more) = Ok (score, out) /\
    (forall s, (s < N)%nat ->
               Viterbi.v_at lat s 0
               = Viterbi.at2 A 0 s * Viterbi.at2 B s (nth 0%nat o 0%nat)) /\
    (forall t s, (1 <= t < T)%nat -> (s < N)%nat ->
       (Viterbi.bt_at lat s t < N)%nat /\
       Viterbi.v_at lat s t = Viterbi.candidate A B lat o s t (Viterbi.bt_at lat s t) /\
       (forall s', (s' < N)%nat ->
                   Viterbi.candidate A B lat o s t s' <= Viterbi.v_at lat s t) /\
       (forall s', (s' < Viterbi.bt_at lat s t)%nat ->
                   Viterbi.candidate A B lat o s t s' < Viterbi.v_at lat s t)) /\
    (best < N)%nat /\
    score = Viterbi.v_at lat best (T - 1) /\
    (forall s, (s < N)%nat -> Viterbi.v_at lat s (T - 1) <= score) /\
    (forall s, (s < best)%nat -> Viterbi.v_at lat s (T - 1) < score) /\
    (let path := Viterbi.path_before (snd lat) (T - 1) best ++ [best] in
     List.length path = T /\
     nth (T - 1) path 0%nat = best /\
     (forall t, (1 <= t < T)%nat ->
                nth (t - 1) path 0%nat = Viterbi.bt_at lat (nth t path 0%nat) t) /\
     out = Viterbi.render tags words path).
Proof.
  intros words N T _ _ HN HT Hin.
  destruct (mapM_exists _ _ (fun obs => Viterbi.list_index obs observations) words)
    as (o & Eo); [intros w I; now apply list_index_in, Hin|].
  pose proof (mapM_length _ _ _ _ _ Eo) as Lo. fold T in Lo.
  destruct (lattice_spec A B N o HN) as (lat & Ef & Lv & Lcol & Hinit & Hrec); [lia|].
  rewrite Lo in *.
  set (c := nth (T - 1) (fst lat) []).
  assert (Lc : List.length c = N) by (apply Lcol; lia).
  assert (Hc : c <> []) by (intros E; rewrite E in Lc; simpl in Lc; lia).
  destruct (vargmax_spec c Hc) as (Emax & Earg & H1 & H2 & H3 & H4).
  rewrite Lc in *.
  set (best := Viterbi.vargmax c) in *.
  set (last_word := nth (T - 1) words ""%string).
  destruct (back_steps words tags (snd lat) N (T - 1) eq_refl) with
    (k := (T - 1)%nat) (tag := best) (L := [Viterbi.item tags (last_word, best)])
    as (s0 & Eback).
  { intros t s Ht Hs. destruct (Hrec t s) as (Hl & Hb & _); [lia | exact Hs |].
    split; [exact Hl | exact Hb]. }
  { lia. } { fold T. lia. } { exact H1. } { discriminate. }
  exists o, lat, best, (Viterbi.vmax c).
  exists (String.concat " "
            (map (Viterbi.item tags)
               (combine (firstn (T - 1) words)
                  (Viterbi.path_before (snd lat) (T - 1) best))
             ++ [Viterbi.item tags (last_word, best)])).
  split; [exact Lo|]. split.
  { intros t Ht.
    exact (mapM_nth _ _ (fun obs => Viterbi.list_index obs observations)
             words o ""%string 0%nat Eo t Ht). }
  split; [exact Ef|]. split.
  { unfold Viterbi.main. cbn [index nth_error bind]. fold words. rewrite Eo.
    cbn [bind]. fold N. rewrite Ef. cbn [bind]. rewrite Lo.
    destruct lat as [v bt]. cbn [fst snd] in *. fold c.
    rewrite Emax, Earg. cbn [bind]. fold best. fold T.
    rewrite (index_nth _ words (T - 1)%nat ""%string) by lia. cbn [bind].
    rewrite (index_nth _ tags best ""%string) by (fold N; lia). cbn [bind].
    fold last_word.
    change ((last_word ++ "_" ++ nth best tags "")%string)
      with (String.concat " " [Viterbi.item tags (last_word, best)]).
    rewrite Eback. cbn [bind snd]. reflexivity. }
  split; [exact Hinit|]. split.
  { intros t s Ht Hs. destruct (Hrec t s Ht Hs) as (_ & R). exact R. }
  split; [exact H1|]. split; [exact H2|]. split; [exact H3|]. split; [exact H4|].
  destruct (path_before_chain (snd lat) (T - 1) best) as (Lp & Ep & Cp).
  cbv zeta in *. split; [rewrite Lp; lia|]. split; [exact Ep|]. split.
  { intros t Ht. unfold Viterbi.bt_at. apply Cp. lia. }
  unfold Viterbi.render. f_equal.
  assert (Ew : words = firstn (T - 1) words ++ [last_word]).
  { unfold last_word. rewrite <- firstn_snoc by (fold T; lia).
    replace (S (T - 1)) with T by lia. unfold T. now rewrite firstn_all. }
  rewrite Ew at 2.
  rewrite combine_snoc by (rewrite length_path_before, length_firstn; fold T; lia).
  now rewrite map_app.
Qed.

Lemma viterbi_decoder_follows_recurrence_witness :
  exists score out,
    Viterbi.main toy_A toy_B toy_tags toy_observations ["x y"%string]
    = Ok (score, out).
Proof.
  destruct (viterbi_decoder_follows_recurrence toy_A toy_B toy_tags
              toy_observations "x y"%string [])
    as (o & lat & best & score & out & _ & _ & _ & E & _).
  - split; [reflexivity | repeat constructor].
  - split; [reflexivity | repeat constructor].
  - simpl. lia.
  - simpl. lia.
  - simpl. intros w [<-|[<-|[]]]; simpl; tauto.
  - exists score, out. exact E.
Defined.

(** On the toy HMM the sentence [x y] is tagged [A B] with probability
    [0.6 * 0.9 * 0.3 * 0.8]. *)
Example toy_viterbi :
  Viterbi.main toy_A toy_B toy_tags toy_observations ["x y"%string]
  = Ok ((0.6 * 0.9 * 0.3 * 0.8)%Q, "x_A y_B"%string).
Proof. vm_compute. reflexivity. Qed.

(** ** Further properties of the bigram model *)

Lemma filter_all (X : Type) (l : list X) : filter (fun _ => true) l = l.
Proof. induction l as [|x r IH]; simpl; [reflexivity | now rewrite IH]. Qed.

Lemma Zsum_values_count_where (K : Type) (d : dict K Z) :
  Zsum (values d) = count_where (fun _ => true) d.
Proof. unfold count_where, values. now rewrite filter_all. Qed.

Lemma Zsum_values_incr (K : Type) `{EqDec K} (k : K) (d : dict K Z) :
  Zsum (values (incr k d)) = (Zsum (values d) + 1)%Z.
Proof. rewrite !Zsum_values_count_where. now rewrite count_where_incr. Qed.

(** The totals after the tokens [l], from a state inside a sentence. *)
Lemma totals_inside (l : list symbol) :
  forall c q,
    let st := fold_left count_token l (c, Some q) in
    snd st <> None /\
    Zsum (values (unigramCount (fst st)))
    = (Zsum (values (unigramCount c)) + Z.of_nat (List.length l))%Z /\
    Zsum (values (bigramCount (fst st)))
    = (Zsum (values (bigramCount c)) + Z.of_nat (List.length l))%Z.
Proof.
  induction l as [|t r IH]; intros c q; cbv zeta.
  - cbn [fold_left fst snd List.length]. repeat split; try discriminate; lia.
  - cbn [fold_left count_token].
    destruct (IH (Counts (incr (word_portion t) (unigramCount c))
                    (incr (word_portion t, q) (bigramCount c)))
                (word_portion t)) as (Hn & Hu & Hb).
    cbv zeta in *. cbn [unigramCount bigramCount] in *.
    rewrite Zsum_values_incr in Hu, Hb.
    split; [exact Hn|]. rewrite Hu, Hb. cbn [List.length]. split; lia.
Qed.

Lemma totals_sentence (c : counts) (tokens : list string) :
  Zsum (values (unigramCount (count_sentence c tokens)))
  = (Zsum (values (unigramCount c)) + Z.of_nat (List.length tokens + 2))%Z /\
  Zsum (values (bigramCount (count_sentence c tokens)))
  = (Zsum (values (bigramCount c)) + Z.of_nat (List.length tokens + 1))%Z.
Proof.
  unfold count_sentence, with_markers.
  change ([START_OF_SENTENCE] ++ map Str tokens ++ [END_OF_SENTENCE])
    with (START_OF_SENTENCE :: (map Str tokens ++ [END_OF_SENTENCE])).
  cbn [fold_left count_token word_portion].
  destruct (totals_inside (map Str tokens ++ [END_OF_SENTENCE])
              (Counts (incr START_OF_SENTENCE (unigramCount c)) (bigramCount c))
              START_OF_SENTENCE) as (_ & Hu & Hb).
  cbv zeta in *. cbn [unigramCount bigramCount] in *.
  rewrite Zsum_values_incr in Hu.
  rewrite length_app, length_map in Hu, Hb. cbn [List.length] in Hu, Hb.
  rewrite Hu, Hb. split; lia.
Qed.

Lemma totals_corpus (corpus : list (list string)) :
  forall c,
    Zsum (values (unigramCount (fold_left count_sentence corpus c)))
    = (Zsum (values (unigramCount c))
       + Z.of_nat (List.length (List.concat corpus) + 2 * List.length corpus))%Z /\
    Zsum (values (bigramCount (fold_left count_sentence corpus c)))
    = (Zsum (values (bigramCount c))
       + Z.of_nat (List.length (List.concat corpus) + List.length corpus))%Z.
Proof.
  induction corpus as [|s r IH]; intros c.
  - cbn [fold_left List.concat List.length]. split; lia.
  - cbn [fold_left List.concat List.length].
    destruct (IH (count_sentence c s)) as (Hu & Hb).
    destruct (totals_sentence c s) as (Su & Sb).
    rewrite Hu, Hb, Su, Sb, length_app. split; lia.
Qed.

Lemma train_totals (lines : list string) :
  Zsum (values (unigramCount (train lines)))
  = Z.of_nat (token_count lines + 2 * List.length lines) /\
  total_bigrams (train lines)
  = Z.of_nat (token_count lines + List.length lines).
Proof.
  unfold train, count_corpus, total_bigrams, token_count.
  destruct (totals_corpus (map tokenize lines) (Counts [] [])) as (Hu & Hb).
  rewrite Hu, Hb. cbn [unigramCount bigramCount values map Zsum fold_right].
  rewrite length_map, flat_map_concat_map. split; lia.
Qed.

(** X5. Training counts every token once and every sentence marker once
    per line: the unigram counts add up to the number of tokens plus two
    per line, and the bigram counts, the [N] of Good-Turing, to the number
    of tokens plus one per line. *)
Theorem count_totals (lines : list string) :
  Zsum (values (unigramCount (train lines)))
  = Z.of_nat (token_count lines + 2 * List.length lines) /\
  total_bigrams (train lines)
  = Z.of_nat (token_count lines + List.length lines).
Proof. exact (train_totals lines). Qed.

Lemma set_fresh (K V : Type) `{EqDec K} (k : K) (v : V) (d : dict K V) :
  ~ In k (keys d) -> set k v d = d ++ [(k, v)].
Proof.
  induction d as [|[k0 v0] r IH]; intros Hn; simpl; [reflexivity|].
  destruct (eq_dec k k0) as [->|]; [exfalso; apply Hn; now left|].
  rewrite IH; [reflexivity|]. intros I. apply Hn. now right.
Qed.

(** Storing under distinct fresh keys appends the entries in order. *)
Lemma fold_set_fresh (K V : Type) `{EqDec K} (f : K -> V) (l : list K) :
  forall acc : dict K V,
    NoDup (keys acc ++ l) ->
    fold_left (fun a k => set k (f k) a) l acc = acc ++ map (fun k => (k, f k)) l.
Proof.
  induction l as [|k r IH]; intros acc ND; simpl.
  - now rewrite app_nil_r.
  - rewrite set_fresh.
    + rewrite IH.
      * now rewrite <- app_assoc.
      * unfold keys in *. rewrite map_app. simpl. now rewrite <- app_assoc.
    + apply NoDup_remove_2 in ND. intros I. apply ND. apply in_or_app. now left.
Qed.

Lemma Zsum_values_by_key (K : Type) `{EqDec K} (d : dict K Z) :
  NoDup (keys d) ->
  Zsum (map (fun k => match get k d with Some n => n | None => 0%Z end) (keys d))
  = Zsum (values d).
Proof.
  intros ND.
  assert (G : forall d' : dict K Z,
             (forall k n, In (k, n) d' -> get k d = Some n) ->
             Zsum (map (fun k => match get k d with Some n => n | None => 0%Z end)
                     (keys d')) = Zsum (values d')).
  { induction d' as [|[k n] r IH]; intros Hd; simpl; [reflexivity|].
    rewrite (Hd k n) by now left. f_equal. apply IH.
    intros k' n' I. apply Hd. now right. }
  apply G. intros k n I. now apply In_get.
Qed.

(** X6. The unigram probabilities are computed without error for every
    corpus, one per symbol of the vocabulary, each the count of the symbol
    over the total count; for a corpus of at least one line they add up
    to one. *)
Theorem unigram_probabilities_sum_to_one (lines : list string) :
  exists unigramProb,
    unigram_probabilities (train lines) = Ok unigramProb /\
    keys unigramProb = keys (unigramCount (train lines)) /\
    (forall t n,
       get t (unigramCount (train lines)) = Some n ->
       get t unigramProb
       = Some (inject_Z n
               / inject_Z (Zsum (values (unigramCount (train lines)))))) /\
    (lines <> [] -> Qsum (values unigramProb) == 1).
Proof.
  set (c := train lines).
  pose proof (closed_sentence_corpus (map tokenize lines)) as C.
  fold (train lines) in C. fold c in C.
  destruct C as (W & _). destruct W as (Nu & _ & Pu & _).
  set (total := Zsum (values (unigramCount c))).
  set (f := fun k : symbol =>
              inject_Z (match get k (unigramCount c) with
                        | Some n => n | None => 0%Z end) / inject_Z total).
  assert (Hpos : forall k n, In (k, n) (unigramCount c) -> (0 < total)%Z).
  { intros k n I. pose proof (Pu k n I).
    assert (n <= total)%Z; [|lia].
    unfold total. rewrite Zsum_values_count_where.
    now apply count_where_ge with (k := k). }
  assert (E : unigram_probabilities c
              = Ok (fold_left (fun a k => set k (f k) a) (keys (unigramCount c)) [])).
  { unfold unigram_probabilities. cbv zeta. fold total.
    apply (foldM_store symbol symbol Q (fun k => k)
             (fun k => n <- getitem k (unigramCount c) ;;
                       truediv (inject_Z n) (inject_Z total)) f).
    - intros acc k. unfold unigram_entry.
      destruct (getitem k (unigramCount c)); simpl; [|reflexivity].
      destruct (truediv _ _); reflexivity.
    - intros k I. unfold getitem, f.
      destruct (get k (unigramCount c)) as [n|] eqn:G.
      + simpl. apply truediv_ok. apply (Hpos k n). now apply get_In.
      + apply get_None_keys in G. contradiction. }
  rewrite fold_set_fresh in E by exact Nu. simpl app in E.
  eexists. split; [exact E|]. split; [|split].
  - unfold keys. rewrite map_map. simpl. now rewrite map_id.
  - intros t n G. apply In_get.
    + unfold keys. rewrite map_map. simpl. now rewrite map_id.
    + apply in_map_iff. exists t. split.
      * unfold f. now rewrite G.
      * now apply get_Some_keys in G.
  - intros Hl. unfold values. rewrite map_map. simpl.
    unfold f. rewrite Qsum_scaled, Zsum_values_by_key by exact Nu. fold total.
    assert (Ht : (0 < total)%Z).
    { destruct (train_totals lines) as (Hu & _). fold c in Hu. fold total in Hu.
      destruct lines; [congruence|]. rewrite Hu. simpl List.length. lia. }
    unfold Qdiv. apply Qmult_inv_r. unfold Qeq. simpl. lia.
Qed.

Lemma unigram_probabilities_sum_to_one_witness :
  exists unigramProb,
    unigram_probabilities (train ["a b"%string; "a"%string]) = Ok unigramProb /\
    Qsum (values unigramProb) == 1.
Proof.
  destruct (unigram_probabilities_sum_to_one ["a b"%string; "a"%string])
    as (up & E & _ & _ & S).
  exists up. split; [exact E|]. apply S. discriminate.
Defined.

(** *** The sentence query *)

Lemma foldM_app (S A : Type) (body : S -> A -> result S) (l1 l2 : list A) (s : S) :
  foldM body (l1 ++ l2) s = bind (foldM body l1 s) (foldM body l2).
Proof.
  revert s. induction l1 as [|x r IH]; intros s; simpl; [reflexivity|].
  destruct (body s x); simpl; [apply IH | reflexivity].
Qed.

(** The table without smoothing, entry by entry. *)
Lemma prob_none_full (c : counts) :
  closed_sentence c ->
  exists bigramProb,
    prob_none c = Ok bigramProb /\
    get unseen bigramProb = Some 0 /\
    forall s q,
      get (seen s q) bigramProb
      = if in_dec eq_dec (s, q) (keys (bigramCount c))
        then Some (none_value c (s, q)) else None.
Proof.
  intros C. unfold prob_none.
  rewrite (foldM_store (symbol * symbol) pkey Q (fun k => seen (fst k) (snd k))
             (fun k => bCount <- getitem k (bigramCount c) ;;
                       uCount <- getitem (snd k) (unigramCount c) ;;
                       truediv (inject_Z bCount) (inject_Z uCount))
             (none_value c)).
  - eexists. split; [reflexivity|]. split.
    + rewrite get_set. destruct (eq_dec unseen unseen); congruence.
    + intros s q. rewrite get_set.
      destruct (eq_dec (seen s q) unseen); [discriminate|].
      apply first_pass_get.
  - intros acc [s q]. unfold none_entry, getitem. simpl.
    destruct (get (s, q) (bigramCount c)); simpl; [|reflexivity].
    destruct (get q (unigramCount c)); simpl; [|reflexivity].
    destruct (truediv _ _); reflexivity.
  - intros [s q] I.
    destruct (observed_bigram c s q C I) as (n & u & E & Eu & Hn & Hu & _).
    unfold getitem, none_value, unigram_count. simpl. rewrite E, Eu. simpl.
    apply truediv_ok. lia.
Qed.

(** With a blank entry in the table, the query loop of every smoothing
    type but add-one-fast raises nothing. *)
Lemma query_total (smoothing_type : smoothing) (c : counts)
  (bigramProb : dict pkey Q) (u : Q) (l : list symbol) :
  smoothing_type <> add_one_fast ->
  get unseen bigramProb = Some u ->
  forall q pr,
    exists pr',
      foldM (test_token smoothing_type c bigramProb) l (q, pr)
      = Ok (prev_after l q, pr').
Proof.
  intros Hs Hu. induction l as [|t r IH]; intros q pr.
  - exists pr. reflexivity.
  - cbn [foldM prev_after fold_left].
    assert (E : exists pr1,
               test_token smoothing_type c bigramProb (q, pr) t
               = Ok (Some (word_portion t), pr1)).
    { unfold test_token. destruct q as [p|].
      - unfold factor.
        destruct (get (seen (word_portion t) p) bigramProb) as [v|].
        + cbn [bind]. eexists. reflexivity.
        + unfold getitem. rewrite Hu.
          destruct smoothing_type; try congruence; cbn [bind];
            eexists; reflexivity.
      - cbn [bind]. eexists. reflexivity. }
    destruct E as (pr1 & E). rewrite E. cbn [bind].
    destruct (IH (Some (word_portion t)) pr1) as (pr' & E').
    exists pr'. exact E'.
Qed.

Lemma query_stays_zero (smoothing_type : smoothing) (c : counts)
  (bigramProb : dict pkey Q) (l : list symbol) :
  forall q pr q' pr',
    pr == 0 ->
    foldM (test_token smoothing_type c bigramProb) l (q, pr) = Ok (q', pr') ->
    pr' == 0.
Proof.
  induction l as [|t r IH]; intros q pr q' pr' Z E.
  - simpl in E. inversion E; subst. exact Z.
  - cbn [foldM] in E.
    destruct (test_token smoothing_type c bigramProb (q, pr) t) as [[q1 pr1]|e] eqn:E1;
      [|discriminate].
    cbn [bind] in E. apply (IH q1 pr1 q' pr'); [|exact E].
    unfold test_token in E1. destruct q as [p|].
    + destruct (factor smoothing_type c bigramProb (word_portion t) p) as [f|];
        [|discriminate].
      simpl in E1. inversion E1; subst. rewrite Z. apply Qmult_0_l.
    + simpl in E1. inversion E1; subst. exact Z.
Qed.

Lemma prev_after_snoc (l : list symbol) (t : symbol) (q : option symbol) :
  prev_after (l ++ [t]) q = Some (word_portion t).
Proof. unfold prev_after. now rewrite fold_left_app. Qed.

(** X7. Without smoothing the query raises nothing: for every training
    corpus and every test file with a first line a probability is
    printed. *)
Theorem none_query_never_raises (training : list string) (sentence : string)
  (more : list string) :
  exists q, main none training (sentence :: more) = Ok q.
Proof.
  pose proof (closed_sentence_corpus (map tokenize training)) as C.
  fold (train training) in C.
  destruct (prob_none_full (train training) C) as (bp & E & Hu & _).
  unfold main, build. rewrite E. cbn [bind index nth_error].
  unfold sentence_prob.
  destruct (query_total none (train training) bp 0 (with_markers (tokenize sentence)))
    with (q := @None symbol) (pr := 1) as (pr' & E'); [discriminate | exact Hu |].
  rewrite E'. cbn [bind snd]. eauto.
Qed.

(** X8. Without smoothing, a test sentence in which some symbol follows a
    symbol it never followed in training, the sentence markers included,
    gets a probability equal to zero. *)
Theorem none_unseen_bigram_gives_zero (training : list string) (sentence : string)
  (more : list string) (l1 l2 : list symbol) (a b : symbol) :
  with_markers (tokenize sentence) = l1 ++ a :: b :: l2 ->
  get (word_portion b, word_portion a) (bigramCount (train training)) = None ->
  exists q, main none training (sentence :: more) = Ok q /\ q == 0.
Proof.
  intros Es Hn.
  pose proof (closed_sentence_corpus (map tokenize training)) as C.
  fold (train training) in C.
  destruct (prob_none_full (train training) C) as (bp & E & Hu & Hbp).
  unfold main, build. rewrite E. cbn [bind index nth_error].
  unfold sentence_prob. rewrite Es.
  replace (l1 ++ a :: b :: l2) with ((l1 ++ [a]) ++ b :: l2)
    by (now rewrite <- app_assoc).
  rewrite foldM_app.
  destruct (query_total none (train training) bp 0 (l1 ++ [a]))
    with (q := @None symbol) (pr := 1) as (pr1 & E1); [discriminate | exact Hu |].
  rewrite E1, prev_after_snoc. cbn [bind foldM].
  assert (Eb : test_token none (train training) bp (Some (word_portion a), pr1) b
               = Ok (Some (word_portion b), pr1 * 0)).
  { unfold test_token, factor. rewrite (Hbp (word_portion b) (word_portion a)).
    destruct (in_dec eq_dec (word_portion b, word_portion a)
                (keys (bigramCount (train training)))) as [I|I].
    - apply get_None_keys in Hn. contradiction.
    - unfold getitem. rewrite Hu. reflexivity. }
  rewrite Eb. cbn [bind].
  destruct (query_total none (train training) bp 0 l2)
    with (q := Some (word_portion b)) (pr := pr1 * 0) as (pr2 & E2);
    [discriminate | exact Hu |].
  rewrite E2. cbn [bind snd]. exists pr2. split; [reflexivity|].
  apply (query_stays_zero none (train training) bp l2 (Some (word_portion b))
           (pr1 * 0) (prev_after l2 (Some (word_portion b))) pr2);
    [apply Qmult_0_r | exact E2].
Qed.

Lemma none_unseen_bigram_gives_zero_witness :
  exists q, main none ["a b"%string] ["b a"%string] = Ok q /\ q == 0.
Proof.
  apply (none_unseen_bigram_gives_zero ["a b"%string] "b a"%string []
           [] [Str "a"; END_OF_SENTENCE] START_OF_SENTENCE (Str "b")).
  - reflexivity.
  - reflexivity.
Defined.

(** X9. Under Good-Turing smoothing, after training on at least one line,
    the query raises nothing: every test file with a first line gets a
    probability. *)
Theorem good_turing_query_never_raises (training : list string)
  (sentence : string) (more : list string) :
  training <> [] ->
  exists q, main good_turing training (sentence :: more) = Ok q.
Proof.
  intros Hn.
  pose proof (closed_sentence_corpus (map tokenize training)) as C.
  fold (train training) in C. destruct C as (W & _).
  destruct (good_turing_table (train training) W
              (trained_bigrams_nonempty training Hn)) as (bp & E & Hu & _).
  unfold main, build. rewrite E. cbn [bind index nth_error].
  unfold sentence_prob.
  destruct (query_total good_turing (train training) bp _
              (with_markers (tokenize sentence)) ltac:(discriminate) Hu None 1)
    as (pr' & E').
  rewrite E'. cbn [bind snd]. eauto.
Qed.

Lemma good_turing_query_never_raises_witness :
  exists q, main good_turing ["a b"%string] ["b c"%string] = Ok q.
Proof.
  apply (good_turing_query_never_raises ["a b"%string] "b c"%string []).
  discriminate.
Defined.

(** *** The two add-one variants at query time *)

Lemma end_counted (c : counts) (tokens : list string) :
  In END_OF_SENTENCE (keys (unigramCount (count_sentence c tokens))).
Proof.
  unfold count_sentence, with_markers. rewrite app_assoc, fold_left_app.
  cbn [fold_left].
  destruct (fold_left count_token ([START_OF_SENTENCE] ++ map Str tokens) (c, None))
    as [c1 q]. cbn [count_token fst unigramCount word_portion].
  apply In_keys_incr. now left.
Qed.

Lemma vocabulary_has_markers (lines : list string) (p : symbol) :
  In p (keys (unigramCount (train lines))) ->
  In START_OF_SENTENCE (keys (unigramCount (train lines))) /\
  In END_OF_SENTENCE (keys (unigramCount (train lines))).
Proof.
  unfold train, count_corpus. intros I.
  destruct (map tokenize lines) as [|s r] eqn:E; [destruct I|].
  assert (Hn : s :: r <> []) by discriminate.
  destruct (exists_last Hn) as (l & t & ->).
  rewrite fold_left_app. cbn [fold_left].
  split; [apply start_counted | apply end_counted].
Qed.

Lemma add_one_blank (c : counts) (fast : bool) (bigramProb : dict pkey Q) :
  closed_sentence c ->
  prob_add_one fast c = Ok bigramProb -> get unseen bigramProb = None.
Proof.
  intros C. pose proof C as (W & _). unfold prob_add_one.
  rewrite (add_one_first_pass c C). cbn [bind].
  assert (G : get unseen
                (fold_left
                   (fun a k => set (seen (fst k) (snd k)) (add_one_value c k) a)
                   (keys (bigramCount c)) []) = None).
  { rewrite get_fold_set_other; [reflexivity|]. intros k _. discriminate. }
  destruct fast.
  - intros E. inversion E; subst. exact G.
  - rewrite (add_one_rows_fill c _ W). intros E. inversion E; subst.
    apply fill_leaves; [exact G|]. intros x _ _. discriminate.
Qed.

Section AddOneQuery.
Variable lines : list string.
Let c := train lines.
Variables eager lazy : dict pkey Q.
Hypothesis Heager : build add_one c = Ok eager.
Hypothesis Hlazy : build add_one_fast c = Ok lazy.

Lemma c_closed : closed_sentence c.
Proof.
  pose proof (closed_sentence_corpus (map tokenize lines)) as C. exact C.
Qed.

Lemma eager_get (s p : symbol) :
  get (seen s p) eager
  = if in_dec eq_dec (s, p) (keys (bigramCount c))
    then Some (add_one_value c (s, p))
    else if in_dec eq_dec (p, s) (visited_pairs c)
         then if eq_dec s START_OF_SENTENCE then None
              else Some (unseen_value c p)
         else None.
Proof.
  destruct (add_one_table c c_closed) as (bp & E & H).
  unfold build in Heager. rewrite E in Heager. inversion Heager; subst. apply H.
Qed.

Lemma lazy_get (s p : symbol) :
  get (seen s p) lazy
  = if in_dec eq_dec (s, p) (keys (bigramCount c))
    then Some (add_one_value c (s, p)) else None.
Proof.
  destruct (add_one_fast_table c c_closed) as (bp & E & H).
  unfold build in Hlazy. rewrite E in Hlazy. inversion Hlazy; subst. apply H.
Qed.

(** Both symbols known: the two variants give the same factor. *)
Lemma factors_agree (s p : symbol) :
  In s (keys (unigramCount c)) -> In p (keys (unigramCount c)) ->
  s <> START_OF_SENTENCE -> p <> END_OF_SENTENCE ->
  exists v, factor add_one c eager s p = Ok v /\
            factor add_one_fast c lazy s p = Ok v.
Proof.
  intros Is Ip Hs Hp. pose proof c_closed as (W & _).
  destruct (unigram_count_pos c p W Ip) as (u & Eu & Hu & Eu').
  pose proof (vocabulary_size_nonneg c) as HV.
  unfold factor. rewrite eager_get, lazy_get.
  destruct (in_dec eq_dec (s, p) (keys (bigramCount c))) as [I|I]; [eauto|].
  destruct (in_dec eq_dec (p, s) (visited_pairs c)) as [Iv|Iv].
  2:{ exfalso. apply Iv, In_visited_pairs. auto. }
  destruct (eq_dec s START_OF_SENTENCE); [contradiction|].
  exists (unseen_value c p). split; [reflexivity|].
  unfold getitem, unseen_value. rewrite Eu, Eu'. cbn [bind].
  apply truediv_ok. lia.
Qed.

(** Unknown predecessor: both variants raise [KeyError]. *)
Lemma factors_unknown_predecessor (s p : symbol) :
  ~ In p (keys (unigramCount c)) ->
  factor add_one c eager s p = Raise KeyError /\
  factor add_one_fast c lazy s p = Raise KeyError.
Proof.
  intros Hp. unfold factor. rewrite eager_get, lazy_get.
  destruct (in_dec eq_dec (s, p) (keys (bigramCount c))) as [I|I].
  { exfalso. apply Hp.
    destruct (observed_bigram c s p c_closed I) as (n & u & _ & Eu & _).
    now apply get_Some_keys in Eu. }
  destruct (in_dec eq_dec (p, s) (visited_pairs c)) as [Iv|Iv].
  { exfalso. apply In_visited_pairs in Iv. tauto. }
  unfold getitem.
  rewrite (add_one_blank c false eager c_closed Heager).
  apply get_None_keys in Hp. rewrite Hp. split; reflexivity.
Qed.

(** Unknown symbol after a known one: the eager variant raises
    [KeyError], the lazy one answers. *)
Lemma factors_unknown_symbol (s p : symbol) :
  In p (keys (unigramCount c)) -> ~ In s (keys (unigramCount c)) ->
  factor add_one c eager s p = Raise KeyError /\
  exists v, factor add_one_fast c lazy s p = Ok v.
Proof.
  intros Ip Hs. pose proof c_closed as (W & _).
  destruct (unigram_count_pos c p W Ip) as (u & Eu & Hu & Eu').
  pose proof (vocabulary_size_nonneg c) as HV.
  unfold factor. rewrite eager_get, lazy_get.
  destruct (in_dec eq_dec (s, p) (keys (bigramCount c))) as [I|I].
  { exfalso. apply Hs.
    destruct (observed_bigram c s p c_closed I) as (n & u' & H). tauto. }
  destruct (in_dec eq_dec (p, s) (visited_pairs c)) as [Iv|Iv].
  { exfalso. apply In_visited_pairs in Iv. tauto. }
  unfold getitem.
  rewrite (add_one_blank c false eager c_closed Heager), Eu. cbn [bind].
  split; [reflexivity|]. rewrite truediv_ok by lia. eauto.
Qed.

Lemma lazy_first_step_raises (l : list symbol) (p : symbol) (pr : Q) :
  l <> [] -> ~ In p (keys (unigramCount c)) ->
  foldM (test_token add_one_fast c lazy) l (Some p, pr) = Raise KeyError.
Proof.
  intros Hl Hp. destruct l as [|t r]; [congruence|]. cbn [foldM test_token].
  destruct (factors_unknown_predecessor (word_portion t) p Hp) as [_ E].
  now rewrite E.
Qed.

(** The two query loops end alike: with the same probability, or both
    with [KeyError]. *)
Lemma query_loops_agree (tokens : list string) :
  forall p pr,
    p <> END_OF_SENTENCE ->
    foldM (test_token add_one c eager) (map Str tokens ++ [END_OF_SENTENCE])
      (Some p, pr)
    = foldM (test_token add_one_fast c lazy) (map Str tokens ++ [END_OF_SENTENCE])
        (Some p, pr).
Proof.
  induction tokens as [|w r IH]; intros p pr Hp.
  - cbn [map app foldM test_token word_portion].
    destruct (in_dec eq_dec p (keys (unigramCount c))) as [Ip|Ip].
    + destruct (factors_agree END_OF_SENTENCE p) as (v & E1 & E2); auto.
      * now apply (vocabulary_has_markers lines p).
      * discriminate.
      * now rewrite E1, E2.
    + destruct (factors_unknown_predecessor END_OF_SENTENCE p Ip) as [E1 E2].
      now rewrite E1, E2.
  - cbn [map app foldM test_token word_portion].
    destruct (in_dec eq_dec p (keys (unigramCount c))) as [Ip|Ip].
    + destruct (in_dec eq_dec (Str (word_of w)) (keys (unigramCount c))) as [Is|Is].
      * destruct (factors_agree (Str (word_of w)) p) as (v & E1 & E2); auto.
        -- discriminate.
        -- rewrite E1, E2. cbn [bind]. apply IH. discriminate.
      * destruct (factors_unknown_symbol (Str (word_of w)) p Ip Is)
          as (E1 & v & E2).
        rewrite E1, E2. cbn [bind].
        rewrite lazy_first_step_raises; [reflexivity | | exact Is].
        destruct (map Str r); discriminate.
    + destruct (factors_unknown_predecessor (Str (word_of w)) p Ip) as [E1 E2].
      now rewrite E1, E2.
Qed.

Lemma eager_raises_on_unknown_word (tokens : list string) :
  forall p pr,
    p <> END_OF_SENTENCE ->
    (exists w, In w tokens /\ ~ In (Str (word_of w)) (keys (unigramCount c))) ->
    foldM (test_token add_one c eager) (map Str tokens ++ [END_OF_SENTENCE])
      (Some p, pr)
    = Raise KeyError.
Proof.
  induction tokens as [|w r IH]; intros p pr Hp (w0 & I0 & H0); [destruct I0|].
  cbn [map app foldM test_token word_portion].
  destruct (in_dec eq_dec p (keys (unigramCount c))) as [Ip|Ip].
  - destruct (in_dec eq_dec (Str (word_of w)) (keys (unigramCount c))) as [Is|Is].
    + destruct (factors_agree (Str (word_of w)) p) as (v & E1 & _); auto.
      * discriminate.
      * rewrite E1. cbn [bind]. apply IH; [discriminate|].
        destruct I0 as [->|I0]; [contradiction|]. eauto.
    + destruct (factors_unknown_symbol (Str (word_of w)) p Ip Is) as (E1 & _).
      now rewrite E1.
  - destruct (factors_unknown_predecessor (Str (word_of w)) p Ip) as [E1 _].
    now rewrite E1.
Qed.

Lemma sentence_probs_agree (tokens : list string) :
  sentence_prob add_one c eager tokens = sentence_prob add_one_fast c lazy tokens.
Proof.
  unfold sentence_prob, with_markers.
  change ([START_OF_SENTENCE] ++ map Str tokens ++ [END_OF_SENTENCE])
    with (START_OF_SENTENCE :: (map Str tokens ++ [END_OF_SENTENCE])).
  cbn [foldM test_token word_portion bind].
  rewrite query_loops_agree by discriminate. reflexivity.
Qed.

Lemma sentence_prob_unknown_word (tokens : list string) (w : string) :
  In w tokens -> ~ In (Str (word_of w)) (keys (unigramCount c)) ->
  sentence_prob add_one c eager tokens = Raise KeyError.
Proof.
  intros I H. unfold sentence_prob, with_markers.
  change ([START_OF_SENTENCE] ++ map Str tokens ++ [END_OF_SENTENCE])
    with (START_OF_SENTENCE :: (map Str tokens ++ [END_OF_SENTENCE])).
  cbn [foldM test_token word_portion bind].
  rewrite eager_raises_on_unknown_word; [reflexivity | discriminate | eauto].
Qed.

End AddOneQuery.

Lemma add_one_builds (lines : list string) :
  exists eager lazy,
    build add_one (train lines) = Ok eager /\
    build add_one_fast (train lines) = Ok lazy.
Proof.
  pose proof (closed_sentence_corpus (map tokenize lines)) as C.
  fold (train lines) in C.
  destruct (add_one_table (train lines) C) as (eager & Ee & _).
  destruct (add_one_fast_table (train lines) C) as (lazy & El & _).
  exists eager, lazy. auto.
Qed.

(** X10. The script prints the same under add-one and under add-one-fast:
    for every training corpus and every test file the two runs end with
    the same probability or with the same exception. *)
Theorem add_one_variants_run_alike (training test_lines : list string) :
  main add_one training test_lines = main add_one_fast training test_lines.
Proof.
  destruct (add_one_builds training) as (eager & lazy & Ee & El).
  unfold main. rewrite Ee, El. cbn [bind].
  destruct (index test_lines 0) as [sentence|e]; [|reflexivity]. cbn [bind].
  apply (sentence_probs_agree training eager lazy Ee El).
Qed.

(** X11. Under both add-one variants a test sentence with a word that is
    not in the training vocabulary makes the script raise [KeyError]. *)
Theorem add_one_unknown_word_raises (training : list string) (sentence : string)
  (more : list string) (w : string) :
  In w (tokenize sentence) ->
  ~ In (Str (word_of w)) (keys (unigramCount (train training))) ->
  main add_one training (sentence :: more) = Raise KeyError /\
  main add_one_fast training (sentence :: more) = Raise KeyError.
Proof.
  intros I H. destruct (add_one_builds training) as (eager & lazy & Ee & El).
  unfold main. rewrite Ee, El. cbn [bind index nth_error].
  rewrite <- (sentence_probs_agree training eager lazy Ee El).
  rewrite (sentence_prob_unknown_word training eager lazy Ee El
             (tokenize sentence) w I H).
  split; reflexivity.
Qed.

Lemma add_one_unknown_word_raises_witness :
  main add_one ["a b"%string] ["a c"%string] = Raise KeyError /\
  main add_one_fast ["a b"%string] ["a c"%string] = Raise KeyError.
Proof.
  apply (add_one_unknown_word_raises ["a b"%string] "a c"%string [] "c"%string).
  - simpl. tauto.
  - simpl. intros [E|[E|[E|[E|[]]]]]; discriminate.
Defined.

(** *** The size of the stored probabilities *)

Lemma frac_range (a b : Z) :
  (0 < a)%Z -> (a <= b)%Z ->
  0 < inject_Z a / inject_Z b /\ inject_Z a / inject_Z b <= 1.
Proof.
  intros Ha Hb.
  assert (Hpos : 0 < inject_Z b) by (unfold Qlt; simpl; lia).
  split.
  - apply Qlt_shift_div_l; [exact Hpos|]. rewrite Qmult_0_l.
    unfold Qlt. simpl. lia.
  - apply Qle_shift_div_r; [exact Hpos|]. rewrite Qmult_1_l.
    unfold Qle. simpl. lia.
Qed.

Lemma vocabulary_size_pos (c : counts) (p : symbol) :
  In p (keys (unigramCount c)) -> (0 < vocabulary_size c)%Z.
Proof.
  unfold vocabulary_size. intros I.
  destruct (keys (unigramCount c)); [destruct I | simpl; lia].
Qed.

Lemma add_one_value_range (c : counts) (s p : symbol) :
  closed_sentence c -> In (s, p) (keys (bigramCount c)) ->
  0 < add_one_value c (s, p) /\ add_one_value c (s, p) <= 1.
Proof.
  intros C I.
  destruct (observed_bigram c s p C I) as (n & u & E & Eu & Hn & Hu & _).
  pose proof (vocabulary_size_pos c p (get_Some_keys _ _ _ _ Eu)).
  unfold add_one_value, unigram_count. cbn [snd]. rewrite E, Eu.
  apply frac_range; lia.
Qed.

(** X12. Without smoothing and under both add-one variants every stored
    probability of a pair is larger than zero and at most one. *)
Theorem stored_probabilities_in_range (lines : list string)
  (smoothing_type : smoothing) (bigramProb : dict pkey Q) (s p : symbol) (v : Q) :
  smoothing_type <> good_turing ->
  build smoothing_type (train lines) = Ok bigramProb ->
  get (seen s p) bigramProb = Some v ->
  0 < v /\ v <= 1.
Proof.
  intros Hs Hb G.
  pose proof (closed_sentence_corpus (map tokenize lines)) as C.
  fold (train lines) in C. set (c := train lines) in *.
  destruct smoothing_type; [| | congruence |].
  - destruct (prob_none_full c C) as (bp & E & _ & H).
    unfold build in Hb. rewrite E in Hb. inversion Hb; subst. clear Hb.
    rewrite H in G.
    destruct (in_dec eq_dec (s, p) (keys (bigramCount c))) as [I|I]; [|discriminate].
    inversion G; subst. clear G.
    destruct (observed_bigram c s p C I) as (n & u & En & Eu & Hn & Hu & _).
    unfold none_value, unigram_count. cbn [snd]. rewrite En, Eu.
    apply frac_range; lia.
  - rewrite (eager_get lines bigramProb Hb s p) in G. fold c in G.
    destruct (in_dec eq_dec (s, p) (keys (bigramCount c))) as [I|I].
    + inversion G; subst. now apply add_one_value_range.
    + destruct (in_dec eq_dec (p, s) (visited_pairs c)) as [Iv|Iv]; [|discriminate].
      destruct (eq_dec s START_OF_SENTENCE); [discriminate|].
      inversion G; subst. clear G.
      apply In_visited_pairs in Iv. destruct Iv as (Ip & _).
      destruct C as (W & _).
      destruct (unigram_count_pos c p W Ip) as (u & Eu & Hu & Eu').
      pose proof (vocabulary_size_pos c p Ip).
      unfold unseen_value. rewrite Eu'.
      change 1 with (inject_Z 1) at 1 3. apply frac_range; lia.
  - rewrite (lazy_get lines bigramProb Hb s p) in G. fold c in G.
    destruct (in_dec eq_dec (s, p) (keys (bigramCount c))) as [I|I]; [|discriminate].
    inversion G; subst. now apply add_one_value_range.
Qed.

Lemma stored_probabilities_in_range_witness :
  0 < 1 # 2 /\ 1 # 2 <= 1.
Proof.
  apply (stored_probabilities_in_range ["a b"%string; "a"%string] none
           [(seen (Str "a") START_OF_SENTENCE, 2 # 2);
            (seen (Str "b") (Str "a"), 1 # 2);
            (seen END_OF_SENTENCE (Str "b"), 1 # 1);
            (seen END_OF_SENTENCE (Str "a"), 1 # 2);
            (unseen, 0)]
           (Str "b") (Str "a") (1 # 2)).
  - discriminate.
  - vm_compute. reflexivity.
  - vm_compute. reflexivity.
Defined.

(** X13. Under Good-Turing smoothing an observed bigram whose count [n]
    has no bigram of count [n + 1] next to it, as every bigram of the
    largest count, is stored with a probability equal to zero. *)
Theorem good_turing_zero_without_next_count (lines : list string) (s p : symbol)
  (n : Z) :
  get (s, p) (bigramCount (train lines)) = Some n ->
  count_eq (train lines) (n + 1) = 0%Z ->
  exists bigramProb v,
    build good_turing (train lines) = Ok bigramProb /\
    get (seen s p) bigramProb = Some v /\ v == 0.
Proof.
  intros G Z0.
  pose proof (closed_sentence_corpus (map tokenize lines)) as C.
  fold (train lines) in C. destruct C as (W & _).
  assert (Hn : bigramCount (train lines) <> []).
  { intros E. rewrite E in G. discriminate. }
  destruct (good_turing_table (train lines) W Hn) as (bp & E & _ & H).
  exists bp, (good_turing_value (train lines) (s, p)).
  split; [exact E|]. split.
  - apply H. now apply get_Some_keys in G.
  - unfold good_turing_value, adjusted_count, bigram_count. cbn [fst snd].
    rewrite G, Z0.
    destruct (Z.eq_dec (count_eq (train lines) n) 0).
    + unfold Qdiv. apply Qmult_0_l.
    + rewrite Z.mul_0_r. unfold Qdiv. rewrite !Qmult_0_l. reflexivity.
Qed.

Lemma good_turing_zero_without_next_count_witness :
  exists bigramProb v,
    build good_turing (train ["a b"%string; "a"%string]) = Ok bigramProb /\
    get (seen (Str "a") START_OF_SENTENCE) bigramProb = Some v /\ v == 0.
Proof.
  apply (good_turing_zero_without_next_count ["a b"%string; "a"%string]
           (Str "a") START_OF_SENTENCE 2); reflexivity.
Defined.


(** *** Add-one smoothing on a sentence of known words *)

Lemma product_in_range (a b : Q) :
  0 < a /\ a <= 1 -> 0 < b /\ b <= 1 -> 0 < a * b /\ a * b <= 1.
Proof.
  intros [Ha Ha1] [Hb Hb1]. split.
  - now apply Qmult_lt_0_compat.
  - apply Qle_trans with (1 * b).
    + apply Qmult_le_compat_r; [exact Ha1 | now apply Qlt_le_weak].
    + now rewrite Qmult_1_l.
Qed.

Lemma eager_factor_range (lines : list string) (eager : dict pkey Q) (s p : symbol) :
  build add_one (train lines) = Ok eager ->
  In s (keys (unigramCount (train lines))) ->
  In p (keys (unigramCount (train lines))) ->
  s <> START_OF_SENTENCE -> p <> END_OF_SENTENCE ->
  exists v, factor add_one (train lines) eager s p = Ok v /\ 0 < v /\ v <= 1.
Proof.
  intros Heager Is Ip Hs Hp.
  pose proof (closed_sentence_corpus (map tokenize lines)) as C.
  fold (train lines) in C. set (c := train lines) in *.
  unfold factor. rewrite (eager_get lines eager Heager s p). fold c.
  destruct (in_dec eq_dec (s, p) (keys (bigramCount c))) as [I|I].
  - exists (add_one_value c (s, p)). split; [reflexivity|].
    now apply add_one_value_range.
  - destruct (in_dec eq_dec (p, s) (visited_pairs c)) as [Iv|Iv].
    2:{ exfalso. apply Iv, In_visited_pairs. auto. }
    destruct (eq_dec s START_OF_SENTENCE); [contradiction|].
    exists (unseen_value c p). split; [reflexivity|].
    destruct C as (W & _).
    destruct (unigram_count_pos c p W Ip) as (u & Eu & Hu & Eu').
    pose proof (vocabulary_size_pos c p Ip).
    unfold unseen_value. rewrite Eu'.
    change 1 with (inject_Z 1) at 1 3. apply frac_range; lia.
Qed.

Lemma eager_loop_scores (lines : list string) (eager : dict pkey Q)
  (tokens : list string) :
  build add_one (train lines) = Ok eager ->
  (forall w, In w tokens ->
             In (Str (word_of w)) (keys (unigramCount (train lines)))) ->
  forall p pr,
    In p (keys (unigramCount (train lines))) -> p <> END_OF_SENTENCE ->
    0 < pr /\ pr <= 1 ->
    exists q,
      foldM (test_token add_one (train lines) eager)
        (map Str tokens ++ [END_OF_SENTENCE]) (Some p, pr)
      = Ok (Some END_OF_SENTENCE, q) /\ 0 < q /\ q <= 1.
Proof.
  intros Heager. induction tokens as [|w r IH]; intros Hw p pr Ip Hp Hpr.
  - cbn [map app foldM test_token word_portion].
    destruct (eager_factor_range lines eager END_OF_SENTENCE p Heager)
      as (v & E & Hv); auto.
    + now apply (vocabulary_has_markers lines p).
    + discriminate.
    + rewrite E. cbn [bind]. exists (pr * v). split; [reflexivity|].
      now apply product_in_range.
  - cbn [map app foldM test_token word_portion].
    assert (Is : In (Str (word_of w)) (keys (unigramCount (train lines))))
      by (apply Hw; now left).
    destruct (eager_factor_range lines eager (Str (word_of w)) p Heager)
      as (v & E & Hv); auto.
    + discriminate.
    + rewrite E. cbn [bind]. apply IH.
      * intros w' I. apply Hw. now right.
      * exact Is.
      * discriminate.
      * now apply product_in_range.
Qed.

(** X24. Under both add-one variants, after training on at least one
    line, a test sentence whose words all belong to the training
    vocabulary gets a probability, the same under both, that is larger
    than zero and at most one. *)
Theorem add_one_known_sentence_is_scored (training : list string)
  (sentence : string) (more : list string) :
  training <> [] ->
  (forall w, In w (tokenize sentence) ->
             In (Str (word_of w)) (keys (unigramCount (train training)))) ->
  exists q,
    main add_one training (sentence :: more) = Ok q /\
    main add_one_fast training (sentence :: more) = Ok q /\
    0 < q /\ q <= 1.
Proof.
  intros Hn Hw. destruct (add_one_builds training) as (eager & lazy & Ee & El).
  assert (Is : In START_OF_SENTENCE (keys (unigramCount (train training)))).
  { unfold train, count_corpus.
    destruct (exists_last Hn) as (l & s & ->).
    rewrite map_app, fold_left_app. simpl. apply start_counted. }
  destruct (eager_loop_scores training eager (tokenize sentence) Ee Hw
              START_OF_SENTENCE 1 Is) as (q & E & Hq).
  { discriminate. }
  { split; [reflexivity | apply Qle_refl]. }
  assert (Em : sentence_prob add_one (train training) eager (tokenize sentence) = Ok q).
  { unfold sentence_prob, with_markers.
    change ([START_OF_SENTENCE] ++ map Str (tokenize sentence) ++ [END_OF_SENTENCE])
      with (START_OF_SENTENCE :: (map Str (tokenize sentence) ++ [END_OF_SENTENCE])).
    cbn [foldM test_token word_portion bind]. rewrite E. reflexivity. }
  exists q. unfold main. rewrite Ee, El. cbn [bind index nth_error].
  rewrite <- (sentence_probs_agree training eager lazy Ee El).
  rewrite Em. auto.
Qed.

Lemma add_one_known_sentence_is_scored_witness :
  exists q,
    main add_one ["a b"%string; "a"%string] ["b a"%string] = Ok q /\
    main add_one_fast ["a b"%string; "a"%string] ["b a"%string] = Ok q /\
    0 < q /\ q <= 1.
Proof.
  apply (add_one_known_sentence_is_scored ["a b"%string; "a"%string] "b a"%string []).
  - discriminate.
  - intros w I. vm_compute in I. destruct I as [<-|[<-|[]]]; vm_compute; tauto.
Defined.

(** *** Without smoothing, on a sentence of observed bigrams *)

Lemma none_loop_scores (c : counts) (bigramProb : dict pkey Q) :
  closed_sentence c ->
  (forall s q,
     get (seen s q) bigramProb
     = if in_dec eq_dec (s, q) (keys (bigramCount c))
       then Some (none_value c (s, q)) else None) ->
  forall l x pr,
    0 < pr /\ pr <= 1 ->
    (forall l1 a b l2,
       x :: l = l1 ++ a :: b :: l2 ->
       In (word_portion b, word_portion a) (keys (bigramCount c))) ->
    exists q,
      foldM (test_token none c bigramProb) l (Some (word_portion x), pr)
      = Ok (prev_after l (Some (word_portion x)), q) /\ 0 < q /\ q <= 1.
Proof.
  intros C Hbp. induction l as [|t r IH]; intros x pr Hpr Hobs.
  - exists pr. split; [reflexivity | exact Hpr].
  - cbn [foldM test_token prev_after fold_left].
    assert (I : In (word_portion t, word_portion x) (keys (bigramCount c))).
    { apply (Hobs [] x t r). reflexivity. }
    unfold factor. rewrite Hbp.
    destruct (in_dec eq_dec (word_portion t, word_portion x) (keys (bigramCount c)))
      as [_|Hn]; [|contradiction].
    cbn [bind].
    assert (Hv : 0 < none_value c (word_portion t, word_portion x)
                 /\ none_value c (word_portion t, word_portion x) <= 1).
    { destruct (observed_bigram c _ _ C I) as (n & u & En & Eu & Hn & Hu & _).
      unfold none_value, unigram_count. cbn [snd]. rewrite En, Eu.
      apply frac_range; lia. }
    apply IH.
    + now apply product_in_range.
    + intros l1 a b l2 E. apply (Hobs (x :: l1) a b l2). now rewrite E.
Qed.

(** X25. Without smoothing, a test sentence in which every symbol, the
    sentence markers included, follows a symbol that it followed in
    training gets a probability larger than zero and at most one. *)
Theorem none_observed_bigrams_give_positive (training : list string)
  (sentence : string) (more : list string) :
  (forall l1 a b l2,
     with_markers (tokenize sentence) = l1 ++ a :: b :: l2 ->
     In (word_portion b, word_portion a) (keys (bigramCount (train training)))) ->
  exists q, main none training (sentence :: more) = Ok q /\ 0 < q /\ q <= 1.
Proof.
  intros Hobs.
  pose proof (closed_sentence_corpus (map tokenize training)) as C.
  fold (train training) in C.
  destruct (prob_none_full (train training) C) as (bp & E & _ & Hbp).
  unfold main, build. rewrite E. cbn [bind index nth_error].
  unfold sentence_prob.
  unfold with_markers in *.
  change ([START_OF_SENTENCE] ++ map Str (tokenize sentence) ++ [END_OF_SENTENCE])
    with (START_OF_SENTENCE :: (map Str (tokenize sentence) ++ [END_OF_SENTENCE]))
    in *.
  cbn [foldM test_token bind].
  destruct (none_loop_scores (train training) bp C Hbp
              (map Str (tokenize sentence) ++ [END_OF_SENTENCE])
              START_OF_SENTENCE 1) as (q & Eq & Hq).
  - split; [reflexivity | apply Qle_refl].
  - exact Hobs.
  - rewrite Eq. cbn [bind snd]. exists q. auto.
Qed.

Lemma none_observed_bigrams_give_positive_witness :
  exists q,
    main none ["a b"%string; "a"%string] ["a"%string] = Ok q /\ 0 < q /\ q <= 1.
Proof.
  apply (none_observed_bigrams_give_positive ["a b"%string; "a"%string]
           "a"%string []).
  intros l1 x y l2 E. vm_compute in E.
  destruct l1 as [|z1 [|z2 l1]].
  - inversion E; subst. vm_compute. tauto.
  - inversion E; subst. vm_compute. tauto.
  - exfalso. inversion E as [[E1 E2 E3]].
    destruct l1; inversion E3. destruct l1; discriminate.
Defined.

(** ** Further properties of the POS model *)

Lemma split_on_without (sep : ascii) (t : string) :
  has_char sep t = false -> split_on sep t = [t].
Proof.
  induction t as [|c r IH]; simpl; [reflexivity|].
  destruct (ascii_dec c sep); [discriminate|]. intros H. now rewrite IH.
Qed.

Lemma split_on_with (sep : ascii) (t : string) :
  has_char sep t = true -> exists a b rest, split_on sep t = a :: b :: rest.
Proof.
  induction t as [|c r IH]; simpl; [discriminate|].
  destruct (ascii_dec c sep).
  - intros _. pose proof (split_on_nonempty sep r).
    destruct (split_on sep r) as [|b rest]; [congruence|]. eauto.
  - intros H. destruct (IH H) as (a & b & rest & E). rewrite E. eauto.
Qed.

Lemma train_token_guarded (st : Tagging.model * string) (token : string) :
  if has_char "_" token
  then exists st', Tagging.train_token st token = Ok st'
  else Tagging.train_token st token = Raise IndexError.
Proof.
  destruct st as [m q]. unfold Tagging.train_token.
  destruct (has_char "_" token) eqn:E.
  - destruct (split_on_with "_" token E) as (a & b & rest & ->).
    cbn [index nth_error bind]. eauto.
  - rewrite (split_on_without "_" token E). reflexivity.
Qed.

(** A loop whose body raises [e] on the elements that fail a test, and
    nothing on the others. *)
Lemma foldM_guarded (S A : Type) (body : S -> A -> result S) (ok : A -> bool)
  (e : exn) :
  (forall s x, if ok x then exists s', body s x = Ok s' else body s x = Raise e) ->
  forall l s,
    if forallb ok l then exists s', foldM body l s = Ok s'
    else foldM body l s = Raise e.
Proof.
  intros Hb. induction l as [|x r IH]; intros s; cbn [forallb foldM].
  - eauto.
  - specialize (Hb s x). destruct (ok x); cbn [andb].
    + destruct Hb as (s' & ->). cbn [bind]. apply IH.
    + now rewrite Hb.
Qed.

Lemma train_sentence_guarded (m : Tagging.model) (sentence : string) :
  if forallb (has_char "_") (split sentence)
  then exists m', Tagging.train_sentence m sentence = Ok m'
  else Tagging.train_sentence m sentence = Raise IndexError.
Proof.
  unfold Tagging.train_sentence.
  pose proof (foldM_guarded _ _ Tagging.train_token (has_char "_") IndexError
                train_token_guarded (split sentence) (m, Tagging.START_OF_SENTENCE))
    as H.
  destruct (forallb (has_char "_") (split sentence)).
  - destruct H as ([m' q] & ->). cbn [bind]. eauto.
  - now rewrite H.
Qed.

Lemma forallb_flat_map (X Y : Type) (f : X -> list Y) (ok : Y -> bool) (l : list X) :
  forallb ok (flat_map f l) = forallb (fun x => forallb ok (f x)) l.
Proof.
  induction l as [|x r IH]; simpl; [reflexivity|].
  now rewrite forallb_app, IH.
Qed.

(** X14. Training the POS model succeeds exactly when every token of the
    corpus holds an underscore; otherwise it raises [IndexError]. *)
Theorem tagging_train_needs_underscores (lines : list string) :
  match Tagging.train lines with
  | Ok _ => forallb (has_char "_") (flat_map split lines) = true
  | Raise e => e = IndexError
               /\ forallb (has_char "_") (flat_map split lines) = false
  end.
Proof.
  rewrite forallb_flat_map.
  pose proof (foldM_guarded _ _ Tagging.train_sentence
                (fun line => forallb (has_char "_") (split line)) IndexError
                train_sentence_guarded lines Tagging.empty_model) as H.
  fold (Tagging.train lines) in H.
  destruct (forallb _ lines).
  - destruct H as (m & ->). reflexivity.
  - rewrite H. auto.
Qed.

(** *** The counts of the POS model *)

Lemma transition_key_T (t x q : string) :
  transition_key t (x, q, "T"%string) = if string_dec q t then true else false.
Proof. unfold transition_key. simpl. now rewrite andb_true_r. Qed.

Lemma transition_key_W (t x q : string) :
  transition_key t (x, q, "W"%string) = false.
Proof. unfold transition_key. simpl. now rewrite andb_false_r. Qed.

Lemma emission_key_W (t x q : string) :
  emission_key t (x, q, "W"%string) = if string_dec q t then true else false.
Proof. unfold emission_key. simpl. now rewrite andb_true_r. Qed.

Lemma emission_key_T (t x q : string) :
  emission_key t (x, q, "T"%string) = false.
Proof. unfold emission_key. simpl. now rewrite andb_false_r. Qed.

Lemma tag_count_incr (m : Tagging.model) (g t : string) (tg : dict string Tagging.str_set)
  (b : dict Tagging.ckey Z) (w : option string) :
  tag_count (Tagging.Model tg (incr g (Tagging.unigramTagCount m)) b w) t
  = (tag_count m t + if string_dec t g then 1 else 0)%Z.
Proof.
  unfold tag_count. simpl. rewrite get_incr.
  change (eq_dec t g) with (string_dec t g).
  destruct (string_dec t g) as [->|]; [|lia].
  destruct (get g (Tagging.unigramTagCount m)); lia.
Qed.

Lemma train_token_inv (st : Tagging.model * string) (token : string) :
  Tagging.train_token st token
  = match split_on "_" token with
    | word :: tag :: _ =>
        Ok (Tagging.Model
              (match get word (Tagging.tags (fst st)) with
               | Some s => set word (Tagging.set_add tag s) (Tagging.tags (fst st))
               | None => set word (Tagging.set_of_str tag) (Tagging.tags (fst st))
               end)
              (incr tag (Tagging.unigramTagCount (fst st)))
              (incr (tag, snd st, "T"%string)
                 (incr (word, tag, "W"%string) (Tagging.bigramCount (fst st))))
              (Some word), tag)
    | _ => Raise IndexError
    end.
Proof.
  destruct st as [m q]. unfold Tagging.train_token.
  destruct (split_on "_" token) as [|word [|tag rest]]; reflexivity.
Qed.

Lemma tag_wf_incr (m : Tagging.model) (g x q wt : string)
  (tg : dict string Tagging.str_set) (w : option string) :
  tag_wf m -> wt = "W"%string \/ wt = "T"%string ->
  tag_wf (Tagging.Model tg (Tagging.unigramTagCount m)
            (incr (x, q, wt) (Tagging.bigramCount m)) w).
Proof.
  intros (Nu & Nb & Pu & Pb & Hk) Hwt. unfold tag_wf. simpl.
  refine (conj Nu (conj _ (conj Pu (conj _ _)))).
  - now apply NoDup_keys_incr.
  - now apply positive_incr.
  - intros k I. apply In_keys_incr in I. destruct I as [->|I]; [exact Hwt|auto].
Qed.

Lemma tag_wf_incr_tag (m : Tagging.model) (g : string)
  (tg : dict string Tagging.str_set) (w : option string) :
  tag_wf m ->
  tag_wf (Tagging.Model tg (incr g (Tagging.unigramTagCount m))
            (Tagging.bigramCount m) w).
Proof.
  intros (Nu & Nb & Pu & Pb & Hk). unfold tag_wf. simpl.
  refine (conj _ (conj Nb (conj _ (conj Pb Hk)))).
  - now apply NoDup_keys_incr.
  - now apply positive_incr.
Qed.

Lemma tag_open_step (n : Z) (st st' : Tagging.model * string) (token : string) :
  tag_open n st -> Tagging.train_token st token = Ok st' -> tag_open n st'.
Proof.
  rewrite train_token_inv. destruct st as [m q].
  destruct (split_on "_" token) as [|word [|g rest]]; try discriminate.
  intros (W & Ht & He) E. inversion E; subst; clear E. cbn [fst snd].
  unfold tag_open. split; [|split].
  - set (tg := match get word (Tagging.tags m) with
               | Some s => set word (Tagging.set_add g s) (Tagging.tags m)
               | None => set word (Tagging.set_of_str g) (Tagging.tags m)
               end).
    apply (tag_wf_incr
             (Tagging.Model tg (incr g (Tagging.unigramTagCount m))
                (incr (word, g, "W"%string) (Tagging.bigramCount m)) (Some word))
             g g q "T"%string tg (Some word)); [|now right].
    apply (tag_wf_incr
             (Tagging.Model tg (incr g (Tagging.unigramTagCount m))
                (Tagging.bigramCount m) (Some word))
             g word g "W"%string tg (Some word)); [|now left].
    now apply tag_wf_incr_tag.
  - intros t. rewrite tag_count_incr. unfold transitions_out. cbn [Tagging.bigramCount].
    rewrite !count_where_incr, transition_key_T, transition_key_W.
    specialize (Ht t). unfold transitions_out in Ht.
    destruct (string_dec q t), (string_dec g t), (string_dec t g),
      (string_dec t Tagging.START_OF_SENTENCE); try congruence; lia.
  - intros t. rewrite tag_count_incr. unfold emissions_of. cbn [Tagging.bigramCount].
    rewrite !count_where_incr, emission_key_T, emission_key_W.
    specialize (He t). unfold emissions_of in He.
    destruct (string_dec g t), (string_dec t g),
      (string_dec t Tagging.START_OF_SENTENCE); try congruence; lia.
Qed.

Lemma tag_open_steps (n : Z) (tokens : list string) :
  forall st st',
    tag_open n st -> foldM Tagging.train_token tokens st = Ok st' -> tag_open n st'.
Proof.
  induction tokens as [|t r IH]; intros st st' O E; cbn [foldM] in E.
  - now inversion E; subst.
  - destruct (Tagging.train_token st t) as [st1|] eqn:E1; [|discriminate].
    cbn [bind] in E. apply (IH st1 st'); [|exact E].
    now apply (tag_open_step n st st1 t).
Qed.

Lemma tag_closed_step (n : Z) (m m' : Tagging.model) (sentence : string) :
  tag_closed n m -> Tagging.train_sentence m sentence = Ok m' ->
  tag_closed (n + 1) m'.
Proof.
  intros (W & Ht & He) E. unfold Tagging.train_sentence in E.
  destruct (foldM Tagging.train_token (split sentence) (m, Tagging.START_OF_SENTENCE))
    as [[m1 q]|] eqn:E1; [|discriminate].
  cbn [bind] in E. inversion E; subst; clear E.
  assert (O : tag_open n (m, Tagging.START_OF_SENTENCE)).
  { refine (conj W (conj _ He)). intros t. rewrite Ht.
    destruct (string_dec Tagging.START_OF_SENTENCE t),
      (string_dec t Tagging.START_OF_SENTENCE); congruence. }
  pose proof (tag_open_steps n (split sentence) _ _ O E1) as (W1 & Ht1 & He1).
  unfold tag_closed. split; [|split].
  - apply (tag_wf_incr
             (Tagging.Model (Tagging.tags m1)
                (incr Tagging.START_OF_SENTENCE (Tagging.unigramTagCount m1))
                (Tagging.bigramCount m1) (Tagging.last_word m1))
             q Tagging.END_OF_SENTENCE q "T"%string (Tagging.tags m1)
             (Tagging.last_word m1)); [|now right].
    now apply tag_wf_incr_tag.
  - intros t. rewrite tag_count_incr. unfold transitions_out. cbn [Tagging.bigramCount].
    rewrite count_where_incr, transition_key_T.
    specialize (Ht1 t). unfold transitions_out in Ht1.
    destruct (string_dec q t); exact Ht1.
  - intros t. rewrite tag_count_incr. unfold emissions_of. cbn [Tagging.bigramCount].
    rewrite count_where_incr, emission_key_T.
    specialize (He1 t). unfold emissions_of in He1.
    destruct (string_dec t Tagging.START_OF_SENTENCE); lia.
Qed.

Lemma tag_closed_steps (lines : list string) :
  forall n m m',
    tag_closed n m -> foldM Tagging.train_sentence lines m = Ok m' ->
    tag_closed (n + Z.of_nat (List.length lines)) m'.
Proof.
  induction lines as [|s r IH]; intros n m m' C E; cbn [foldM] in E.
  - inversion E; subst. simpl. now rewrite Z.add_0_r.
  - destruct (Tagging.train_sentence m s) as [m1|] eqn:E1; [|discriminate].
    cbn [bind] in E. cbn [List.length].
    replace (n + Z.of_nat (S (List.length r)))%Z
      with ((n + 1) + Z.of_nat (List.length r))%Z by lia.
    apply (IH (n + 1)%Z m1 m'); [|exact E].
    now apply (tag_closed_step n m m1 s).
Qed.

Lemma tag_closed_trained (lines : list string) (m : Tagging.model) :
  Tagging.train lines = Ok m -> tag_closed (Z.of_nat (List.length lines)) m.
Proof.
  intros E. apply (tag_closed_steps lines 0%Z Tagging.empty_model m); [|exact E].
  unfold tag_closed, tag_wf. simpl.
  refine (conj (conj _ (conj _ (conj _ (conj _ _)))) (conj _ _)).
  - constructor.
  - constructor.
  - intros k c [].
  - intros k c [].
  - intros k [].
  - reflexivity.
  - intros t. unfold emissions_of, tag_count. simpl.
    now destruct (string_dec t Tagging.START_OF_SENTENCE).
Qed.

(** X15. After training, the counts of the transitions out of a tag add up
    to the unigram count of the tag, the start marker included; the counts
    of the words seen with a tag add up to its unigram count as well, where
    the start marker, which no word carries unless the corpus uses it as a
    tag, is counted once per line. *)
Theorem tag_counts_add_up (lines : list string) (m : Tagging.model) :
  Tagging.train lines = Ok m ->
  forall t,
    transitions_out m t = tag_count m t /\
    (emissions_of m t
     + (if string_dec t Tagging.START_OF_SENTENCE
        then Z.of_nat (List.length lines) else 0)
     = tag_count m t)%Z.
Proof.
  intros E t. destruct (tag_closed_trained lines m E) as (_ & Ht & He). auto.
Qed.

Lemma tag_counts_add_up_witness :
  exists m,
    Tagging.train ["a_N b_V"; "a_N"]%string = Ok m /\
    forall t,
      transitions_out m t = tag_count m t /\
      (emissions_of m t
       + (if string_dec t Tagging.START_OF_SENTENCE
          then Z.of_nat (List.length ["a_N b_V"; "a_N"]%string) else 0)
       = tag_count m t)%Z.
Proof.
  eexists. split; [reflexivity|].
  apply (tag_counts_add_up ["a_N b_V"; "a_N"]%string). reflexivity.
Defined.

(** *** The probabilities of the POS model *)

Lemma ckey_to_bkey_inj (a b : Tagging.ckey) : ckey_to_bkey a = ckey_to_bkey b -> a = b.
Proof.
  destruct a as [[x t] wt], b as [[x' t'] wt']. unfold ckey_to_bkey, Tagging.key3.
  simpl. congruence.
Qed.

(** What training guarantees about one counted key. *)
Lemma counted_key (n0 : Z) (m : Tagging.model) (k : Tagging.ckey) :
  tag_closed n0 m -> (0 <= n0)%Z -> In k (keys (Tagging.bigramCount m)) ->
  exists n u,
    get k (Tagging.bigramCount m) = Some n /\
    get (snd (fst k)) (Tagging.unigramTagCount m) = Some u /\
    (0 < n)%Z /\ (n <= u)%Z.
Proof.
  intros (W & Ht & He) Hn0 I. destruct W as (Nu & Nb & Pu & Pb & Hk).
  destruct (get k (Tagging.bigramCount m)) as [n|] eqn:E.
  2:{ apply get_None_keys in E. contradiction. }
  pose proof E as I'. apply get_In in I'. pose proof (Pb _ _ I') as Hn.
  destruct k as [[x t] wt]. cbn [fst snd].
  assert (G : (n <= tag_count m t)%Z).
  { destruct (Hk _ I) as [Ew|Ew]; cbn [snd] in Ew; subst wt.
    - specialize (He t). rewrite <- He.
      assert (n <= emissions_of m t)%Z.
      { apply count_where_ge with (k := (x, t, "W"%string)); auto.
        rewrite emission_key_W. destruct (string_dec t t); congruence. }
      destruct (string_dec t Tagging.START_OF_SENTENCE); lia.
    - rewrite <- (Ht t).
      apply count_where_ge with (k := (x, t, "T"%string)); auto.
      rewrite transition_key_T. destruct (string_dec t t); congruence. }
  unfold tag_count in G.
  destruct (get t (Tagging.unigramTagCount m)) as [u|]; [|lia].
  exists n, u. auto.
Qed.

Lemma tag_probabilities_table (n0 : Z) (m : Tagging.model) :
  tag_closed n0 m -> (0 <= n0)%Z ->
  exists bigramProb,
    Tagging.probabilities m = Ok bigramProb /\
    get Tagging.blank bigramProb = Some 0 /\
    (forall k, In k (keys (Tagging.bigramCount m)) ->
               get (ckey_to_bkey k) bigramProb = Some (tag_value m k)) /\
    (forall k, ~ In k (keys (Tagging.bigramCount m)) ->
               get (ckey_to_bkey k) bigramProb = None).
Proof.
  intros C Hn0. unfold Tagging.probabilities.
  rewrite (@foldM_store _ _ _ _ ckey_to_bkey
             (fun k => bCount <- getitem k (Tagging.bigramCount m) ;;
                       uCount <- getitem (snd (fst k)) (Tagging.unigramTagCount m) ;;
                       truediv (inject_Z bCount) (inject_Z uCount))
             (tag_value m)).
  - cbn [bind]. eexists. split; [reflexivity|]. split; [|split].
    + rewrite get_set. destruct (eq_dec Tagging.blank Tagging.blank); congruence.
    + intros k I. rewrite get_set.
      destruct (eq_dec (ckey_to_bkey k) Tagging.blank) as [E|]; [discriminate E|].
      apply (@get_fold_set_in _ _ _ _ ckey_to_bkey (tag_value m) k); [|exact I].
      intros k' _ E. now apply ckey_to_bkey_inj.
    + intros k I. rewrite get_set.
      destruct (eq_dec (ckey_to_bkey k) Tagging.blank) as [E|]; [discriminate E|].
      rewrite get_fold_set_other; [reflexivity|].
      intros k' I' E. apply ckey_to_bkey_inj in E. congruence.
  - intros acc [[x t] wt]. unfold Tagging.prob_entry, getitem, ckey_to_bkey.
    simpl.
    destruct (get _ (Tagging.bigramCount m)); simpl; [|reflexivity].
    destruct (get _ (Tagging.unigramTagCount m)); simpl; [|reflexivity].
    destruct (truediv _ _); reflexivity.
  - intros k I. destruct (counted_key n0 m k C Hn0 I) as (n & u & E & Eu & Hn & Hu).
    unfold getitem, tag_value, tag_count. rewrite E, Eu. cbn [bind].
    apply truediv_ok. lia.
Qed.

(** X16. After a successful training the probability pass of the POS model
    raises neither [KeyError] nor [ZeroDivisionError]: every counted key
    gets its count divided by the positive unigram count of its tag, a
    value larger than 0 and at most 1, the blank key gets 0, and no other
    key is stored. *)
Theorem tagging_probabilities_defined (lines : list string) (m : Tagging.model) :
  Tagging.train lines = Ok m ->
  exists bigramProb,
    Tagging.probabilities m = Ok bigramProb /\
    get Tagging.blank bigramProb = Some 0 /\
    forall x t wt,
      match get (x, t, wt) (Tagging.bigramCount m) with
      | Some n =>
          get (Tagging.key3 x t wt) bigramProb
          = Some (inject_Z n / inject_Z (tag_count m t)) /\
          0 < inject_Z n / inject_Z (tag_count m t) <= 1
      | None => get (Tagging.key3 x t wt) bigramProb = None
      end.
Proof.
  intros E. pose proof (tag_closed_trained lines m E) as C.
  assert (Hn0 : (0 <= Z.of_nat (List.length lines))%Z) by lia.
  destruct (tag_probabilities_table _ m C Hn0) as (bp & Ep & Eb & Hin & Hout).
  exists bp. split; [exact Ep|]. split; [exact Eb|]. intros x t wt.
  destruct (get (x, t, wt) (Tagging.bigramCount m)) as [n|] eqn:G.
  - pose proof (get_Some_keys _ _ _ _ G) as I.
    destruct (counted_key _ m (x, t, wt) C Hn0 I) as (n' & u & G' & Gu & Hn & Hu).
    pose proof (eq_trans (eq_sym G) G') as En. inversion En; subst n'.
    cbn [fst snd] in Gu.
    split.
    + pose proof (Hin (x, t, wt) I) as Ev. unfold tag_value in Ev.
      cbn [fst snd] in Ev.
      change (@get Tagging.ckey Z _ (x, t, wt) (Tagging.bigramCount m) = Some n) in G.
      rewrite G in Ev. exact Ev.
    + unfold tag_count. rewrite Gu. apply frac_range; lia.
  - apply (Hout (x, t, wt)). now apply get_None_keys.
Qed.

Lemma tagging_probabilities_defined_witness :
  exists m,
    Tagging.train ["a_N b_V"; "a_N"]%string = Ok m /\
    exists bigramProb,
      Tagging.probabilities m = Ok bigramProb /\
      get Tagging.blank bigramProb = Some 0 /\
      forall x t wt,
        match get (x, t, wt) (Tagging.bigramCount m) with
        | Some n =>
            get (Tagging.key3 x t wt) bigramProb
            = Some (inject_Z n / inject_Z (tag_count m t)) /\
            0 < inject_Z n / inject_Z (tag_count m t) <= 1
        | None => get (Tagging.key3 x t wt) bigramProb = None
        end.
Proof.
  eexists. split; [reflexivity|].
  apply (tagging_probabilities_defined ["a_N b_V"; "a_N"]%string). reflexivity.
Defined.

Lemma count_where_by_key (K : Type) `{EqDec K} (f : K -> bool) (d : dict K Z) :
  NoDup (keys d) ->
  Zsum (map (fun k => match get k d with Some n => n | None => 0%Z end)
          (filter f (keys d)))
  = count_where f d.
Proof.
  intros ND. unfold count_where.
  assert (G : forall d' : dict K Z,
             (forall k n, In (k, n) d' -> get k d = Some n) ->
             Zsum (map (fun k => match get k d with Some n => n | None => 0%Z end)
                     (filter f (keys d')))
             = Zsum (map snd (filter (fun kv => f (fst kv)) d'))).
  { induction d' as [|[k n] r IH]; intros Hd; simpl; [reflexivity|].
    assert (Hr : forall k0 n0, In (k0, n0) r -> get k0 d = Some n0)
      by (intros k0 n0 I; apply Hd; now right).
    destruct (f k); simpl.
    - rewrite (Hd k n) by now left. f_equal. now apply IH.
    - now apply IH. }
  apply G. intros k n I. now apply In_get.
Qed.

Lemma tag_key_sum (n0 : Z) (m : Tagging.model) (bigramProb : dict Tagging.bkey Q)
  (f : Tagging.ckey -> bool) (t wt : string) :
  tag_closed n0 m -> (0 <= n0)%Z ->
  Tagging.probabilities m = Ok bigramProb ->
  (forall k, f k = true -> snd (fst k) = t /\ snd k = wt) ->
  count_where f (Tagging.bigramCount m) = tag_count m t ->
  In t (keys (Tagging.unigramTagCount m)) ->
  Qsum (map (fun x => tag_stored bigramProb x t wt)
          (map (fun k : Tagging.ckey => fst (fst k))
             (filter f (keys (Tagging.bigramCount m))))) == 1.
Proof.
  intros C Hn0 Ep Hf Hsum It.
  destruct (tag_probabilities_table n0 m C Hn0) as (bp & Ep' & _ & Hin & _).
  rewrite Ep in Ep'. inversion Ep'; subst bp; clear Ep'.
  destruct C as (W & _ & _). destruct W as (Nu & Nb & Pu & Pb & Hk).
  rewrite map_map.
  rewrite Qsum_ext with
    (g := fun k : Tagging.ckey =>
            inject_Z (match get k (Tagging.bigramCount m) with
                      | Some n => n | None => 0%Z end)
            / inject_Z (tag_count m t)).
  2:{ intros k I. apply filter_In in I. destruct I as [I F].
      destruct (Hf k F) as [Et Ew]. destruct k as [[x t'] wt']. cbn [fst snd] in *.
      subst t' wt'. unfold tag_stored.
      change (Tagging.key3 x t wt) with (ckey_to_bkey (x, t, wt)).
      rewrite (Hin (x, t, wt) I). reflexivity. }
  rewrite Qsum_scaled, count_where_by_key by exact Nb.
  rewrite Hsum.
  assert (Hu : (0 < tag_count m t)%Z).
  { unfold tag_count. destruct (get t (Tagging.unigramTagCount m)) as [u|] eqn:Eu.
    - apply (Pu t). now apply get_In.
    - apply get_None_keys in Eu. contradiction. }
  unfold Qdiv. apply Qmult_inv_r. unfold Qeq. simpl. lia.
Qed.

Lemma transition_key_true (t : string) (k : Tagging.ckey) :
  transition_key t k = true -> snd (fst k) = t /\ snd k = "T"%string.
Proof.
  unfold transition_key. intros F. apply andb_true_iff in F. destruct F as [F1 F2].
  destruct (string_dec (snd (fst k)) t); [|discriminate].
  destruct (string_dec (snd k) "T"); [|discriminate]. auto.
Qed.

Lemma emission_key_true (t : string) (k : Tagging.ckey) :
  emission_key t k = true -> snd (fst k) = t /\ snd k = "W"%string.
Proof.
  unfold emission_key. intros F. apply andb_true_iff in F. destruct F as [F1 F2].
  destruct (string_dec (snd (fst k)) t); [|discriminate].
  destruct (string_dec (snd k) "W"); [|discriminate]. auto.
Qed.

(** X17. After training, for every tag [t] of the model the transition
    probabilities [P(x | t)] over the tags [x] seen after [t] add up to
    one, the end marker among them; for every tag other than the start
    marker the emission probabilities [P(w | t)] over the words seen with
    [t] add up to one as well. *)
Theorem tagging_probabilities_sum_to_one (lines : list string) (m : Tagging.model)
  (bigramProb : dict Tagging.bkey Q) (t : string) :
  Tagging.train lines = Ok m ->
  Tagging.probabilities m = Ok bigramProb ->
  In t (keys (Tagging.unigramTagCount m)) ->
  Qsum (map (fun x => tag_stored bigramProb x t "T") (successors m t)) == 1 /\
  (t <> Tagging.START_OF_SENTENCE ->
   Qsum (map (fun w => tag_stored bigramProb w t "W") (words_of m t)) == 1).
Proof.
  intros E Ep It. pose proof (tag_closed_trained lines m E) as C.
  assert (Hn0 : (0 <= Z.of_nat (List.length lines))%Z) by lia.
  pose proof C as (_ & Ht & He). split.
  - apply (tag_key_sum _ m bigramProb (transition_key t) t "T"%string C Hn0 Ep);
      [apply transition_key_true | apply Ht | exact It].
  - intros Hs.
    apply (tag_key_sum _ m bigramProb (emission_key t) t "W"%string C Hn0 Ep);
      [apply emission_key_true | | exact It].
    specialize (He t). unfold emissions_of in He.
    destruct (string_dec t Tagging.START_OF_SENTENCE); [contradiction | lia].
Qed.

Lemma tagging_probabilities_sum_to_one_witness :
  exists m bigramProb,
    Tagging.train ["a_N b_V"; "a_N c_N"]%string = Ok m /\
    Tagging.probabilities m = Ok bigramProb /\
    Qsum (map (fun x => tag_stored bigramProb x "N" "T") (successors m "N")) == 1 /\
    ("N"%string <> Tagging.START_OF_SENTENCE ->
     Qsum (map (fun w => tag_stored bigramProb w "N" "W") (words_of m "N")) == 1).
Proof.
  eexists. eexists. split; [reflexivity|]. split; [reflexivity|].
  apply (tagging_probabilities_sum_to_one ["a_N b_V"; "a_N c_N"]%string).
  - reflexivity.
  - reflexivity.
  - vm_compute. tauto.
Defined.

(** *** The tables of the decoder *)

Lemma positive_table_set (k : string * option string) (v : Q) (t : Tagging.table) :
  positive_table t -> 0 < v -> positive_table (set k v t).
Proof.
  intros P Hv k' v' I. apply In_set_value in I. destruct I as [->|I]; [exact Hv|].
  now apply (P k').
Qed.

Lemma tag_step_positive (bigramProb : dict Tagging.bkey Q) (last : bool)
  (word prevTag : string) (prev_prob : Q) (cur_prob : Tagging.table) (tag : string) :
  (forall x t wt v, get (Tagging.key3 x t wt) bigramProb = Some v -> 0 < v) ->
  0 < prev_prob -> positive_table cur_prob ->
  positive_table (Tagging.tag_step bigramProb last word prevTag prev_prob cur_prob tag).
Proof.
  intros Hb Hp P. unfold Tagging.tag_step.
  destruct (get (Tagging.key3 word tag "W") bigramProb) as [e|] eqn:Ee; [|exact P].
  destruct (get (Tagging.key3 tag prevTag "T") bigramProb) as [t|] eqn:Et; [|exact P].
  pose proof (Hb _ _ _ _ Ee) as He. pose proof (Hb _ _ _ _ Et) as Ht.
  assert (H1 : 0 < prev_prob * e * t).
  { apply Qmult_lt_0_compat; [apply Qmult_lt_0_compat|]; assumption. }
  destruct last.
  - destruct (get (Tagging.key3 Tagging.END_OF_SENTENCE tag "T") bigramProb)
      as [f|] eqn:Ef; [|exact P].
    apply positive_table_set; [exact P|].
    apply Qmult_lt_0_compat; [exact H1 | exact (Hb _ _ _ _ Ef)].
  - now apply positive_table_set.
Qed.

Lemma tag_steps_positive (bigramProb : dict Tagging.bkey Q) (last : bool)
  (word prevTag : string) (prev_prob : Q) (word_tags : list string) :
  (forall x t wt v, get (Tagging.key3 x t wt) bigramProb = Some v -> 0 < v) ->
  0 < prev_prob ->
  forall cur_prob,
    positive_table cur_prob ->
    positive_table
      (fold_left (Tagging.tag_step bigramProb last word prevTag prev_prob)
         word_tags cur_prob).
Proof.
  intros Hb Hp. induction word_tags as [|g r IH]; intros cur P; simpl; [exact P|].
  apply IH. now apply tag_step_positive.
Qed.

Lemma last_table_positive (prob : list Tagging.table) :
  Forall positive_table prob -> positive_table (Tagging.last_table prob).
Proof.
  unfold Tagging.last_table. induction 1 as [|t r Ht Hr IH]; simpl.
  - intros k v [].
  - destruct r; [exact Ht | exact IH].
Qed.

Lemma seen_word_steps_positive (bigramProb : dict Tagging.bkey Q) (last : bool)
  (word : string) (word_tags : list string) (prob : list Tagging.table)
  (l : list (string * option string)) :
  (forall x t wt v, get (Tagging.key3 x t wt) bigramProb = Some v -> 0 < v) ->
  Forall positive_table prob ->
  forall cur cur',
    positive_table cur ->
    foldM (Tagging.seen_word_step bigramProb last word word_tags prob) l cur = Ok cur' ->
    positive_table cur'.
Proof.
  intros Hb Hp. induction l as [|[q pq] r IH]; intros cur cur' P E; cbn [foldM] in E.
  - now inversion E; subst.
  - unfold Tagging.seen_word_step at 1 in E. unfold getitem in E.
    destruct (get (q, pq) (Tagging.last_table prob)) as [pv|] eqn:G; [|discriminate].
    cbn [bind] in E. refine (IH _ cur' _ E).
    apply tag_steps_positive; [exact Hb | | exact P].
    apply (last_table_positive prob Hp (q, pq)). now apply get_In.
Qed.

Lemma unseen_word_steps_keep (most_common_tag : string) (prob : list Tagging.table)
  (l : list (string * option string)) (cur cur' : Tagging.table) :
  foldM (Tagging.unseen_word_step most_common_tag prob) l cur = Ok cur' -> cur' = cur.
Proof.
  destruct l as [|[q pq] r]; cbn [foldM]; intros E.
  - now inversion E.
  - discriminate.
Qed.

Lemma word_steps_positive (m : Tagging.model) (bigramProb : dict Tagging.bkey Q)
  (n : nat) (most_common_tag : string) (l : list (nat * string)) :
  (forall x t wt v, get (Tagging.key3 x t wt) bigramProb = Some v -> 0 < v) ->
  forall prob v prob' v',
    Forall positive_table prob ->
    foldM (Tagging.word_step m bigramProb n most_common_tag) l (prob, v)
    = Ok (prob', v') ->
    Forall positive_table prob'.
Proof.
  intros Hb. induction l as [|[i w] r IH]; intros prob v prob' v' P E; cbn [foldM] in E.
  - now inversion E; subst.
  - unfold Tagging.word_step at 1 in E.
    assert (Pe : positive_table []) by (intros k x []).
    destruct (get w (Tagging.tags m)) as [word_tags|].
    + destruct (foldM (Tagging.seen_word_step bigramProb (i =? n - 1)%nat w word_tags prob)
                  (keys (Tagging.last_table prob)) []) as [cur|] eqn:Ec; [|discriminate].
      cbn [bind] in E. refine (IH _ (Some w) prob' v' _ E).
      apply Forall_app. split; [exact P|]. constructor; [|constructor].
      apply (seen_word_steps_positive bigramProb _ w word_tags prob _ Hb P [] cur Pe Ec).
    + destruct (foldM (Tagging.unseen_word_step most_common_tag prob)
                  (keys (Tagging.last_table prob)) []) as [cur|] eqn:Ec; [|discriminate].
      cbn [bind] in E. refine (IH _ (Some w) prob' v' _ E).
      apply Forall_app. split; [exact P|]. constructor; [|constructor].
      now rewrite (unseen_word_steps_keep most_common_tag prob _ [] cur Ec).
Qed.

(** X18. With the probabilities of a trained model, every entry of every
    table that the decoder builds for a sentence is larger than zero: a
    candidate with a zero factor is never stored. *)
Theorem decoder_tables_are_positive (lines : list string) (m : Tagging.model)
  (bigramProb : dict Tagging.bkey Q) (n : nat) (most_common_tag : string)
  (l : list (nat * string)) (v v' : option string) (prob : list Tagging.table) :
  Tagging.train lines = Ok m ->
  Tagging.probabilities m = Ok bigramProb ->
  foldM (Tagging.word_step m bigramProb n most_common_tag) l
    ([[((Tagging.START_OF_SENTENCE, None), 1)]], v) = Ok (prob, v') ->
  Forall positive_table prob.
Proof.
  intros E Ep El. pose proof (tag_closed_trained lines m E) as C.
  assert (Hn0 : (0 <= Z.of_nat (List.length lines))%Z) by lia.
  destruct (tag_probabilities_table _ m C Hn0) as (bp & Ep' & _ & Hin & Hout).
  rewrite Ep in Ep'. inversion Ep'; subst bp; clear Ep'.
  assert (Hb : forall x t wt q, get (Tagging.key3 x t wt) bigramProb = Some q -> 0 < q).
  { intros x t wt q G.
    change (Tagging.key3 x t wt) with (ckey_to_bkey (x, t, wt)) in G.
    destruct (in_dec eq_dec (x, t, wt) (keys (Tagging.bigramCount m))) as [I|I].
    - rewrite (Hin _ I) in G. inversion G; subst q.
      destruct (counted_key _ m (x, t, wt) C Hn0 I) as (c & u & G' & Gu & Hc & Hu).
      unfold tag_value, tag_count. rewrite G'. cbn [fst snd] in *. rewrite Gu.
      apply frac_range; lia.
    - rewrite (Hout _ I) in G. discriminate. }
  refine (word_steps_positive m bigramProb n most_common_tag l Hb _ v prob v' _ El).
  constructor; [|constructor]. intros k q [I|[]]. inversion I; subst.
    reflexivity.
Qed.

Lemma decoder_tables_are_positive_witness :
  exists m bigramProb prob v',
    Tagging.train ["a_N b_V"; "a_N c_N"]%string = Ok m /\
    Tagging.probabilities m = Ok bigramProb /\
    foldM (Tagging.word_step m bigramProb 2 "N")
      [(0%nat, "a"%string); (1%nat, "b"%string)]
      ([[((Tagging.START_OF_SENTENCE, None), 1)]], None) = Ok (prob, v') /\
    Forall positive_table prob.
Proof.
  eexists. eexists. eexists. eexists.
  split; [reflexivity|]. split; [reflexivity|]. split; [reflexivity|].
  eapply (decoder_tables_are_positive ["a_N b_V"; "a_N c_N"]%string _ _ 2%nat
           "N"%string [(0%nat, "a"%string); (1%nat, "b"%string)] None (Some "b"%string));
    reflexivity.
Defined.

(** *** The printed line of the decoder *)

Lemma word_steps_variable (m : Tagging.model) (bigramProb : dict Tagging.bkey Q)
  (n : nat) (most_common_tag : string) (l : list (nat * string)) :
  forall prob v prob' v',
    foldM (Tagging.word_step m bigramProb n most_common_tag) l (prob, v)
    = Ok (prob', v') ->
    v' = fold_left (fun _ iw => Some (snd iw)) l v.
Proof.
  induction l as [|[i w] r IH]; intros prob v prob' v' E; cbn [foldM] in E.
  - now inversion E.
  - unfold Tagging.word_step at 1 in E.
    destruct (match get w (Tagging.tags m) with Some _ => _ | None => _ end)
      as [cur|]; [|discriminate].
    cbn [bind] in E. cbn [fold_left snd]. exact (IH _ _ _ _ E).
Qed.

Lemma last_word_of_sentence (words : list string) :
  words <> [] ->
  forall a v,
    fold_left (fun (_ : option string) (iw : nat * string) => Some (snd iw))
      (combine (seq a (List.length words)) words) v
    = Some (last words ""%string).
Proof.
  induction words as [|x r IH]; intros Hn a v; [congruence|].
  cbn [List.length seq combine fold_left snd].
  destruct r as [|y r']; [reflexivity|].
  rewrite IH by discriminate. reflexivity.
Qed.

Lemma back_step_prepends (words : list string) (prob : list Tagging.table)
  (most_common_tag : string) (q q' : option string) (out out' : string) (i : nat) :
  Tagging.back_step words prob most_common_tag (q, out) i = Ok (q', out') ->
  (i < List.length words)%nat /\
  exists tag, out' = (nth i words "" ++ "_" ++ tag ++ " " ++ out)%string.
Proof.
  unfold Tagging.back_step, index.
  destruct (nth_error words i) as [w|] eqn:Ew; [|discriminate].
  assert (Hi : (i < List.length words)%nat)
    by (apply nth_error_Some; congruence).
  rewrite (nth_error_nth _ _ ""%string Ew).
  destruct (nth_error prob (i + 1)) as [word_prob|]; [|discriminate].
  cbn [bind].
  destruct (filter _ (keys word_prob)) as [|k0 r].
  - destruct q as [best_tag|]; [|discriminate].
    intros E. inversion E; subst. split; [exact Hi|]. eexists. reflexivity.
  - cbn [max_by bind]. destruct (max_from _ k0 r) as [best_tag pq].
    intros E. inversion E; subst. split; [exact Hi|]. eexists. reflexivity.
Qed.

Lemma tagged_cons (w t : string) (L : list (string * string)) :
  L <> [] ->
  (w ++ "_" ++ t ++ " " ++ String.concat " " (map tagged L))%string
  = String.concat " " (map tagged ((w, t) :: L)).
Proof.
  intros HL. destruct L as [|y l]; [congruence|].
  cbn [map].
  change (String.concat " " (tagged (w, t) :: tagged y :: map tagged l))
    with (tagged (w, t) ++ " " ++ String.concat " " (tagged y :: map tagged l))%string.
  generalize (String.concat " " (tagged y :: map tagged l)). intros R.
  unfold tagged. cbn [fst snd]. now rewrite !string_app_assoc.
Qed.

Lemma back_steps_prepend (words : list string) (prob : list Tagging.table)
  (most_common_tag : string) (k : nat) :
  forall q L q' out',
    L <> [] ->
    foldM (Tagging.back_step words prob most_common_tag) (rev (seq 0 k))
      (q, String.concat " " (map tagged L)) = Ok (q', out') ->
    (k <= List.length words)%nat /\
    exists ts,
      List.length ts = k /\
      out' = String.concat " " (map tagged (combine (firstn k words) ts ++ L)).
Proof.
  induction k as [|k IH]; intros q L q' out' HL E.
  - cbn [seq rev foldM] in E. inversion E; subst. split; [lia|].
    exists []. split; reflexivity.
  - rewrite seq_S, rev_app_distr in E. cbn [rev app foldM Nat.add] in E.
    destruct (Tagging.back_step words prob most_common_tag
                (q, String.concat " " (map tagged L)) k) as [[q1 out1]|] eqn:E1;
      [|discriminate].
    cbn [bind] in E.
    destruct (back_step_prepends _ _ _ _ _ _ _ _ E1) as (Hk & tag & Eo).
    rewrite tagged_cons in Eo by exact HL. subst out1.
    destruct (IH q1 ((nth k words ""%string, tag) :: L) q' out') as (_ & ts & Lts & Eout);
      [discriminate | exact E |].
    split; [lia|]. exists (ts ++ [tag]). split.
    + rewrite length_app. simpl. lia.
    + rewrite (firstn_snoc _ words k ""%string Hk).
      rewrite combine_snoc by (rewrite length_firstn; lia).
      rewrite <- app_assoc. exact Eout.
Qed.

Lemma decode_output_aligned (m : Tagging.model) (bigramProb : dict Tagging.bkey Q)
  (words : list string) (out : string) :
  words <> [] ->
  Tagging.decode m bigramProb words = Ok out ->
  exists ts,
    List.length ts = List.length words /\
    out = String.concat " " (map tagged (combine words ts)).
Proof.
  intros Hn. unfold Tagging.decode. cbv zeta.
  destruct (max_by _ (keys (Tagging.unigramTagCount m))) as [mct|]; [|cbn [bind]; discriminate].
  cbn [bind].
  destruct (foldM (Tagging.word_step m bigramProb (List.length words) mct) _ _)
    as [[prob wv]|] eqn:Ef; [|cbn [bind]; discriminate].
  cbn [bind].
  apply word_steps_variable in Ef. rewrite last_word_of_sentence in Ef by exact Hn.
  subst wv.
  destruct (max_by _ (keys (Tagging.last_table prob))) as [[best_tag pq]|];
    [|cbn [bind]; discriminate].
  cbn [bind].
  destruct (foldM (Tagging.back_step words prob mct)
              (rev (seq 0 (List.length words - 1))) _) as [[q' out']|] eqn:Eb;
    [|cbn [bind]; discriminate].
  cbn [bind snd]. intros E. inversion E; subst out'; clear E.
  change (last words "" ++ "_" ++ best_tag)%string
    with (String.concat " " (map tagged [(last words ""%string, best_tag)])) in Eb.
  apply back_steps_prepend in Eb; [|cbn [bind]; discriminate].
  destruct Eb as (_ & ts & Lts & Eout).
  exists (ts ++ [best_tag]). split.
  - rewrite length_app. simpl. destruct words; [congruence|]. simpl in *. lia.
  - rewrite Eout. rewrite <- combine_snoc.
    + replace (List.length words - 1)%nat with (pred (List.length words)) by lia.
      rewrite <- removelast_firstn_len, <- app_removelast_last by exact Hn.
      reflexivity.
    + rewrite length_firstn. lia.
Qed.

(** X19. Whenever the tagger prints a line for a test sentence with at
    least one word, the line holds every word of the sentence, in order and
    unchanged, each followed by an underscore and one tag, with single
    spaces between the items. *)
Theorem tagger_output_is_aligned (training_lines rest : list string)
  (sentence out : string) :
  split sentence <> [] ->
  Tagging.main training_lines (sentence :: rest) = Ok out ->
  exists ts,
    List.length ts = List.length (split sentence) /\
    out = String.concat " " (map tagged (combine (split sentence) ts)).
Proof.
  intros Hn. unfold Tagging.main.
  destruct (Tagging.train training_lines) as [m|]; [|cbn [bind]; discriminate]. cbn [bind].
  destruct (Tagging.probabilities m) as [bigramProb|]; [|cbn [bind]; discriminate].
  cbn [bind index nth_error]. now apply decode_output_aligned.
Qed.

Lemma tagger_output_is_aligned_witness :
  exists ts,
    List.length ts = List.length (split "The dog runs") /\
    "The_D dog_N runs_V"%string
    = String.concat " " (map tagged (combine (split "The dog runs") ts)).
Proof.
  apply (tagger_output_is_aligned ["The_D dog_N runs_V"%string] []
           "The dog runs"%string "The_D dog_N runs_V"%string).
  - discriminate.
  - vm_compute. reflexivity.
Defined.

(** *** The tag sets and the variable [word] after training *)

(** Induction over the tokens of the corpus in reading order, for a
    property of the tag sets and of the variable [word]. *)
Lemma train_induct (P : list string -> Tagging.model -> Prop) :
  P [] Tagging.empty_model ->
  (forall toks m q token m' q',
     P toks m -> Tagging.train_token (m, q) token = Ok (m', q') ->
     P (toks ++ [token]) m') ->
  (forall toks m u b,
     P toks m -> P toks (Tagging.Model (Tagging.tags m) u b (Tagging.last_word m))) ->
  forall lines m,
    Tagging.train lines = Ok m -> P (flat_map split lines) m.
Proof.
  intros P0 Ptok Pend.
  assert (Inner : forall toks toks0 m0 q m1 q1,
             P toks0 m0 ->
             foldM Tagging.train_token toks (m0, q) = Ok (m1, q1) ->
             P (toks0 ++ toks) m1).
  { induction toks as [|t r IH]; intros toks0 m0 q m1 q1 H E; cbn [foldM] in E.
    - inversion E; subst. now rewrite app_nil_r.
    - destruct (Tagging.train_token (m0, q) t) as [[m' q']|] eqn:E1; [|discriminate].
      cbn [bind] in E.
      replace (toks0 ++ t :: r) with ((toks0 ++ [t]) ++ r)
        by (rewrite <- app_assoc; reflexivity).
      apply (IH _ m' q' m1 q1); [|exact E].
      now apply (Ptok toks0 m0 q t m' q'). }
  assert (Outer : forall lines toks0 m0 m,
             P toks0 m0 ->
             foldM Tagging.train_sentence lines m0 = Ok m ->
             P (toks0 ++ flat_map split lines) m).
  { induction lines as [|s r IH]; intros toks0 m0 m H E; cbn [foldM] in E.
    - inversion E; subst. simpl. now rewrite app_nil_r.
    - destruct (Tagging.train_sentence m0 s) as [m1|] eqn:E1; [|discriminate].
      cbn [bind] in E. cbn [flat_map]. rewrite app_assoc.
      apply (IH _ m1 m); [|exact E].
      unfold Tagging.train_sentence in E1.
      destruct (foldM Tagging.train_token (split s) (m0, Tagging.START_OF_SENTENCE))
        as [[m' q']|] eqn:E2; [|discriminate].
      cbn [bind] in E1. inversion E1; subst. apply Pend.
      now apply (Inner (split s) toks0 m0 Tagging.START_OF_SENTENCE m' q'). }
  intros lines m E. apply (Outer lines [] Tagging.empty_model m P0 E).
Qed.

Lemma train_token_parts (m m' : Tagging.model) (q q' token : string) :
  Tagging.train_token (m, q) token = Ok (m', q') ->
  exists rest,
    split_on "_" token = word_part token :: q' :: rest /\
    Tagging.last_word m' = Some (word_part token) /\
    Tagging.tags m'
    = match get (word_part token) (Tagging.tags m) with
      | Some s => set (word_part token) (Tagging.set_add q' s) (Tagging.tags m)
      | None => set (word_part token) (Tagging.set_of_str q') (Tagging.tags m)
      end.
Proof.
  rewrite train_token_inv. unfold word_part.
  destruct (split_on "_" token) as [|word [|g rest]]; try discriminate.
  cbn [fst snd hd]. intros E. inversion E; subst. exists rest. auto.
Qed.

(** A word that is no word of the corpus has no tag set. *)
Lemma word_outside_corpus (lines : list string) (m : Tagging.model) (w : string) :
  Tagging.train lines = Ok m ->
  (forall token, In token (flat_map split lines) -> word_part token <> w) ->
  get w (Tagging.tags m) = None.
Proof.
  intros E.
  apply (train_induct
           (fun toks m => (forall token, In token toks -> word_part token <> w) ->
                          get w (Tagging.tags m) = None)); [| | |exact E].
  - reflexivity.
  - intros toks m0 q token m' q' IH Et Hw.
    destruct (train_token_parts _ _ _ _ _ Et) as (rest & _ & _ & ->).
    assert (Hn : w <> word_part token).
    { intros ->. apply (Hw token); [|reflexivity].
      apply in_or_app. right. now left. }
    assert (G : get w (Tagging.tags m0) = None).
    { apply IH. intros t I. apply Hw. apply in_or_app. now left. }
    destruct (get (word_part token) (Tagging.tags m0)); rewrite get_set;
      (destruct (eq_dec w (word_part token)); [contradiction | exact G]).
  - intros toks m0 u b IH. exact IH.
Qed.

(** X20. A test sentence with a word that is no word of the training
    corpus never gets an output: the tagger raises, whatever the other
    words are. The branch that is meant to give such a word the most
    common tag cannot complete. *)
Theorem word_outside_corpus_gets_no_output (training_lines rest : list string)
  (sentence w : string) :
  In w (split sentence) ->
  (forall token, In token (flat_map split training_lines) -> word_part token <> w) ->
  exists e, Tagging.main training_lines (sentence :: rest) = Raise e.
Proof.
  intros I Hw. unfold Tagging.main.
  destruct (Tagging.train training_lines) as [m|e] eqn:E; [|exists e; reflexivity].
  cbn [bind].
  destruct (Tagging.probabilities m) as [bigramProb|e]; [|exists e; reflexivity].
  cbn [bind index nth_error].
  apply (unseen_word_always_raises m bigramProb (split sentence) w I).
  exact (word_outside_corpus training_lines m w E Hw).
Qed.

Lemma word_outside_corpus_gets_no_output_witness :
  exists e,
    Tagging.main ["a_N b_V"; "a_N"]%string ["a c"%string] = Raise e.
Proof.
  apply (word_outside_corpus_gets_no_output ["a_N b_V"; "a_N"]%string []
           "a c"%string "c"%string).
  - vm_compute. tauto.
  - intros token I. vm_compute in I.
    destruct I as [<-|[<-|[<-|[]]]]; vm_compute; discriminate.
Defined.

Lemma set_of_one_letter (t : string) :
  String.length t = 1%nat -> Tagging.set_of_str t = [t].
Proof.
  destruct t as [|c [|c' r]]; simpl; try discriminate. reflexivity.
Qed.

Lemma In_set_add (x t : string) (s : Tagging.str_set) :
  In t (Tagging.set_add x s) <-> In t s \/ t = x.
Proof.
  unfold Tagging.set_add. destruct (in_dec string_dec x s) as [I|I].
  - split; [auto | intros [H| ->]; auto].
  - rewrite in_app_iff. simpl. split; intros; intuition congruence.
Qed.

(** X21. When every tag of the corpus is one character long, the tag set
    of a word after training holds exactly the tags that the corpus pairs
    with the word. *)
Theorem one_letter_tag_sets_are_observed (lines : list string) (m : Tagging.model) :
  Tagging.train lines = Ok m ->
  one_letter_tags (flat_map split lines) ->
  forall w t, In t (tags_of m w) <-> In t (Tagging.observed_tags w lines).
Proof.
  intros E.
  apply (train_induct
           (fun toks m => one_letter_tags toks ->
                          forall w t, In t (tags_of m w) <-> In t (tags_in w toks)));
    [| | |exact E].
  - intros _ w t. unfold tags_of. simpl. tauto.
  - intros toks m0 q token m' q' IH Et H1 w t.
    destruct (train_token_parts _ _ _ _ _ Et) as (rest & Es & _ & Etags).
    assert (H0 : one_letter_tags toks).
    { intros tk I. apply H1. apply in_or_app. now left. }
    assert (Hq : String.length q' = 1%nat).
    { specialize (H1 token). rewrite Es in H1. apply H1.
      apply in_or_app. right. now left. }
    specialize (IH H0 w t).
    unfold tags_in. rewrite flat_map_app, in_app_iff. fold (tags_in w toks).
    rewrite <- IH. cbn [flat_map]. rewrite Es, app_nil_r.
    unfold tags_of in *. rewrite Etags.
    destruct (get (word_part token) (Tagging.tags m0)) as [s|] eqn:G; rewrite get_set;
      change (eq_dec w (word_part token)) with (string_dec w (word_part token));
      destruct (string_dec w (word_part token)) as [->|Hn];
      destruct (string_dec (word_part token) (word_part token)) as [_|Hc];
      try congruence.
    + rewrite G, In_set_add. simpl. intuition congruence.
    + destruct (string_dec (word_part token) w); [congruence|]. simpl. tauto.
    + rewrite G, set_of_one_letter by exact Hq. simpl. intuition congruence.
    + destruct (string_dec (word_part token) w); [congruence|]. simpl. tauto.
  - intros toks m0 u b IH. exact IH.
Qed.

Lemma one_letter_tag_sets_are_observed_witness :
  exists m,
    Tagging.train ["a_N b_V"; "a_V"]%string = Ok m /\
    forall w t, In t (tags_of m w)
                <-> In t (Tagging.observed_tags w ["a_N b_V"; "a_V"]%string).
Proof.
  eexists. split; [reflexivity|].
  apply (one_letter_tag_sets_are_observed ["a_N b_V"; "a_V"]%string).
  - reflexivity.
  - intros token I. vm_compute in I.
    destruct I as [<-|[<-|[<-|[]]]]; reflexivity.
Defined.

Lemma last_word_trained (lines : list string) (m : Tagging.model) :
  Tagging.train lines = Ok m ->
  Tagging.last_word m
  = match rev (flat_map split lines) with
    | token :: _ => Some (word_part token)
    | [] => None
    end.
Proof.
  intros E.
  apply (train_induct
           (fun toks m => Tagging.last_word m
                          = match rev toks with
                            | token :: _ => Some (word_part token)
                            | [] => None
                            end)); [| | |exact E].
  - reflexivity.
  - intros toks m0 q token m' q' _ Et. rewrite rev_unit.
    destruct (train_token_parts _ _ _ _ _ Et) as (rest & _ & El & _). exact El.
  - intros toks m0 u b IH. exact IH.
Qed.

Lemma start_tag_counted (lines : list string) (m : Tagging.model) :
  Tagging.train lines = Ok m -> lines <> [] ->
  keys (Tagging.unigramTagCount m) <> [].
Proof.
  intros E Hn. destruct (tag_closed_trained lines m E) as (W & _ & He).
  destruct W as (_ & _ & _ & Pb & _).
  specialize (He Tagging.START_OF_SENTENCE).
  destruct (string_dec Tagging.START_OF_SENTENCE Tagging.START_OF_SENTENCE);
    [|congruence].
  pose proof (count_where_nonneg (emission_key Tagging.START_OF_SENTENCE)
                (Tagging.bigramCount m) Pb) as H0.
  unfold emissions_of in He. unfold tag_count in He.
  destruct (get Tagging.START_OF_SENTENCE (Tagging.unigramTagCount m)) as [u|] eqn:G.
  - apply get_Some_keys in G. intros E0. rewrite E0 in G. destruct G.
  - destruct lines; [congruence|]. simpl List.length in He. lia.
Qed.

(** X22. On a test line without words the tagger, trained on a corpus of
    at least one line, does not fail: it prints the word of the last
    training token, which the variable [word] still holds, tagged with the
    start marker. When the corpus has no token at all, [word] was never
    assigned and the script raises [NameError]. *)
Theorem blank_test_line_prints_stale_word (lines rest : list string)
  (sentence : string) (m : Tagging.model) :
  Tagging.train lines = Ok m ->
  lines <> [] ->
  split sentence = [] ->
  Tagging.main lines (sentence :: rest)
  = match rev (flat_map split lines) with
    | token :: _ => Ok (word_part token ++ "_" ++ Tagging.START_OF_SENTENCE)%string
    | [] => Raise NameError
    end.
Proof.
  intros E Hn Hs. unfold Tagging.main. rewrite E. cbn [bind].
  pose proof (tag_closed_trained lines m E) as C.
  assert (Hn0 : (0 <= Z.of_nat (List.length lines))%Z) by lia.
  destruct (tag_probabilities_table _ m C Hn0) as (bp & -> & _).
  cbn [bind index nth_error]. rewrite Hs.
  unfold Tagging.decode. cbv zeta.
  pose proof (start_tag_counted lines m E Hn) as Hk.
  destruct (keys (Tagging.unigramTagCount m)) as [|k r]; [congruence|].
  cbn [max_by bind List.length seq combine foldM].
  rewrite (last_word_trained lines m E).
  destruct (rev (flat_map split lines)) as [|token r']; reflexivity.
Qed.

Lemma blank_test_line_prints_stale_word_witness :
  Tagging.main ["a_N b_V"; "a_N c_N"]%string ["  "%string]
  = Ok "c_<s>"%string.
Proof.
  eapply (blank_test_line_prints_stale_word ["a_N b_V"; "a_N c_N"]%string []
            "  "%string).
  - reflexivity.
  - discriminate.
  - reflexivity.
Defined.

(** ** Further properties of the matrix Viterbi decoder *)

(** The run of the script on a sentence of known words with at least one
    state: what it returns, in terms of the lattice. *)
Lemma viterbi_main_runs (A B : Viterbi.matrix) (tags observations : list string)
  (sentence : string) (more : list string) :
  let words := split sentence in
  let N := List.length tags in
  let T := List.length words in
  (0 < N)%nat -> (0 < T)%nat ->
  (forall w, In w words -> In w observations) ->
  exists o lat,
    List.length o = T /\
    Viterbi.mapM (fun obs => Viterbi.list_index obs observations) words = Ok o /\
    (forall s, (s < N)%nat ->
               Viterbi.v_at lat s 0
               = Viterbi.at2 A 0 s * Viterbi.at2 B s (nth 0%nat o 0%nat)) /\
    (forall t s, (1 <= t < T)%nat -> (s < N)%nat ->
       (Viterbi.bt_at lat s t < N)%nat /\
       Viterbi.v_at lat s t = Viterbi.candidate A B lat o s t (Viterbi.bt_at lat s t) /\
       (forall s', (s' < N)%nat ->
                   Viterbi.candidate A B lat o s t s' <= Viterbi.v_at lat s t)) /\
    let c := nth (T - 1) (fst lat) [] in
    let best := Viterbi.vargmax c in
    (best < N)%nat /\
    Viterbi.vmax c = Viterbi.v_at lat best (T - 1) /\
    (forall s, (s < N)%nat -> Viterbi.v_at lat s (T - 1) <= Viterbi.vmax c) /\
    Viterbi.main A B tags observations (sentence :: more)
    = Ok (Viterbi.vmax c,
          Viterbi.render tags words
            (Viterbi.path_before (snd lat) (T - 1) best ++ [best])).
Proof.
  intros words N T HN HT Hin.
  destruct (mapM_exists _ _ (fun obs => Viterbi.list_index obs observations) words)
    as (o & Eo); [intros w I; now apply list_index_in, Hin|].
  pose proof (mapM_length _ _ _ _ _ Eo) as Lo. fold T in Lo.
  destruct (lattice_spec A B N o HN) as (lat & Ef & Lv & Lcol & Hinit & Hrec); [lia|].
  rewrite Lo in *.
  exists o, lat. split; [exact Lo|]. split; [exact Eo|]. split; [exact Hinit|].
  split.
  { intros t s Ht Hs. destruct (Hrec t s Ht Hs) as (_ & R1 & R2 & R3 & _). auto. }
  cbv zeta.
  set (c := nth (T - 1) (fst lat) []).
  assert (Lc : List.length c = N) by (apply Lcol; lia).
  assert (Hc : c <> []) by (intros E; rewrite E in Lc; simpl in Lc; lia).
  destruct (vargmax_spec c Hc) as (Emax & Earg & H1 & H2 & H3 & H4).
  rewrite Lc in *.
  set (best := Viterbi.vargmax c) in *.
  set (last_word := nth (T - 1) words ""%string).
  destruct (back_steps words tags (snd lat) N (T - 1) eq_refl) with
    (k := (T - 1)%nat) (tag := best) (L := [Viterbi.item tags (last_word, best)])
    as (s0 & Eback).
  { intros t s Ht Hs. destruct (Hrec t s) as (Hl & Hb & _); [lia | exact Hs |].
    split; [exact Hl | exact Hb]. }
  { lia. } { fold T. lia. } { exact H1. } { discriminate. }
  split; [exact H1|]. split; [exact H2|]. split; [exact H3|].
  assert (Ew : words = firstn (T - 1) words ++ [last_word]).
  { unfold last_word. rewrite <- firstn_snoc by (fold T; lia).
    replace (S (T - 1)) with T by lia. unfold T. now rewrite firstn_all. }
  assert (Er : Viterbi.render tags words
                 (Viterbi.path_before (snd lat) (T - 1) best ++ [best])
               = String.concat " "
                   (map (Viterbi.item tags)
                      (combine (firstn (T - 1) words)
                         (Viterbi.path_before (snd lat) (T - 1) best))
                    ++ [Viterbi.item tags (last_word, best)])).
  { unfold Viterbi.render. f_equal. rewrite Ew at 1.
    rewrite combine_snoc
      by (rewrite length_path_before, length_firstn; fold T; lia).
    now rewrite map_app. }
  rewrite Er.
  unfold Viterbi.main. cbn [index nth_error bind]. fold words. rewrite Eo.
  cbn [bind]. fold N. rewrite Ef. cbn [bind]. rewrite Lo.
  destruct lat as [v bt]. cbn [fst snd] in *. fold c.
  rewrite Emax, Earg. cbn [bind]. fold best. fold T.
  rewrite (index_nth _ words (T - 1)%nat ""%string) by lia. cbn [bind].
  rewrite (index_nth _ tags best ""%string) by (fold N; lia). cbn [bind].
  fold last_word.
  change ((last_word ++ "_" ++ nth best tags "")%string)
    with (String.concat " " [Viterbi.item tags (last_word, best)]).
  rewrite Eback. cbn [bind snd]. reflexivity.
Qed.

Lemma joint_ext (A B : Viterbi.matrix) (o p q : list nat) (t : nat) :
  (forall k, (k <= t)%nat -> nth k p 0%nat = nth k q 0%nat) ->
  joint A B o p t = joint A B o q t.
Proof.
  induction t as [|t IH]; intros E; cbn [joint].
  - now rewrite (E 0%nat) by lia.
  - rewrite IH by (intros k Hk; apply E; lia).
    now rewrite (E t), (E (S t)) by lia.
Qed.

(** An entry of the lattice is the joint probability of the path its back
    pointers trace. *)
Lemma lattice_entry_is_joint (A B : Viterbi.matrix) (N T : nat) (o : list nat)
  (lat : Viterbi.lattice) :
  (forall s, (s < N)%nat ->
             Viterbi.v_at lat s 0
             = Viterbi.at2 A 0 s * Viterbi.at2 B s (nth 0%nat o 0%nat)) ->
  (forall t s, (1 <= t < T)%nat -> (s < N)%nat ->
     (Viterbi.bt_at lat s t < N)%nat /\
     Viterbi.v_at lat s t = Viterbi.candidate A B lat o s t (Viterbi.bt_at lat s t) /\
     (forall s', (s' < N)%nat ->
                 Viterbi.candidate A B lat o s t s' <= Viterbi.v_at lat s t)) ->
  forall t s, (t < T)%nat -> (s < N)%nat ->
    Viterbi.v_at lat s t
    = joint A B o (Viterbi.path_before (snd lat) t s ++ [s]) t.
Proof.
  intros Hinit Hrec. induction t as [|t IH]; intros s Ht Hs.
  - cbn [Viterbi.path_before app joint nth]. now apply Hinit.
  - destruct (Hrec (S t) s) as (Hb & Ev & _); [lia | exact Hs |].
    cbn [Viterbi.path_before joint]. fold (Viterbi.bt_at lat s (S t)).
    set (s' := Viterbi.bt_at lat s (S t)) in *.
    pose proof (length_path_before (snd lat) t s') as Lp.
    assert (Lp' : List.length (Viterbi.path_before (snd lat) t s' ++ [s']) = S t)
      by (rewrite length_app, Lp; simpl; lia).
    rewrite (joint_ext A B o _ (Viterbi.path_before (snd lat) t s' ++ [s']) t)
      by (intros k Hk; rewrite app_nth1 by lia; reflexivity).
    rewrite <- IH by (auto; lia).
    rewrite (app_nth2 _ _ _ (n := S t)) by lia. rewrite Lp', Nat.sub_diag.
    rewrite (app_nth1 _ _ _ (n := t)) by lia.
    rewrite (app_nth2 _ _ _ (n := t)) by lia. rewrite Lp, Nat.sub_diag.
    cbn [nth]. rewrite Ev. unfold Viterbi.candidate.
    replace (S t - 1)%nat with t by lia. reflexivity.
Qed.

Lemma at2_nonneg (m : Viterbi.matrix) (i j : nat) :
  nonneg m -> 0 <= Viterbi.at2 m i j.
Proof.
  intros H. unfold Viterbi.at2.
  assert (R : Forall (fun x => 0 <= x) (nth i m [])).
  { destruct (nth_in_or_default i m []) as [I|E]; [|rewrite E; constructor].
    unfold nonneg in H. rewrite Forall_forall in H. now apply H. }
  destruct (nth_in_or_default j (nth i m []) 0) as [I|E].
  - rewrite Forall_forall in R. now apply R.
  - rewrite E. apply Qle_refl.
Qed.

(** No state sequence is more probable than the lattice entry of its last
    state. *)
Lemma lattice_entry_bounds_joint (A B : Viterbi.matrix) (N T : nat) (o : list nat)
  (lat : Viterbi.lattice) (path : list nat) :
  nonneg A -> nonneg B ->
  (forall s, (s < N)%nat ->
             Viterbi.v_at lat s 0
             = Viterbi.at2 A 0 s * Viterbi.at2 B s (nth 0%nat o 0%nat)) ->
  (forall t s, (1 <= t < T)%nat -> (s < N)%nat ->
     (Viterbi.bt_at lat s t < N)%nat /\
     Viterbi.v_at lat s t = Viterbi.candidate A B lat o s t (Viterbi.bt_at lat s t) /\
     (forall s', (s' < N)%nat ->
                 Viterbi.candidate A B lat o s t s' <= Viterbi.v_at lat s t)) ->
  (forall t, (t < T)%nat -> (nth t path 0 < N)%nat) ->
  forall t, (t < T)%nat ->
    joint A B o path t <= Viterbi.v_at lat (nth t path 0%nat) t.
Proof.
  intros HA HB Hinit Hrec Hp. induction t as [|t IH]; intros Ht.
  - cbn [joint]. rewrite Hinit by (apply Hp; lia). apply Qle_refl.
  - cbn [joint].
    destruct (Hrec (S t) (nth (S t) path 0%nat)) as (_ & _ & Hmax);
      [lia | now apply Hp |].
    eapply Qle_trans; [|apply (Hmax (nth t path 0%nat)); apply Hp; lia].
    unfold Viterbi.candidate. replace (S t - 1)%nat with t by lia.
    apply Qmult_le_compat_r; [|now apply at2_nonneg].
    apply Qmult_le_compat_r; [|now apply at2_nonneg].
    apply IH. lia.
Qed.

(** X1. The probability the decoder prints is the joint probability,
    under the HMM, of the observations and of the state sequence it prints:
    the initial and emission probability of the first state, times the
    transition and emission probability of every later state. *)
Theorem viterbi_score_is_joint_probability (A B : Viterbi.matrix)
  (tags observations : list string) (sentence : string) (more : list string) :
  let words := split sentence in
  let N := List.length tags in
  let T := List.length words in
  Viterbi.shape A (S N) N ->
  Viterbi.shape B N (List.length observations) ->
  (0 < N)%nat -> (0 < T)%nat ->
  (forall w, In w words -> In w observations) ->
  exists o path score,
    Viterbi.mapM (fun obs => Viterbi.list_index obs observations) words = Ok o /\
    List.length path = T /\
    Viterbi.main A B tags observations (sentence :: more)
    = Ok (score, Viterbi.render tags words path) /\
    score = joint A B o path (T - 1).
Proof.
  intros words N T _ _ HN HT Hin.
  destruct (viterbi_main_runs A B tags observations sentence more HN HT Hin)
    as (o & lat & Lo & Eo & Hinit & Hrec & R).
  cbv zeta in R. destruct R as (Hb & Ev & _ & Em).
  fold words N T in Lo, Eo, Hinit, Hrec, Hb, Ev, Em.
  set (best := Viterbi.vargmax (nth (T - 1) (fst lat) [])) in *.
  exists o, (Viterbi.path_before (snd lat) (T - 1) best ++ [best]),
    (Viterbi.vmax (nth (T - 1) (fst lat) [])).
  split; [exact Eo|]. split.
  { rewrite length_app, length_path_before. simpl. lia. }
  split; [exact Em|].
  rewrite Ev. apply (lattice_entry_is_joint A B N T o lat Hinit Hrec); [lia | exact Hb].
Qed.

Lemma viterbi_score_is_joint_probability_witness :
  exists o path score,
    Viterbi.mapM (fun obs => Viterbi.list_index obs toy_observations)
      (split "x y") = Ok o /\
    List.length path = 2%nat /\
    Viterbi.main toy_A toy_B toy_tags toy_observations ["x y"%string]
    = Ok (score, Viterbi.render toy_tags (split "x y") path) /\
    score = joint toy_A toy_B o path 1.
Proof.
  apply (viterbi_score_is_joint_probability toy_A toy_B toy_tags
           toy_observations "x y"%string []).
  - split; [reflexivity | repeat constructor].
  - split; [reflexivity | repeat constructor].
  - simpl. lia.
  - simpl. lia.
  - simpl. intros w [<-|[<-|[]]]; simpl; tauto.
Defined.

(** X2. When no entry of [A] and [B] is negative, no sequence of [T]
    states has, together with the observations, a larger joint probability
    than the one the decoder prints. *)
Theorem viterbi_score_is_maximal (A B : Viterbi.matrix)
  (tags observations : list string) (sentence : string) (more : list string) :
  let words := split sentence in
  let N := List.length tags in
  let T := List.length words in
  Viterbi.shape A (S N) N ->
  Viterbi.shape B N (List.length observations) ->
  nonneg A -> nonneg B ->
  (0 < N)%nat -> (0 < T)%nat ->
  (forall w, In w words -> In w observations) ->
  exists o score out,
    Viterbi.mapM (fun obs => Viterbi.list_index obs observations) words = Ok o /\
    Viterbi.main A B tags observations (sentence :: more) = Ok (score, out) /\
    forall path,
      (forall t, (t < T)%nat -> (nth t path 0 < N)%nat) ->
      joint A B o path (T - 1) <= score.
Proof.
  intros words N T _ _ HA HB HN HT Hin.
  destruct (viterbi_main_runs A B tags observations sentence more HN HT Hin)
    as (o & lat & Lo & Eo & Hinit & Hrec & R).
  cbv zeta in R. destruct R as (Hb & Ev & Hmax & Em).
  fold words N T in Lo, Eo, Hinit, Hrec, Hb, Ev, Hmax, Em.
  eexists o, _, _. split; [exact Eo|]. split; [exact Em|].
  intros path Hp.
  eapply Qle_trans; [|apply (Hmax (nth (T - 1) path 0%nat)); apply Hp; lia].
  apply (lattice_entry_bounds_joint A B N T o lat path HA HB Hinit Hrec Hp). lia.
Qed.

Lemma viterbi_score_is_maximal_witness :
  exists o score out,
    Viterbi.mapM (fun obs => Viterbi.list_index obs toy_observations)
      (split "x y") = Ok o /\
    Viterbi.main toy_A toy_B toy_tags toy_observations ["x y"%string]
    = Ok (score, out) /\
    forall path,
      (forall t, (t < 2)%nat -> (nth t path 0 < 2)%nat) ->
      joint toy_A toy_B o path 1 <= score.
Proof.
  apply (viterbi_score_is_maximal toy_A toy_B toy_tags toy_observations
           "x y"%string []).
  - split; [reflexivity | repeat constructor].
  - split; [reflexivity | repeat constructor].
  - repeat constructor; discriminate.
  - repeat constructor; discriminate.
  - simpl. lia.
  - simpl. lia.
  - simpl. intros w [<-|[<-|[]]]; simpl; tauto.
Defined.

Lemma list_index_total (w : string) (observations : list string) :
  (exists i, Viterbi.list_index w observations = Ok i /\ In w observations)
  \/ (Viterbi.list_index w observations = Raise ValueError /\ ~ In w observations).
Proof.
  induction observations as [|x r IH]; simpl.
  - right. split; [reflexivity | tauto].
  - destruct (string_dec x w) as [->|Hn].
    + left. exists 0%nat. split; [reflexivity | now left].
    + destruct IH as [(i & E & I)|(E & I)]; rewrite E; simpl.
      * left. exists (S i). split; [reflexivity | now right].
      * right. split; [reflexivity | intros [H|H]; congruence].
Qed.

Lemma mapM_list_index (observations words : list string) :
  (exists o, Viterbi.mapM (fun obs => Viterbi.list_index obs observations) words = Ok o
             /\ List.length o = List.length words
             /\ forall w, In w words -> In w observations)
  \/ (Viterbi.mapM (fun obs => Viterbi.list_index obs observations) words
      = Raise ValueError
      /\ exists w, In w words /\ ~ In w observations).
Proof.
  induction words as [|w r IH]; simpl.
  - left. exists []. repeat split; tauto.
  - destruct (list_index_total w observations) as [(i & E & I)|(E & I)];
      rewrite E; simpl.
    + destruct IH as [(o & Eo & Lo & Io)|(Eo & w' & Iw & Nw)]; rewrite Eo; simpl.
      * left. exists (i :: o). split; [reflexivity|]. split; [simpl; lia|].
        intros x [<-|Hx]; auto.
      * right. split; [reflexivity|]. exists w'. auto.
    + right. split; [reflexivity|]. exists w. auto.
Qed.

(** X3. A first line without any word makes the script raise
    [IndexError]; a word that is not in the observation vocabulary makes it
    raise [ValueError], whatever the matrices and the tags. *)
Theorem viterbi_rejects_blank_and_unknown (A B : Viterbi.matrix)
  (tags observations : list string) (sentence : string) (more : list string) :
  (split sentence = [] ->
   Viterbi.main A B tags observations (sentence :: more) = Raise IndexError) /\
  (forall w, In w (split sentence) -> ~ In w observations ->
   Viterbi.main A B tags observations (sentence :: more) = Raise ValueError).
Proof.
  split.
  - intros E. unfold Viterbi.main. cbn [index nth_error bind]. rewrite E.
    reflexivity.
  - intros w I Hn. unfold Viterbi.main. cbn [index nth_error bind].
    destruct (mapM_list_index observations (split sentence))
      as [(o & _ & _ & Io)|(Eo & _)].
    + exfalso. apply Hn. now apply Io.
    + now rewrite Eo.
Qed.

Lemma viterbi_rejects_blank_and_unknown_witness :
  Viterbi.main toy_A toy_B toy_tags toy_observations ["  "%string]
  = Raise IndexError /\
  Viterbi.main toy_A toy_B toy_tags toy_observations ["x z"%string]
  = Raise ValueError.
Proof.
  split.
  - apply (proj1 (viterbi_rejects_blank_and_unknown toy_A toy_B toy_tags
                    toy_observations "  "%string [])).
    reflexivity.
  - apply (proj2 (viterbi_rejects_blank_and_unknown toy_A toy_B toy_tags
                    toy_observations "x z"%string []) "z"%string).
    + simpl. tauto.
    + simpl. intros [E|[E|[]]]; discriminate.
Defined.

(** X4. With an empty list of tags, and arrays of the matching shapes,
    the script prints nothing: it raises [IndexError] on a first line
    without any word and [ValueError] on any other, as no maximum over the
    states exists. *)
Theorem viterbi_without_tags_raises (A B : Viterbi.matrix)
  (observations : list string) (sentence : string) (more : list string) :
  Viterbi.shape A 1 0 ->
  Viterbi.shape B 0 (List.length observations) ->
  Viterbi.main A B [] observations (sentence :: more)
  = match split sentence with
    | [] => Raise IndexError
    | _ :: _ => Raise ValueError
    end.
Proof.
  intros _ _. unfold Viterbi.main. cbn [index nth_error bind].
  destruct (mapM_list_index observations (split sentence))
    as [(o & Eo & Lo & _)|(Eo & w & Iw & _)]; rewrite Eo; cbn [bind].
  - destruct (split sentence) as [|w ws].
    + destruct o; [reflexivity | discriminate].
    + destruct o as [|o0 [|o1 os]]; [discriminate | reflexivity | reflexivity].
  - destruct (split sentence); [destruct Iw | reflexivity].
Qed.

Lemma viterbi_without_tags_raises_witness :
  Viterbi.main [[]] [] [] toy_observations ["x y"%string] = Raise ValueError.
Proof.
  apply (viterbi_without_tags_raises [[]] [] toy_observations "x y"%string []).
  - split; [reflexivity | repeat constructor].
  - split; [reflexivity | constructor].
Defined.
